(** * benchbot_robot_controller: the motion callbacks of [robot_callbacks.py]

    A shallow embedding of [src/robot_callbacks.py] over the real numbers.
    Pose matrices are the 4x4 homogeneous matrices of the source; every
    matrix the module builds or receives has the last row [0 0 0 1], so a
    pose is kept as its 3x3 block and its translation column.  The
    [numpy] and [scipy] primitives the module calls are given their
    mathematical meaning on the reals; the angle wrap is given in
    binary64 as well, where its range differs.  The image encoders of the
    module call [ros_numpy], which the module does not import; they are
    left out. *)

From Stdlib Require Import Reals Lra Lia List String Bool Arith ZArith.
From Stdlib Require PrimFloat SpecFloat FloatOps.
Import ListNotations.
Local Open Scope R_scope.

(** ** Matrices *)

Record Vec3 := mkVec3 { vx : R; vy : R; vz : R }.

Record Mat3 := mkMat3 {
  m00 : R; m01 : R; m02 : R;
  m10 : R; m11 : R; m12 : R;
  m20 : R; m21 : R; m22 : R }.

(** [matrix[0:3, 0:3]] is [rot], [matrix[0:3, 3]] is [trans]; the row
    [matrix[3, :]] is [0 0 0 1]. *)
Record Mat4 := mkMat4 { rot : Mat3; trans : Vec3 }.

Definition eye3 : Mat3 := mkMat3 1 0 0 0 1 0 0 0 1.
Definition zero3 : Vec3 := mkVec3 0 0 0.
Definition eye4 : Mat4 := mkMat4 eye3 zero3.

Definition mat3_mul (a b : Mat3) : Mat3 :=
  mkMat3
    (m00 a * m00 b + m01 a * m10 b + m02 a * m20 b)
    (m00 a * m01 b + m01 a * m11 b + m02 a * m21 b)
    (m00 a * m02 b + m01 a * m12 b + m02 a * m22 b)
    (m10 a * m00 b + m11 a * m10 b + m12 a * m20 b)
    (m10 a * m01 b + m11 a * m11 b + m12 a * m21 b)
    (m10 a * m02 b + m11 a * m12 b + m12 a * m22 b)
    (m20 a * m00 b + m21 a * m10 b + m22 a * m20 b)
    (m20 a * m01 b + m21 a * m11 b + m22 a * m21 b)
    (m20 a * m02 b + m21 a * m12 b + m22 a * m22 b).

Definition mat3_vec (a : Mat3) (v : Vec3) : Vec3 :=
  mkVec3
    (m00 a * vx v + m01 a * vy v + m02 a * vz v)
    (m10 a * vx v + m11 a * vy v + m12 a * vz v)
    (m20 a * vx v + m21 a * vy v + m22 a * vz v).

Definition vec3_add (u v : Vec3) : Vec3 :=
  mkVec3 (vx u + vx v) (vy u + vy v) (vz u + vz v).

Definition vec3_opp (u : Vec3) : Vec3 := mkVec3 (- vx u) (- vy u) (- vz u).

(** [np.matmul] on two pose matrices. *)
Definition matmul (a b : Mat4) : Mat4 :=
  mkMat4 (mat3_mul (rot a) (rot b))
         (vec3_add (mat3_vec (rot a) (trans b)) (trans a)).

Definition det3 (a : Mat3) : R :=
  m00 a * (m11 a * m22 a - m12 a * m21 a)
  - m01 a * (m10 a * m22 a - m12 a * m20 a)
  + m02 a * (m10 a * m21 a - m11 a * m20 a).

(** The adjugate (transposed cofactor matrix) of the 3x3 block. *)
Definition adj3 (a : Mat3) : Mat3 :=
  mkMat3
    (m11 a * m22 a - m12 a * m21 a)
    (m02 a * m21 a - m01 a * m22 a)
    (m01 a * m12 a - m02 a * m11 a)
    (m12 a * m20 a - m10 a * m22 a)
    (m00 a * m22 a - m02 a * m20 a)
    (m02 a * m10 a - m00 a * m12 a)
    (m10 a * m21 a - m11 a * m20 a)
    (m01 a * m20 a - m00 a * m21 a)
    (m00 a * m11 a - m01 a * m10 a).

Definition mat3_scale (k : R) (a : Mat3) : Mat3 :=
  mkMat3 (k * m00 a) (k * m01 a) (k * m02 a)
         (k * m10 a) (k * m11 a) (k * m12 a)
         (k * m20 a) (k * m21 a) (k * m22 a).

(** [np.linalg.inv] on a pose matrix: the inverse of [[M t] [0 1]] is
    [[M^-1  -M^-1 t] [0 1]]; a singular matrix raises [LinAlgError],
    here [None]. *)
Definition linalg_inv (a : Mat4) : option Mat4 :=
  if Req_dec_T (det3 (rot a)) 0 then None
  else
    let mi := mat3_scale (/ det3 (rot a)) (adj3 (rot a)) in
    Some (mkMat4 mi (vec3_opp (mat3_vec mi (trans a)))).

(** ** Scalar primitives *)

(** [np.mod] on floats: the remainder has the sign of the divisor,
    [x - y * floor (x / y)].  Over the reals it is exact and stays
    below a positive divisor; in binary64 the last step of numpy's
    remainder is a rounded sum that can be the divisor itself, for which
    see [Binary64.np_mod] below. *)
Definition np_mod (x y : R) : R := x - y * IZR (Int_part (x / y)).

(** [np.arctan2 y x], with values in (-pi, pi]. *)
Definition arctan2 (y x : R) : R :=
  if Rlt_dec 0 x then atan (y / x)
  else if Rlt_dec x 0 then
    if Rle_dec 0 y then atan (y / x) + PI else atan (y / x) - PI
  else
    if Rlt_dec 0 y then PI / 2
    else if Rlt_dec y 0 then - (PI / 2)
    else 0.

(** [np.linalg.norm] of the 2-vector [v[0:2]]. *)
Definition norm2 (v : Vec3) : R := sqrt (vx v * vx v + vy v * vy v).

(** [np.deg2rad]. *)
Definition deg2rad (d : R) : R := d * (PI / 180).

(** [Rot.from_dcm(m).as_euler('XYZ')[2]]: the third angle of the
    intrinsic X-Y-Z decomposition [m = Rx(a) Ry(b) Rz(c)] of a rotation
    matrix, for which [m00 = cos b cos c] and [m01 = - cos b sin c] with
    [cos b >= 0].  In gimbal lock ([cos b = 0]) scipy sets the angle to
    zero, and so does the formula.  The formula is the exact angle:
    scipy works in binary64, answers a half turn with either of [pi] and
    [-pi], and treats a matrix within about [1e-7] of gimbal lock as
    locked. *)
Definition euler_XYZ_z (m : Mat3) : R := arctan2 (- m01 m) (m00 m).

(** ** Constants *)

Definition _DEFAULT_SPEED_FACTOR : R := 1.
Definition _MOVE_HZ : R := 20.
Definition _MOVE_TOL_DIST : R := 1 / 100.
Definition _MOVE_TOL_YAW : R := deg2rad 1.
Definition _MOVE_ANGLE_K : R := 3.
Definition _MOVE_POSE_K_RHO : R := 7 / 10.
Definition _MOVE_POSE_K_ALPHA : R := 75 / 10.
Definition _MOVE_POSE_K_BETA : R := - 3.

(** ** Pose algebra *)

Definition __ang_to_b (matrix_a matrix_b : Mat4) : R :=
  arctan2 (vy (trans matrix_b) - vy (trans matrix_a))
          (vx (trans matrix_b) - vx (trans matrix_a)).

Definition __tr_b_wrt_a (matrix_a matrix_b : Mat4) : option Mat4 :=
  match linalg_inv matrix_a with
  | Some ia => Some (matmul ia matrix_b)
  | None => None
  end.

Definition __ang_to_b_wrt_a (matrix_a matrix_b : Mat4) : option R :=
  match __tr_b_wrt_a matrix_a matrix_b with
  | Some diff => Some (arctan2 (vy (trans diff)) (vx (trans diff)))
  | None => None
  end.

Definition __dist_from_a_to_b (matrix_a matrix_b : Mat4) : option R :=
  match __tr_b_wrt_a matrix_a matrix_b with
  | Some diff => Some (norm2 (trans diff))
  | None => None
  end.

Definition __pi_wrap (angle : R) : R := np_mod (angle + PI) (2 * PI) - PI.

Definition __yaw (matrix : Mat4) : R := euler_XYZ_z (rot matrix).

Definition __yaw_b_wrt_a (matrix_a matrix_b : Mat4) : option R :=
  match __tr_b_wrt_a matrix_a matrix_b with
  | Some diff => Some (euler_XYZ_z (rot diff))
  | None => None
  end.

(** ** The wrap in binary64 *)

(** [__pi_wrap] as it runs: on doubles, each operation rounded to
    nearest.  [PrimFloat] is IEEE 754 binary64. *)
Module Binary64.

Import PrimFloat SpecFloat FloatOps.

(** [np.pi], the double nearest to pi. *)
Definition pi : float := 0x1.921fb54442d18p+1%float.

(** C's [fmod] on doubles: the remainder of the division truncated
    towards zero, which is a double and is computed exactly; it has the
    sign of [a]. *)
Definition fmod (a b : float) : float :=
  match Prim2SF a, Prim2SF b with
  | S754_finite sa ma ea, S754_finite _ mb eb =>
      let e := Z.min ea eb in
      let r := Z.rem (Z.pos ma * 2 ^ (ea - e)) (Z.pos mb * 2 ^ (eb - e)) in
      if (r =? 0)%Z then (if sa then (-0)%float else 0%float)
      else SF2Prim (binary_normalize prec emax (if sa then - r else r) e sa)
  | S754_zero _, S754_finite _ _ _ => a
  | S754_zero _, S754_infinity _ => a
  | S754_finite _ _ _, S754_infinity _ => a
  | _, _ => nan
  end%Z.

(** [np.mod] on doubles, the modulus of numpy's [npy_divmod]: [fmod],
    moved by [b] when it is not zero and its sign is not that of [b]. *)
Definition np_mod (a b : float) : float :=
  let m := fmod a b in
  if (b =? 0)%float then m
  else if (m =? 0)%float
       then (if (b <? 0)%float then (-0)%float else 0%float)
       else if Bool.eqb (b <? 0)%float (m <? 0)%float then m
            else (m + b)%float.

Definition __pi_wrap (angle : float) : float :=
  (np_mod (angle + pi) (2 * pi) - pi)%float.

End Binary64.

(** ** Building pose matrices *)

(** [Rot.from_quat([x, y, z, w]).as_dcm()]: scipy normalises the
    quaternion first and rejects one of zero norm with [ValueError],
    here [None].  The entries are those of the unit quaternion
    [q / |q|], written with the squared norm [n].  The norm is the exact
    one: in binary64 a quaternion so small that its squared norm
    underflows is rejected like the zero quaternion. *)
Definition quat_as_dcm (x y z w : R) : option Mat3 :=
  let n := x * x + y * y + z * z + w * w in
  if Req_dec_T n 0 then None
  else Some (mkMat3
    ((x * x - y * y - z * z + w * w) / n)
    (2 * (x * y - z * w) / n)
    (2 * (x * z + y * w) / n)
    (2 * (x * y + z * w) / n)
    ((- (x * x) + y * y - z * z + w * w) / n)
    (2 * (y * z - x * w) / n)
    (2 * (x * z - y * w) / n)
    (2 * (y * z + x * w) / n)
    ((- (x * x) - y * y + z * z + w * w) / n)).

(** Expected format is [x, y, z, w, X, Y, Z]; any other length fails in
    [from_quat] or in [reshape(3, 1)]. *)
Definition __pose_vector_to_tf_matrix (pv : list R) : option Mat4 :=
  match pv with
  | [x; y; z; w; tx; ty; tz] =>
      match quat_as_dcm x y z w with
      | Some r => Some (mkMat4 r (mkVec3 tx ty tz))
      | None => None
      end
  | _ => None
  end.

(** Hamilton product of quaternions kept as [(x, y, z, w)]. *)
Definition quat_mul (p q : R * R * R * R) : R * R * R * R :=
  let '(px, py, pz, pw) := p in
  let '(qx, qy, qz, qw) := q in
  (pw * qx + px * qw + py * qz - pz * qy,
   pw * qy - px * qz + py * qw + pz * qx,
   pw * qz + px * qy - py * qx + pz * qw,
   pw * qw - px * qx - py * qy - pz * qz).

(** [Rot.from_euler('XYZ', [r, p, y]).as_quat()]: intrinsic rotations
    about X, then Y, then Z. *)
Definition euler_XYZ_as_quat (r p y : R) : R * R * R * R :=
  quat_mul (quat_mul (sin (r / 2), 0, 0, cos (r / 2))
                     (0, sin (p / 2), 0, cos (p / 2)))
           (0, 0, sin (y / 2), cos (y / 2)).

(** Takes a translation vector and a roll-pitch-yaw vector; the
    quaternion and the translation are stacked into a pose vector. *)
Definition __transrpy_to_tf_matrix (tr : list R) (rpy : list R) : option Mat4 :=
  match rpy with
  | [r; p; y] =>
      let '(qx, qy, qz, qw) := euler_XYZ_as_quat r p y in
      __pose_vector_to_tf_matrix ([qx; qy; qz; qw] ++ tr)
  | _ => None
  end.

(** [np.take(a, indices)]: an index past the end raises [IndexError]. *)
Fixpoint np_take (a : list R) (indices : list nat) : option (list R) :=
  match indices with
  | [] => Some []
  | i :: rest =>
      match nth_error a i, np_take a rest with
      | Some v, Some vs => Some (v :: vs)
      | _, _ => None
      end
  end.

(** Python's [sub in s] on strings. *)
Fixpoint str_contains (sub s : string) : bool :=
  if String.prefix sub s then true
  else match s with
       | EmptyString => false
       | String _ s' => str_contains sub s'
       end.

(** ** The controller object *)

(** [geometry_msgs/Twist]; [Twist()] has every component zero. *)
Record Twist := mkTwist { linear : Vec3; angular : Vec3 }.

Definition Twist0 : Twist := mkTwist zero3 zero3.

Definition set_linear_x (v : R) (t : Twist) : Twist :=
  mkTwist (mkVec3 v (vy (linear t)) (vz (linear t))) (angular t).

Definition set_angular_z (v : R) (t : Twist) : Twist :=
  mkTwist (linear t) (mkVec3 (vx (angular t)) (vy (angular t)) v).

(** The fields of [controller.config] the module reads.  [speed_factor]
    is the only one it tests for presence. *)
Record Config := mkConfig {
  robot_global_frame : string;
  robot_robot_frame : string;
  robot_speed_factor : option R;
  robot_poses : list string;
  task_name : string;
  task_localisation : string;
  environments : list (string * list (list R)) }.

(** [controller.state], a dict: an absent key is [None]. *)
Record State := mkState {
  initial_pose_tf_mat : option Mat4;
  trajectory_pose_next : option nat;
  trajectory_poses : option (list (list R));
  selected_environment : option string }.

Definition set_initial_pose_tf_mat (p : Mat4) (cs : State) : State :=
  mkState (Some p) (trajectory_pose_next cs) (trajectory_poses cs)
          (selected_environment cs).

Definition set_trajectory_pose_next (n : nat) (cs : State) : State :=
  mkState (initial_pose_tf_mat cs) (Some n) (trajectory_poses cs)
          (selected_environment cs).

Definition set_trajectory_poses (l : list (list R)) (cs : State) : State :=
  mkState (initial_pose_tf_mat cs) (trajectory_pose_next cs) (Some l)
          (selected_environment cs).

Inductive exn :=
| LookupException   (* tf_buffer.lookup_transform fails *)
| KeyError
| IndexError
| LinAlgError
| ValueError
| TypeError.

(** The collaborators behind [controller]: the simulator instance, the
    transform buffer, the velocity publisher and the rate timer act on a
    world of type [W]; [lookup_transform] already carries the conversion
    [tf_msg_to_SE2] to a pose matrix and answers [None] when the lookup
    raises. *)
Record Controller (W : Type) := mkController {
  is_collided : W -> bool * W;
  is_dirty : W -> bool * W;
  lookup_transform : string -> string -> W -> option Mat4 * W;
  on_publish : Twist -> W -> W;
  rate_sleep : W -> W;
  config : Config }.

Arguments mkController {W}.
Arguments is_collided {W}.
Arguments is_dirty {W}.
Arguments lookup_transform {W}.
Arguments on_publish {W}.
Arguments rate_sleep {W}.
Arguments config {W}.

(** What a call can change: the world, [controller.state], the stream of
    published velocity commands (oldest first) and the [rospy.logerr]
    lines. *)
Record St (W : Type) := mkSt {
  world : W;
  state : State;
  published : list Twist;
  logged : list string }.

Arguments mkSt {W}.
Arguments world {W}.
Arguments state {W}.
Arguments published {W}.
Arguments logged {W}.

Definition set_world {W} (w : W) (s : St W) : St W :=
  mkSt w (state s) (published s) (logged s).

Definition set_state {W} (cs : State) (s : St W) : St W :=
  mkSt (world s) cs (published s) (logged s).

(** A call returns a value, raises, or is still looping when the tick
    budget of the model is spent. *)
Inductive result (A : Type) :=
| Ok (a : A)
| Raise (e : exn)
| OutOfFuel.

Arguments Ok {A}.
Arguments Raise {A}.
Arguments OutOfFuel {A}.

Definition M (W A : Type) : Type := St W -> result A * St W.

Definition ret {W A} (a : A) : M W A := fun s => (Ok a, s).

Definition raise {W A} (e : exn) : M W A := fun s => (Raise e, s).

Definition out_of_fuel {W A} : M W A := fun s => (OutOfFuel, s).

Definition bind {W A B} (m : M W A) (k : A -> M W B) : M W B :=
  fun s =>
    match m s with
    | (Ok a, s') => k a s'
    | (Raise e, s') => (Raise e, s')
    | (OutOfFuel, s') => (OutOfFuel, s')
    end.

Notation "x <- m ;; k" := (bind m (fun x => k))
  (at level 61, m at next level, right associativity).
Notation "m ;;; k" := (bind m (fun _ => k))
  (at level 61, right associativity).

Definition or_raise {W A} (e : exn) (o : option A) : M W A :=
  match o with
  | Some a => ret a
  | None => raise e
  end.

Definition get_state {W} : M W State := fun s => (Ok (state s), s).

(** [controller.state[key] = value], with [f] the assignment. *)
Definition modify_state {W} (f : State -> State) : M W unit :=
  fun s => (Ok tt, set_state (f (state s)) s).

(** The request payload [data] of the move callbacks, a dict; a payload
    that is not a dict reads as the empty one under [__safe_dict_get],
    through which [move_angle] and [move_distance] make all their
    reads. *)
Record Data := mkData {
  data_angle : option R;
  data_distance : option R;
  data_rot_yaw : option R;
  data_rot_xyzw : option (list R);
  data_trans_xyz : option (list R) }.

Definition __safe_dict_get {A} (field : option A) (default : A) : A :=
  match field with
  | Some v => v
  | None => default
  end.

(** What [_debug_move] is handed as [data].  It tests ['rot_yaw' in data]
    itself, so of a value that is not a dict the outcome of that test is
    kept: [None] when the value is not iterable and the test raises
    [TypeError], as for Python's [None] or a number. *)
Inductive Payload :=
| Payload_dict (d : Data)
| Payload_other (rot_yaw_in_data : option bool).

(** ['rot_yaw' in data] *)
Definition rot_yaw_in (data : Payload) : option bool :=
  match data with
  | Payload_dict d =>
      Some (match data_rot_yaw d with Some _ => true | None => false end)
  | Payload_other o => o
  end.

(** The dict that [__safe_dict_get] reads the payload as. *)
Definition payload_dict (data : Payload) : Data :=
  match data with
  | Payload_dict d => d
  | Payload_other _ => mkData None None None None None
  end.

(** A Python dict with string keys in insertion order: assigning to a key
    that is present replaces its value in place. *)
Fixpoint dict_set {A} (k : string) (v : A) (d : list (string * A))
  : list (string * A) :=
  match d with
  | [] => [(k, v)]
  | (k', v') :: d' =>
      if String.eqb k k' then (k, v) :: d' else (k', v') :: dict_set k v d'
  end.

Fixpoint dict_get {A} (k : string) (d : list (string * A)) : option A :=
  match d with
  | [] => None
  | (k', v) :: d' => if String.eqb k k' then Some v else dict_get k d'
  end.

(** One value of the dict [create_pose_list] returns.  [rotation] is the
    block [v[:-1, :-1]] that the source hands to scipy for both
    ['rotation_rpy'] and ['rotation_xyzw']. *)
Record PoseEntry := mkPoseEntry {
  parent_frame : string;
  translation_xyz : Vec3;
  rotation : Mat3 }.

Section Callbacks.

Context {W : Type}.
Variable controller : Controller W.

Definition instance_is_collided : M W bool :=
  fun s =>
    let '(b, w) := is_collided controller (world s) in
    (Ok b, set_world w s).

Definition instance_is_dirty : M W bool :=
  fun s =>
    let '(b, w) := is_dirty controller (world s) in
    (Ok b, set_world w s).

(** [tf_msg_to_SE2(controller.tf_buffer.lookup_transform(a, b,
    rospy.Time()))] *)
Definition tf_lookup (frame_a frame_b : string) : M W Mat4 :=
  fun s =>
    let '(o, w) := lookup_transform controller frame_a frame_b (world s) in
    match o with
    | Some p => (Ok p, set_world w s)
    | None => (Raise LookupException, set_world w s)
    end.

(** [publisher.publish(msg)] *)
Definition publish (msg : Twist) : M W unit :=
  fun s =>
    (Ok tt, mkSt (on_publish controller msg (world s)) (state s)
                 (published s ++ [msg]) (logged s)).

(** [hz_rate.sleep()] *)
Definition hz_rate_sleep : M W unit :=
  fun s =>
    (Ok tt, mkSt (rate_sleep controller (world s)) (state s)
                 (published s) (logged s)).

Definition rospy_logerr (msg : string) : M W unit :=
  fun s => (Ok tt, mkSt (world s) (state s) (published s) (logged s ++ [msg])).

Definition _define_initial_pose : M W unit :=
  dirty <- instance_is_dirty ;;
  cs <- get_state ;;
  match negb dirty, initial_pose_tf_mat cs with
  | true, None =>
      p <- tf_lookup (robot_global_frame (config controller))
                     (robot_robot_frame (config controller)) ;;
      modify_state (set_initial_pose_tf_mat p)
  | _, _ => ret tt
  end.

Definition _get_noisy_pose (child_frame : string) : M W Mat4 :=
  cs <- get_state ;;
  world_t_init_pose <- or_raise KeyError (initial_pose_tf_mat cs) ;;
  odom_t_child <- tf_lookup "odom" child_frame ;;
  ret (matmul world_t_init_pose odom_t_child).

Definition _current_pose : M W Mat4 :=
  _define_initial_pose ;;;
  if str_contains "ground_truth" (task_name (config controller)) then
    tf_lookup (robot_global_frame (config controller))
              (robot_robot_frame (config controller))
  else
    _get_noisy_pose (robot_robot_frame (config controller)).

Definition _move_speed_factor : R :=
  match robot_speed_factor (config controller) with
  | Some f => f
  | None => _DEFAULT_SPEED_FACTOR
  end.

(** The [while] loop of [_move_to_angle]; [fuel] bounds the number of
    times its condition is evaluated. *)
Fixpoint _move_to_angle_loop (fuel : nat) (goal : Mat4) (vel_msg : Twist)
  : M W unit :=
  match fuel with
  | O => out_of_fuel
  | S fuel' =>
      collided <- instance_is_collided ;;
      if collided : bool then ret tt
      else
        current <- _current_pose ;;
        orientation_error <-
          or_raise LinAlgError (__yaw_b_wrt_a current goal) ;;
        if Rlt_dec (Rabs orientation_error) _MOVE_TOL_YAW then ret tt
        else
          let vel_msg :=
            set_angular_z (_move_speed_factor * _MOVE_ANGLE_K *
                           orientation_error) vel_msg in
          publish vel_msg ;;;
          hz_rate_sleep ;;;
          _move_to_angle_loop fuel' goal vel_msg
  end.

Definition _move_to_angle (fuel : nat) (goal : Mat4) : M W unit :=
  _move_to_angle_loop fuel goal Twist0 ;;;
  publish Twist0.

(** The [while] loop of [_move_to_pose]. *)
Fixpoint _move_to_pose_loop (fuel : nat) (goal : Mat4) (vel_msg : Twist)
  : M W unit :=
  match fuel with
  | O => out_of_fuel
  | S fuel' =>
      collided <- instance_is_collided ;;
      if collided : bool then ret tt
      else
        current <- _current_pose ;;
        rho <- or_raise LinAlgError (__dist_from_a_to_b current goal) ;;
        let alpha := __pi_wrap (__ang_to_b current goal - __yaw current) in
        let beta := __pi_wrap (__yaw goal - __ang_to_b current goal) in
        ang <- or_raise LinAlgError (__ang_to_b_wrt_a current goal) ;;
        let backwards := if Rgt_dec (Rabs ang) (PI / 2) then true else false in
        let alpha := if backwards then __pi_wrap (alpha + PI) else alpha in
        let beta := if backwards then __pi_wrap (beta + PI) else beta in
        if Rlt_dec rho _MOVE_TOL_DIST then _move_to_angle fuel' goal
        else
          let vel_msg :=
            set_linear_x (_move_speed_factor *
                          (if backwards then -1 else 1) *
                          _MOVE_POSE_K_RHO * rho) vel_msg in
          let vel_msg :=
            set_angular_z (_move_speed_factor *
                           (_MOVE_POSE_K_ALPHA * alpha +
                            _MOVE_POSE_K_BETA * beta)) vel_msg in
          publish vel_msg ;;;
          hz_rate_sleep ;;;
          _move_to_pose_loop fuel' goal vel_msg
  end.

Definition _move_to_pose (fuel : nat) (goal : Mat4) : M W unit :=
  _move_to_pose_loop fuel goal Twist0 ;;;
  publish Twist0.

(** The dict comprehension building [tfs] in [create_pose_list], run
    from the entries [tfs] gathered so far. *)
Fixpoint pose_list_tfs (gt_mode : bool) (poses : list string)
         (tfs : list (string * Mat4)) : M W (list (string * Mat4)) :=
  match poses with
  | [] => ret tfs
  | p :: rest =>
      if String.eqb p "initial_pose" then pose_list_tfs gt_mode rest tfs
      else
        v <- (if gt_mode
              then tf_lookup (robot_global_frame (config controller)) p
              else _get_noisy_pose p) ;;
        pose_list_tfs gt_mode rest (dict_set p v tfs)
  end.

Definition pose_list_gt_mode : bool :=
  negb (String.eqb (task_localisation (config controller)) "noisy").

Definition create_pose_list : M W (list (string * PoseEntry)) :=
  _define_initial_pose ;;;
  let gt_mode := pose_list_gt_mode in
  tfs <- pose_list_tfs gt_mode (robot_poses (config controller)) [] ;;
  tfs <- (if existsb (String.eqb "initial_pose")
                     (robot_poses (config controller))
          then
            cs <- get_state ;;
            p <- or_raise KeyError (initial_pose_tf_mat cs) ;;
            ret (dict_set "initial_pose" p tfs)
          else ret tfs) ;;
  ret (fold_left
         (fun out kv =>
            dict_set
              (if str_contains "left_camera" (fst kv) then "camera"
               else fst kv)
              (mkPoseEntry (robot_global_frame (config controller))
                           (trans (snd kv)) (rot (snd kv)))
              out)
         tfs []).

(** The prints of [_debug_move] write to the console; what is kept of
    them is the one failure they add, the inverse of [pose_a] taken for
    the relative final pose. *)
Definition _debug_move (fuel : nat) (data : Payload) : M W unit :=
  pose_a <- _current_pose ;;
  has_rot_yaw <- or_raise TypeError (rot_yaw_in data) ;;
  relative_pose <-
    or_raise ValueError
      (if has_rot_yaw : bool
       then
         __transrpy_to_tf_matrix
           (__safe_dict_get (data_trans_xyz (payload_dict data)) [0; 0; 0])
           [0; 0;
            deg2rad (__safe_dict_get (data_rot_yaw (payload_dict data)) 0)]
       else
         __pose_vector_to_tf_matrix
           (__safe_dict_get (data_rot_xyzw (payload_dict data))
                            [0; 0; 0; 1] ++
            __safe_dict_get (data_trans_xyz (payload_dict data))
                            [0; 0; 0])) ;;
  _move_to_pose fuel (matmul pose_a relative_pose) ;;;
  pose_b <- _current_pose ;;
  _ <- or_raise LinAlgError (__tr_b_wrt_a pose_a pose_b) ;;
  ret tt.

Definition move_angle (fuel : nat) (data : Data) : M W unit :=
  current <- _current_pose ;;
  rel <- or_raise ValueError
           (__transrpy_to_tf_matrix [0; 0; 0]
              [0; 0;
               __pi_wrap (deg2rad (__safe_dict_get (data_angle data) 0))]) ;;
  _move_to_pose fuel (matmul current rel).

Definition move_distance (fuel : nat) (data : Data) : M W unit :=
  current <- _current_pose ;;
  rel <- or_raise ValueError
           (__transrpy_to_tf_matrix
              [__safe_dict_get (data_distance data) 0; 0; 0] [0; 0; 0]) ;;
  _move_to_pose fuel (matmul current rel).

Definition move_next (fuel : nat) : M W unit :=
  cs <- get_state ;;
  (match trajectory_pose_next cs with
   | None =>
       modify_state (set_trajectory_pose_next 0) ;;;
       cs <- get_state ;;
       env <- or_raise KeyError (selected_environment cs) ;;
       poses <- or_raise KeyError
                  (dict_get env (environments (config controller))) ;;
       modify_state (set_trajectory_poses poses)
   | Some _ => ret tt
   end) ;;;
  cs <- get_state ;;
  poses <- or_raise KeyError (trajectory_poses cs) ;;
  next <- or_raise KeyError (trajectory_pose_next cs) ;;
  pose <- or_raise IndexError (nth_error poses next) ;;
  pv <- or_raise IndexError (np_take pose [1; 2; 3; 0; 4; 5; 6]%nat) ;;
  goal <- or_raise ValueError (__pose_vector_to_tf_matrix pv) ;;
  _move_to_pose fuel goal ;;;
  cs <- get_state ;;
  next <- or_raise KeyError (trajectory_pose_next cs) ;;
  modify_state (set_trajectory_pose_next (S next)) ;;;
  cs <- get_state ;;
  next <- or_raise KeyError (trajectory_pose_next cs) ;;
  poses <- or_raise KeyError (trajectory_poses cs) ;;
  if (List.length poses <=? next)%nat
  then rospy_logerr "You have run out of trajectory poses!"
  else ret tt.

End Callbacks.

(** ** Sensor encoders *)

(** The fields of [sensor_msgs/LaserScan] the module reads. *)
Module LaserScan.
Record t := mk {
  ranges : list R;
  angle_min : R;
  angle_increment : R;
  range_min : R;
  range_max : R }.
End LaserScan.



(** The fields of [sensor_msgs/CameraInfo] the module reads. *)
Module CameraInfo.
Record t := mk {
  header_frame_id : string;
  height : Z;
  width : Z;
  K : list R;
  P : list R }.
End CameraInfo.

(** The rows of [np.reshape(a, (rows, cols))], filled in row-major
    order. *)
Fixpoint reshape_rows (rows cols : nat) (a : list R) : list (list R) :=
  match rows with
  | O => []
  | S rows' => firstn cols a :: reshape_rows rows' cols (skipn cols a)
  end.

(** [np.reshape(a, (rows, cols))]: a size that does not fit raises
    [ValueError], here [None]. *)
Definition np_reshape (a : list R) (rows cols : nat)
  : option (list (list R)) :=
  if (List.length a =? rows * cols)%nat
  then Some (reshape_rows rows cols a)
  else None.

(** The dict [encode_camera_info] returns. *)
Record EncodedCameraInfo := mkEncodedCameraInfo {
  frame_id : string;
  encoded_height : Z;
  encoded_width : Z;
  matrix_intrinsics : list (list R);
  matrix_projection : list (list R) }.

Definition encode_camera_info (data : CameraInfo.t)
  : option EncodedCameraInfo :=
  match np_reshape (CameraInfo.K data) 3 3 with
  | None => None
  | Some k =>
      match np_reshape (CameraInfo.P data) 3 4 with
      | None => None
      | Some p =>
          Some (mkEncodedCameraInfo (CameraInfo.header_frame_id data)
                                    (CameraInfo.height data)
                                    (CameraInfo.width data) k p)
      end
  end.

(** * Definitions used in the statements *)

(** ** States, relations and call sequences *)

(** The state after [publisher.publish(msg)]. *)
Definition after_publish {W} (ctl : Controller W) (msg : Twist) (s : St W)
  : St W :=
  mkSt (on_publish ctl msg (world s)) (state s)
       (published s ++ [msg]) (logged s).

(** The state after [publisher.publish(msg)] and [hz_rate.sleep()]. *)
Definition after_tick {W} (ctl : Controller W) (msg : Twist) (s : St W)
  : St W :=
  mkSt (rate_sleep ctl (on_publish ctl msg (world s))) (state s)
       (published s ++ [msg]) (logged s).

(** [m] relates every start state to its end state by [R], whatever the
    result. *)
Definition stepwise {W} (R : St W -> St W -> Prop) {A} (m : M W A) : Prop :=
  forall s, R s (snd (m s)).

(** [m] relates start and end states by [R] unless it returns normally
    after publishing a final [Twist()] that [okcmd] rejects. *)
Definition guarded {W} (R : St W -> St W -> Prop) (okcmd : Twist -> Prop)
    (m : M W unit) : Prop :=
  forall s, okcmd Twist0 \/ fst (m s) <> Ok tt -> R s (snd (m s)).

(** A pose of the plane: a rotation about the vertical axis, any
    translation. *)
Definition planar (m : Mat4) : Prop :=
  m02 (rot m) = 0 /\ m12 (rot m) = 0 /\
  m20 (rot m) = 0 /\ m21 (rot m) = 0 /\ m22 (rot m) = 1 /\
  m11 (rot m) = m00 (rot m) /\ m01 (rot m) = - m10 (rot m) /\
  m00 (rot m) * m00 (rot m) + m10 (rot m) * m10 (rot m) = 1.

(** The commands published between two states. *)
Definition published_between {W} (P : Twist -> Prop) (s s' : St W) : Prop :=
  exists cmds, published s' = published s ++ cmds /\ Forall P cmds.

(** A memoized initial pose is still the same in [s']. *)
Definition keeps_initial_pose {W} (s s' : St W) : Prop :=
  forall p, initial_pose_tf_mat (state s) = Some p ->
            initial_pose_tf_mat (state s') = Some p.

(** The operations of the module on a controller, and a step of the world
    between two of them. *)
Inductive call (W : Type) :=
| Call_define_initial_pose
| Call_get_noisy_pose (child_frame : string)
| Call_current_pose
| Call_move_to_angle (fuel : nat) (goal : Mat4)
| Call_move_to_pose (fuel : nat) (goal : Mat4)
| Call_create_pose_list
| Call_debug_move (fuel : nat) (data : Payload)
| Call_move_angle (fuel : nat) (data : Data)
| Call_move_distance (fuel : nat) (data : Data)
| Call_move_next (fuel : nat)
| World_step (f : W -> W).

Arguments Call_define_initial_pose {W}.
Arguments Call_get_noisy_pose {W}.
Arguments Call_current_pose {W}.
Arguments Call_move_to_angle {W}.
Arguments Call_move_to_pose {W}.
Arguments Call_create_pose_list {W}.
Arguments Call_debug_move {W}.
Arguments Call_move_angle {W}.
Arguments Call_move_distance {W}.
Arguments Call_move_next {W}.
Arguments World_step {W}.

(** The state a call ends in, whether it returns or raises. *)
Definition state_after {W} (ctl : Controller W) (c : call W) (s : St W)
  : St W :=
  match c with
  | Call_define_initial_pose => snd (_define_initial_pose ctl s)
  | Call_get_noisy_pose child => snd (_get_noisy_pose ctl child s)
  | Call_current_pose => snd (_current_pose ctl s)
  | Call_move_to_angle fuel goal => snd (_move_to_angle ctl fuel goal s)
  | Call_move_to_pose fuel goal => snd (_move_to_pose ctl fuel goal s)
  | Call_create_pose_list => snd (create_pose_list ctl s)
  | Call_debug_move fuel data => snd (_debug_move ctl fuel data s)
  | Call_move_angle fuel data => snd (move_angle ctl fuel data s)
  | Call_move_distance fuel data => snd (move_distance ctl fuel data s)
  | Call_move_next fuel => snd (move_next ctl fuel s)
  | World_step f => set_world (f (world s)) s
  end.

Definition state_after_all {W} (ctl : Controller W) (cs : list (call W))
    (s : St W) : St W :=
  fold_left (fun s c => state_after ctl c s) cs s.

(** The angles of steps 4 and 5 of the drive law, before any adjustment
    for reversing. *)
Definition alpha_of (current goal : Mat4) : R :=
  __pi_wrap (__ang_to_b current goal - __yaw current).

Definition beta_of (current goal : Mat4) : R :=
  __pi_wrap (__yaw goal - __ang_to_b current goal).

(** Consecutive calls of [move_next], one tick budget each. *)
Fixpoint move_next_calls {W} (ctl : Controller W) (fuels : list nat)
  : M W unit :=
  match fuels with
  | [] => ret tt
  | fuel :: rest => move_next ctl fuel ;;; move_next_calls ctl rest
  end.

(** The cursor is at [k] in the waypoint list [l]. *)
Definition trajectory_at {W} (k : nat) (l : list (list R)) (s : St W) : Prop :=
  trajectory_pose_next (state s) = Some k /\
  trajectory_poses (state s) = Some l.

(** The bookkeeping of [move_next] after its move has returned in [s1]
    with the cursor at [k]. *)
Definition advanced {W} (k : nat) (l : list (list R)) (s1 : St W) : St W :=
  let s2 := set_state (set_trajectory_pose_next (S k) (state s1)) s1 in
  if (List.length l <=? S k)%nat
  then mkSt (world s2) (state s2) (published s2)
            (logged s2 ++ ["You have run out of trajectory poses!"%string])
  else s2.

Definition same_trajectory {W} (s s' : St W) : Prop :=
  trajectory_pose_next (state s') = trajectory_pose_next (state s) /\
  trajectory_poses (state s') = trajectory_poses (state s).

Definition transpose3 (a : Mat3) : Mat3 :=
  mkMat3 (m00 a) (m10 a) (m20 a)
         (m01 a) (m11 a) (m21 a)
         (m02 a) (m12 a) (m22 a).

(** A rotation matrix: orthonormal columns and determinant one. *)
Definition rotation3 (r : Mat3) : Prop :=
  mat3_mul (transpose3 r) r = eye3 /\ det3 r = 1.

(** A rigid pose: the 3x3 block is a rotation matrix. *)
Definition rigid (m : Mat4) : Prop := rotation3 (rot m).

(** A command of the orientation loop: no linear part, rotation about the
    vertical axis only, within [bound]. *)
Definition turn_command (bound : R) (c : Twist) : Prop :=
  linear c = zero3 /\ vx (angular c) = 0 /\ vy (angular c) = 0 /\
  Rabs (vz (angular c)) <= bound.

(** A command of the drive loop: forward speed and rotation about the
    vertical axis only, the latter within [bound]. *)
Definition drive_command (bound : R) (c : Twist) : Prop :=
  vy (linear c) = 0 /\ vz (linear c) = 0 /\
  vx (angular c) = 0 /\ vy (angular c) = 0 /\
  Rabs (vz (angular c)) <= bound.

(** A rotation by [theta] about the vertical axis. *)
Definition rot_z (theta : R) : Mat3 :=
  mkMat3 (cos theta) (- sin theta) 0
         (sin theta) (cos theta) 0
         0 0 1.

(** The pose [d] further along the forward axis of [c], same orientation. *)
Definition pose_advanced (c : Mat4) (d : R) : Mat4 :=
  mkMat4 (rot c)
         (mkVec3 (vx (trans c) + d * m00 (rot c))
                 (vy (trans c) + d * m10 (rot c))
                 (vz (trans c) + d * m20 (rot c))).

(** The pose at the place of [c], turned by [theta] about its own
    vertical axis. *)
Definition pose_rotated (c : Mat4) (theta : R) : Mat4 :=
  mkMat4 (mat3_mul (rot c) (rot_z theta)) (trans c).

(** The cursor moves on by at most [n] and the waypoint list stays. *)
Definition cursor_steps {W} (n : nat) (s s' : St W) : Prop :=
  forall k, trajectory_pose_next (state s) = Some k ->
    exists k', trajectory_pose_next (state s') = Some k' /\
               (k <= k' <= k + n)%nat /\
               trajectory_poses (state s') = trajectory_poses (state s).

(** [controller.state['selected_environment'] = env]. *)
Definition select_environment (env : string) (cs : State) : State :=
  mkState (initial_pose_tf_mat cs) (trajectory_pose_next cs)
          (trajectory_poses cs) (Some env).

(** Nothing but the world and the memoized initial pose differs. *)
Definition quiet {W} (s s' : St W) : Prop :=
  published s' = published s /\ logged s' = logged s /\
  trajectory_pose_next (state s') = trajectory_pose_next (state s) /\
  trajectory_poses (state s') = trajectory_poses (state s) /\
  selected_environment (state s') = selected_environment (state s).

Definition keys {A} (d : list (string * A)) : list string := map fst d.

(** ** Scripted worlds and sample poses *)

(** A quarter turn about the Y axis, one unit along X. *)
Definition pose_pitched : Mat4 :=
  mkMat4 (mkMat3 0 0 1 0 1 0 (-1) 0 0) (mkVec3 1 0 0).

(** A quarter turn about the vertical axis, at (1, 2, 0). *)
Definition pose_turned : Mat4 :=
  mkMat4 (mkMat3 0 (-1) 0 1 0 0 0 0 1) (mkVec3 1 2 0).

(** A world that is a tick counter: the collision signal, the dirty flag
    and the transform tree are read off the current tick, and the tick
    advances at each [hz_rate.sleep()]. *)
Definition scripted (collide dirty : nat -> bool)
    (tf : nat -> string -> string -> option Mat4) (cfg : Config)
  : Controller nat :=
  mkController (fun t => (collide t, t)) (fun t => (dirty t, t))
               (fun a b t => (tf t a b, t)) (fun _ t => t) S cfg.

Definition waypoint_origin : list R := [1; 0; 0; 0; 0; 0; 0].

Definition cfg_ground_truth : Config :=
  mkConfig "map" "base_link" None ["initial_pose"%string]
           "semantic_slam:active:ground_truth" "ground_truth"
           [("miniroom"%string,
             [waypoint_origin; waypoint_origin; waypoint_origin])].

Definition st_start : St nat :=
  mkSt 0%nat (mkState None None None (Some "miniroom"%string)) [] [].

Definition never (_ : nat) : bool := false.
Definition always (_ : nat) : bool := true.
Definition from_tick (n t : nat) : bool := (n <=? t)%nat.

(** The robot stays at the origin of the map. *)
Definition tf_origin (_ : nat) (_ _ : string) : option Mat4 := Some eye4.

(** The transform tree answers at tick 0 and is unavailable afterwards. *)
Definition tf_lost (t : nat) (_ _ : string) : option Mat4 :=
  if (t =? 0)%nat then Some eye4 else None.

Definition goal_ahead : Mat4 := mkMat4 eye3 (mkVec3 1 0 0).
Definition goal_behind : Mat4 := mkMat4 eye3 (mkVec3 (-1) 0 0).

(** The state once [p] has been memoized as the initial pose. *)
Definition memoized (p : Mat4) (s : St nat) : St nat :=
  match initial_pose_tf_mat (state s) with
  | Some _ => s
  | None => set_state (set_initial_pose_tf_mat p (state s)) s
  end.

Definition goal_close_behind : Mat4 := mkMat4 eye3 (mkVec3 (- (1 / 200)) 0 0).




(** The state of a fresh session once the identity has been memoized. *)
Definition st_memo (t : nat) (pub : list Twist) : St nat :=
  mkSt t (mkState (Some eye4) None None (Some "miniroom"%string)) pub [].

(** The first tick of a drive from the origin, goal one unit ahead. *)
Definition cmd_ahead : Twist := mkTwist (mkVec3 (7 / 10) 0 0) zero3.

(** The first tick of a drive from the origin, goal one unit behind. *)
Definition cmd_behind : Twist := mkTwist (mkVec3 (- (7 / 10)) 0 0) zero3.

Definition waypoints3 : list (list R) :=
  [waypoint_origin; waypoint_origin; waypoint_origin].

(** The session with the cursor at [k] in [waypoints3]. *)
Definition st_traj (k : nat) (pub : list Twist) (lg : list string) : St nat :=
  mkSt 0%nat (mkState None (Some k) (Some waypoints3) (Some "miniroom"%string))
       pub lg.




(** A ground-truth task whose localisation field says noisy. *)
Definition cfg_mixed : Config :=
  mkConfig "map" "base_link" None ["camera"%string]
           "semantic_slam:active:ground_truth" "noisy" [].

Definition pose_two_ahead : Mat4 := mkMat4 eye3 (mkVec3 2 0 0).
Definition pose_five_ahead : Mat4 := mkMat4 eye3 (mkVec3 5 0 0).

(** Odometry reports 2 along X, the map tree 5 along X. *)
Definition tf_drifted (_ : nat) (a _ : string) : option Mat4 :=
  if String.eqb a "odom" then Some pose_two_ahead else Some pose_five_ahead.

(** A session whose initial pose is the identity. *)
Definition st_session : St nat :=
  mkSt 0%nat (mkState (Some eye4) None None None) [] [].

(** A dead-reckoning task. *)
Definition cfg_noisy : Config :=
  mkConfig "map" "base_link" None ["camera"%string]
           "semantic_slam:active:dead_reckoning" "noisy" [].

(** The transform tree is never available. *)
Definition tf_none (_ : nat) (_ _ : string) : option Mat4 := None.

(** The robot stays at the quarter turn at (1, 2, 0). *)
Definition tf_turned (_ : nat) (_ _ : string) : option Mat4 := Some pose_turned.


(** A fresh session with no environment selected. *)
Definition st_unselected : St nat :=
  mkSt 0%nat (mkState None None None None) [] [].

(** The cursor on a waypoint of three numbers. *)
Definition st_short_waypoint : St nat :=
  mkSt 0%nat (mkState None (Some 0%nat) (Some [[1; 0; 0]]) None) [] [].

(** A dead-reckoning task that lists the initial pose. *)
Definition cfg_noisy_initial : Config :=
  mkConfig "map" "base_link" None ["initial_pose"%string]
           "semantic_slam:active:dead_reckoning" "noisy" [].

(** * Properties *)

(** ** Angle wrapping *)

Lemma np_mod_bounds (x y : R) : 0 < y -> 0 <= np_mod x y < y.
Proof.
  intros Hy. unfold np_mod.
  destruct (base_fp (x / y)) as [H0 H1]. unfold frac_part in H0, H1.
  assert (Hx : x = y * (x / y)) by (field; lra).
  set (k := IZR (Int_part (x / y))) in *.
  set (q := x / y) in *.
  split; rewrite Hx at 1; nra.
Qed.

Lemma np_mod_small (x y : R) : 0 <= x < y -> np_mod x y = x.
Proof.
  intros [H0 H1]. unfold np_mod.
  assert (Hy : 0 < y) by lra.
  assert (Hq : 0 <= x / y < 1).
  { split.
    - apply Rmult_le_pos; [lra | left; apply Rinv_0_lt_compat; lra].
    - apply (Rmult_lt_reg_r y); [lra |].
      replace (x / y * y) with x by (field; lra). lra. }
  replace (Int_part (x / y)) with 0%Z; [simpl; ring |].
  apply Int_part_spec. simpl. lra.
Qed.

Lemma np_mod_self (y : R) : 0 < y -> np_mod y y = 0.
Proof.
  intros Hy. unfold np_mod.
  replace (y / y) with 1 by (field; lra).
  replace (Int_part 1) with 1%Z; [simpl; ring |].
  apply Int_part_spec. simpl. lra.
Qed.

Lemma pi_wrap_range (x : R) : - PI <= __pi_wrap x < PI.
Proof.
  unfold __pi_wrap.
  pose proof PI_RGT_0 as Hpi.
  destruct (np_mod_bounds (x + PI) (2 * PI)) as [H0 H1]; lra.
Qed.

Lemma pi_wrap_fixed (x : R) : - PI <= x < PI -> __pi_wrap x = x.
Proof.
  intros Hx. unfold __pi_wrap.
  rewrite np_mod_small; lra.
Qed.

Lemma pi_wrap_PI : __pi_wrap PI = - PI.
Proof.
  unfold __pi_wrap. pose proof PI_RGT_0 as Hpi.
  replace (PI + PI) with (2 * PI) by ring.
  rewrite np_mod_self; lra.
Qed.






(** ** Distance *)

Lemma planar_det (a : Mat4) : planar a -> det3 (rot a) = 1.
Proof.
  destruct a as [[a00 a01 a02 a10 a11 a12 a20 a21 a22] ta].
  unfold planar, det3; simpl.
  intros (-> & -> & -> & -> & -> & -> & -> & H). nra.
Qed.

Lemma dist_planar (a b : Mat4) :
  planar a ->
  __dist_from_a_to_b a b =
  Some (sqrt ((vx (trans b) - vx (trans a)) * (vx (trans b) - vx (trans a)) +
              (vy (trans b) - vy (trans a)) * (vy (trans b) - vy (trans a)))).
Proof.
  intros Ha. pose proof (planar_det a Ha) as Hd.
  unfold __dist_from_a_to_b, __tr_b_wrt_a, linalg_inv.
  destruct (Req_dec_T (det3 (rot a)) 0) as [E | _]; [lra |].
  rewrite Hd.
  destruct a as [[a00 a01 a02 a10 a11 a12 a20 a21 a22] [ax ay az]].
  destruct b as [rb [bx by_ bz]].
  unfold planar in Ha; simpl in Ha.
  destruct Ha as (-> & -> & -> & -> & -> & -> & -> & H).
  unfold norm2; simpl. f_equal. f_equal.
  replace ((bx - ax) * (bx - ax) + (by_ - ay) * (by_ - ay))
    with ((a00 * a00 + a10 * a10) *
          ((bx - ax) * (bx - ax) + (by_ - ay) * (by_ - ay)))
    by (rewrite H; ring).
  field.
Qed.

(** C8, as the code has it: between two poses of the plane the distance is
    the same in both directions. *)
Theorem C8_distance_symmetric_planar (a b : Mat4) :
  planar a -> planar b ->
  __dist_from_a_to_b a b = __dist_from_a_to_b b a.
Proof.
  intros Ha Hb. rewrite (dist_planar a b Ha), (dist_planar b a Hb).
  f_equal. f_equal. ring.
Qed.

Lemma planar_eye4 : planar eye4.
Proof. unfold planar; simpl. repeat split; lra. Qed.

Lemma planar_pose_turned : planar pose_turned.
Proof. unfold planar; simpl. repeat split; lra. Qed.

(** The identity and a quarter turn about the vertical axis at (1, 2, 0). *)
Lemma C8_distance_symmetric_planar_witness :
  planar eye4 /\ planar pose_turned /\
  __dist_from_a_to_b eye4 pose_turned = __dist_from_a_to_b pose_turned eye4.
Proof.
  split; [apply planar_eye4 |].
  split; [apply planar_pose_turned |].
  apply (C8_distance_symmetric_planar eye4 pose_turned).
  - apply planar_eye4.
  - apply planar_pose_turned.
Defined.

Ltac eval_inv :=
  unfold __dist_from_a_to_b, __yaw_b_wrt_a, __ang_to_b_wrt_a,
         __tr_b_wrt_a, linalg_inv, det3;
  cbn [rot trans m00 m01 m02 m10 m11 m12 m20 m21 m22];
  match goal with
  | |- context [Req_dec_T ?d 0] =>
      destruct (Req_dec_T d 0) as [?E | _]; [exfalso; lra |]
  end.

(** C8 as stated fails on poses that leave the plane: from the identity
    the pitched pose is one unit away, but from the pitched pose the
    identity lies straight along its own Z axis, at 2D distance zero. *)
Lemma C8_distance_not_symmetric :
  __dist_from_a_to_b eye4 pose_pitched = Some 1 /\
  __dist_from_a_to_b pose_pitched eye4 = Some 0 /\
  __dist_from_a_to_b eye4 pose_pitched <> __dist_from_a_to_b pose_pitched eye4.
Proof.
  assert (H1 : __dist_from_a_to_b eye4 pose_pitched = Some 1).
  { unfold eye4, eye3, pose_pitched. eval_inv.
    unfold norm2; simpl. f_equal.
    transitivity (sqrt 1); [f_equal; field; lra | apply sqrt_1]. }
  assert (H2 : __dist_from_a_to_b pose_pitched eye4 = Some 0).
  { unfold eye4, eye3, pose_pitched. eval_inv.
    unfold norm2; simpl. f_equal.
    transitivity (sqrt 0); [f_equal; field; lra | apply sqrt_0]. }
  rewrite H1, H2. repeat split. intros H. injection H. lra.
Qed.

(** ** One iteration of the control loops *)

Section Ticks.

Context {W : Type}.
Variable ctl : Controller W.

Lemma bind_ok {A B} (m : M W A) (k : A -> M W B) s a s1 :
  m s = (Ok a, s1) -> bind m k s = k a s1.
Proof. intros H. unfold bind. now rewrite H. Qed.

Lemma bind_raise {A B} (m : M W A) (k : A -> M W B) s e s1 :
  m s = (Raise e, s1) -> bind m k s = (Raise e, s1).
Proof. intros H. unfold bind. now rewrite H. Qed.

Lemma bind_out_of_fuel {A B} (m : M W A) (k : A -> M W B) s s1 :
  m s = (OutOfFuel, s1) -> bind m k s = (OutOfFuel, s1).
Proof. intros H. unfold bind. now rewrite H. Qed.

Lemma is_collided_run s b w1 :
  is_collided ctl (world s) = (b, w1) ->
  instance_is_collided ctl s = (Ok b, set_world w1 s).
Proof. intros H. unfold instance_is_collided. now rewrite H. Qed.

Lemma angle_loop_collided fuel goal vel s w1 :
  is_collided ctl (world s) = (true, w1) ->
  _move_to_angle_loop ctl (S fuel) goal vel s = (Ok tt, set_world w1 s).
Proof.
  intros H. cbn [_move_to_angle_loop].
  now rewrite (bind_ok _ _ _ _ _ (is_collided_run _ _ _ H)).
Qed.

Lemma angle_loop_raise fuel goal vel s w1 e s2 :
  is_collided ctl (world s) = (false, w1) ->
  _current_pose ctl (set_world w1 s) = (Raise e, s2) ->
  _move_to_angle_loop ctl (S fuel) goal vel s = (Raise e, s2).
Proof.
  intros H Hc. cbn [_move_to_angle_loop].
  rewrite (bind_ok _ _ _ _ _ (is_collided_run _ _ _ H)).
  now rewrite (bind_raise _ _ _ _ _ Hc).
Qed.

Lemma angle_loop_converged fuel goal vel s w1 current s2 err :
  is_collided ctl (world s) = (false, w1) ->
  _current_pose ctl (set_world w1 s) = (Ok current, s2) ->
  __yaw_b_wrt_a current goal = Some err ->
  Rabs err < _MOVE_TOL_YAW ->
  _move_to_angle_loop ctl (S fuel) goal vel s = (Ok tt, s2).
Proof.
  intros H Hc He Ht. cbn [_move_to_angle_loop].
  rewrite (bind_ok _ _ _ _ _ (is_collided_run _ _ _ H)).
  rewrite (bind_ok _ _ _ _ _ Hc). rewrite He. cbn [or_raise].
  unfold bind at 1, ret at 1.
  destruct (Rlt_dec (Rabs err) _MOVE_TOL_YAW); [reflexivity | contradiction].
Qed.

Lemma angle_loop_step fuel goal vel s w1 current s2 err :
  is_collided ctl (world s) = (false, w1) ->
  _current_pose ctl (set_world w1 s) = (Ok current, s2) ->
  __yaw_b_wrt_a current goal = Some err ->
  ~ Rabs err < _MOVE_TOL_YAW ->
  let cmd := set_angular_z
               (_move_speed_factor ctl * _MOVE_ANGLE_K * err) vel in
  _move_to_angle_loop ctl (S fuel) goal vel s =
  _move_to_angle_loop ctl fuel goal cmd (after_tick ctl cmd s2).
Proof.
  intros H Hc He Ht cmd. cbn [_move_to_angle_loop].
  rewrite (bind_ok _ _ _ _ _ (is_collided_run _ _ _ H)).
  rewrite (bind_ok _ _ _ _ _ Hc). rewrite He. cbn [or_raise].
  unfold bind at 1, ret at 1.
  destruct (Rlt_dec (Rabs err) _MOVE_TOL_YAW); [contradiction | reflexivity].
Qed.

Lemma move_to_angle_ok fuel goal s s1 :
  _move_to_angle_loop ctl fuel goal Twist0 s = (Ok tt, s1) ->
  _move_to_angle ctl fuel goal s = (Ok tt, after_publish ctl Twist0 s1).
Proof.
  intros H. unfold _move_to_angle. now rewrite (bind_ok _ _ _ _ _ H).
Qed.

Lemma move_to_angle_raise fuel goal s e s1 :
  _move_to_angle_loop ctl fuel goal Twist0 s = (Raise e, s1) ->
  _move_to_angle ctl fuel goal s = (Raise e, s1).
Proof.
  intros H. unfold _move_to_angle. now rewrite (bind_raise _ _ _ _ _ H).
Qed.

Lemma pose_loop_collided fuel goal vel s w1 :
  is_collided ctl (world s) = (true, w1) ->
  _move_to_pose_loop ctl (S fuel) goal vel s = (Ok tt, set_world w1 s).
Proof.
  intros H. cbn [_move_to_pose_loop].
  now rewrite (bind_ok _ _ _ _ _ (is_collided_run _ _ _ H)).
Qed.

Lemma pose_loop_raise fuel goal vel s w1 e s2 :
  is_collided ctl (world s) = (false, w1) ->
  _current_pose ctl (set_world w1 s) = (Raise e, s2) ->
  _move_to_pose_loop ctl (S fuel) goal vel s = (Raise e, s2).
Proof.
  intros H Hc. cbn [_move_to_pose_loop].
  rewrite (bind_ok _ _ _ _ _ (is_collided_run _ _ _ H)).
  now rewrite (bind_raise _ _ _ _ _ Hc).
Qed.

Lemma pose_loop_near fuel goal vel s w1 current s2 rho ang :
  is_collided ctl (world s) = (false, w1) ->
  _current_pose ctl (set_world w1 s) = (Ok current, s2) ->
  __dist_from_a_to_b current goal = Some rho ->
  __ang_to_b_wrt_a current goal = Some ang ->
  rho < _MOVE_TOL_DIST ->
  _move_to_pose_loop ctl (S fuel) goal vel s = _move_to_angle ctl fuel goal s2.
Proof.
  intros H Hc Hr Ha Ht. cbn [_move_to_pose_loop].
  rewrite (bind_ok _ _ _ _ _ (is_collided_run _ _ _ H)).
  rewrite (bind_ok _ _ _ _ _ Hc). rewrite Hr, Ha. cbn [or_raise].
  unfold bind at 1, ret at 1. unfold bind at 1, ret at 1.
  destruct (Rlt_dec rho _MOVE_TOL_DIST); [reflexivity | contradiction].
Qed.

Lemma pose_loop_step fuel goal vel s w1 current s2 rho ang :
  is_collided ctl (world s) = (false, w1) ->
  _current_pose ctl (set_world w1 s) = (Ok current, s2) ->
  __dist_from_a_to_b current goal = Some rho ->
  __ang_to_b_wrt_a current goal = Some ang ->
  ~ rho < _MOVE_TOL_DIST ->
  let backwards := if Rgt_dec (Rabs ang) (PI / 2) then true else false in
  let alpha := __pi_wrap (__ang_to_b current goal - __yaw current) in
  let beta := __pi_wrap (__yaw goal - __ang_to_b current goal) in
  let alpha' := if backwards then __pi_wrap (alpha + PI) else alpha in
  let beta' := if backwards then __pi_wrap (beta + PI) else beta in
  let cmd :=
    set_angular_z
      (_move_speed_factor ctl *
       (_MOVE_POSE_K_ALPHA * alpha' + _MOVE_POSE_K_BETA * beta'))
      (set_linear_x
         (_move_speed_factor ctl * (if backwards then -1 else 1) *
          _MOVE_POSE_K_RHO * rho) vel) in
  _move_to_pose_loop ctl (S fuel) goal vel s =
  _move_to_pose_loop ctl fuel goal cmd (after_tick ctl cmd s2).
Proof.
  intros H Hc Hr Ha Ht. cbn zeta. cbn [_move_to_pose_loop].
  rewrite (bind_ok _ _ _ _ _ (is_collided_run _ _ _ H)).
  rewrite (bind_ok _ _ _ _ _ Hc). rewrite Hr, Ha. cbn [or_raise].
  unfold bind at 1, ret at 1. unfold bind at 1, ret at 1.
  destruct (Rlt_dec rho _MOVE_TOL_DIST); [contradiction | reflexivity].
Qed.

Lemma move_to_pose_ok fuel goal s s1 :
  _move_to_pose_loop ctl fuel goal Twist0 s = (Ok tt, s1) ->
  _move_to_pose ctl fuel goal s = (Ok tt, after_publish ctl Twist0 s1).
Proof.
  intros H. unfold _move_to_pose. now rewrite (bind_ok _ _ _ _ _ H).
Qed.

Lemma move_to_pose_raise fuel goal s e s1 :
  _move_to_pose_loop ctl fuel goal Twist0 s = (Raise e, s1) ->
  _move_to_pose ctl fuel goal s = (Raise e, s1).
Proof.
  intros H. unfold _move_to_pose. now rewrite (bind_raise _ _ _ _ _ H).
Qed.

End Ticks.

(** ** What every call leaves in place *)

Section Stepwise.

Context {W : Type}.
Variable ctl : Controller W.

Variable R : St W -> St W -> Prop.
Hypothesis R_refl : forall s, R s s.
Hypothesis R_trans : forall s1 s2 s3, R s1 s2 -> R s2 s3 -> R s1 s3.

Lemma stepwise_ret {A} (a : A) : stepwise R (ret a).
Proof. intros s. apply R_refl. Qed.

Lemma stepwise_raise {A} e : stepwise R (@raise W A e).
Proof. intros s. apply R_refl. Qed.

Lemma stepwise_out_of_fuel {A} : stepwise R (@out_of_fuel W A).
Proof. intros s. apply R_refl. Qed.

Lemma stepwise_or_raise {A} e (o : option A) : stepwise R (or_raise e o).
Proof. destruct o; [apply stepwise_ret | apply stepwise_raise]. Qed.

Lemma stepwise_get_state : stepwise R get_state.
Proof. intros s. apply R_refl. Qed.

Lemma stepwise_bind {A B} (m : M W A) (k : A -> M W B) :
  stepwise R m -> (forall a, stepwise R (k a)) -> stepwise R (bind m k).
Proof.
  intros Hm Hk s. unfold bind. specialize (Hm s).
  destruct (m s) as [[a | e |] s1]; cbn [snd] in *; auto.
  eapply R_trans; [exact Hm | apply Hk].
Qed.

(** [R] holds across every change of the world alone, across every
    published command satisfying [okcmd], and across a log line. *)
Variable okcmd : Twist -> Prop.
Hypothesis R_world : forall s w, R s (set_world w s).
Hypothesis R_publish : forall s msg, okcmd msg -> R s (after_publish ctl msg s).
Hypothesis R_log :
  forall s msg,
    R s (mkSt (world s) (state s) (published s) (logged s ++ [msg])).

Lemma stepwise_is_collided : stepwise R (instance_is_collided ctl).
Proof.
  intros s. unfold instance_is_collided.
  destruct (is_collided ctl (world s)). apply R_world.
Qed.

Lemma stepwise_is_dirty : stepwise R (instance_is_dirty ctl).
Proof.
  intros s. unfold instance_is_dirty.
  destruct (is_dirty ctl (world s)). apply R_world.
Qed.

Lemma stepwise_tf_lookup a b : stepwise R (tf_lookup ctl a b).
Proof.
  intros s. unfold tf_lookup.
  destruct (lookup_transform ctl a b (world s)) as [[p |] w]; apply R_world.
Qed.

Lemma stepwise_sleep : stepwise R (hz_rate_sleep ctl).
Proof. intros s. apply (R_world s). Qed.

Lemma stepwise_publish msg : okcmd msg -> stepwise R (publish ctl msg).
Proof. intros H s. apply R_publish, H. Qed.

Lemma stepwise_logerr msg : stepwise R (@rospy_logerr W msg).
Proof. intros s. apply R_log. Qed.

(** [R] holds across the memoization of the initial pose, which happens
    only when none is memoized yet. *)
Hypothesis R_set_initial :
  forall s p,
    initial_pose_tf_mat (state s) = None ->
    R s (set_state (set_initial_pose_tf_mat p (state s)) s).

Lemma stepwise_define_initial_pose : stepwise R (_define_initial_pose ctl).
Proof.
  unfold _define_initial_pose.
  apply stepwise_bind; [apply stepwise_is_dirty | intros dirty].
  intros s. unfold bind at 1, get_state at 1.
  destruct (negb dirty); [| apply R_refl].
  destruct (initial_pose_tf_mat (state s)) eqn:E; [apply R_refl |].
  unfold bind, tf_lookup.
  destruct (lookup_transform ctl _ _ (world s)) as [[p |] w];
    [| apply R_world].
  eapply R_trans; [apply (R_world s w) |].
  unfold modify_state. cbn [snd].
  apply (R_set_initial (set_world w s)). exact E.
Qed.

Lemma stepwise_get_noisy_pose child : stepwise R (_get_noisy_pose ctl child).
Proof.
  unfold _get_noisy_pose.
  apply stepwise_bind; [apply stepwise_get_state | intros cs].
  apply stepwise_bind; [apply stepwise_or_raise | intros p].
  apply stepwise_bind; [apply stepwise_tf_lookup | intros o].
  apply stepwise_ret.
Qed.

Lemma stepwise_current_pose : stepwise R (_current_pose ctl).
Proof.
  unfold _current_pose.
  apply stepwise_bind; [apply stepwise_define_initial_pose | intros _].
  destruct (str_contains _ _);
    [apply stepwise_tf_lookup | apply stepwise_get_noisy_pose].
Qed.

(** The commands the loop bodies publish satisfy [okcmd]. *)
Hypothesis ok_angle_cmd :
  forall err vel,
    ~ Rabs err < _MOVE_TOL_YAW ->
    okcmd (set_angular_z (_move_speed_factor ctl * _MOVE_ANGLE_K * err) vel).
Hypothesis ok_pose_cmd :
  forall (backwards : bool) rho a vel,
    ~ rho < _MOVE_TOL_DIST ->
    okcmd (set_angular_z a
             (set_linear_x (_move_speed_factor ctl *
                            (if backwards then -1 else 1) *
                            _MOVE_POSE_K_RHO * rho) vel)).

Lemma stepwise_angle_loop fuel goal vel :
  stepwise R (_move_to_angle_loop ctl fuel goal vel).
Proof.
  revert vel. induction fuel as [| fuel IH]; intros vel;
    cbn [_move_to_angle_loop]; [apply stepwise_out_of_fuel |].
  apply stepwise_bind; [apply stepwise_is_collided | intros [|]];
    [apply stepwise_ret |].
  apply stepwise_bind; [apply stepwise_current_pose | intros current].
  apply stepwise_bind; [apply stepwise_or_raise | intros err].
  destruct (Rlt_dec (Rabs err) _MOVE_TOL_YAW) as [Hlt | Hge];
    [apply stepwise_ret |].
  apply stepwise_bind; [apply stepwise_publish, ok_angle_cmd, Hge | intros _].
  apply stepwise_bind; [apply stepwise_sleep | intros _].
  apply IH.
Qed.

Lemma guarded_of_stepwise (m : M W unit) : stepwise R m -> guarded R okcmd m.
Proof. intros H s _. apply H. Qed.

Lemma guarded_bind {A} (m : M W A) (k : A -> M W unit) :
  stepwise R m -> (forall a, guarded R okcmd (k a)) ->
  guarded R okcmd (bind m k).
Proof.
  intros Hm Hk s. unfold bind. specialize (Hm s).
  destruct (m s) as [[a | e |] s1]; cbn [snd] in *; auto.
  intros Hp. eapply R_trans; [exact Hm | apply Hk, Hp].
Qed.

Lemma guarded_then_publish_zero (m : M W unit) :
  guarded R okcmd m -> guarded R okcmd (m ;;; publish ctl Twist0).
Proof.
  intros Hm s. unfold bind. specialize (Hm s).
  destruct (m s) as [[[] | e |] s1]; cbn [fst snd] in *.
  - intros [Hz | Hne]; [| now contradiction Hne].
    eapply R_trans; [apply Hm; now left | apply R_publish, Hz].
  - intros _. apply Hm. right. discriminate.
  - intros _. apply Hm. right. discriminate.
Qed.

Lemma guarded_move_to_angle fuel goal :
  guarded R okcmd (_move_to_angle ctl fuel goal).
Proof.
  apply guarded_then_publish_zero, guarded_of_stepwise, stepwise_angle_loop.
Qed.

Lemma guarded_pose_loop fuel goal vel :
  guarded R okcmd (_move_to_pose_loop ctl fuel goal vel).
Proof.
  revert vel. induction fuel as [| fuel IH]; intros vel;
    cbn [_move_to_pose_loop];
    [apply guarded_of_stepwise, stepwise_out_of_fuel |].
  apply guarded_bind; [apply stepwise_is_collided | intros [|]];
    [apply guarded_of_stepwise, stepwise_ret |].
  apply guarded_bind; [apply stepwise_current_pose | intros current].
  apply guarded_bind; [apply stepwise_or_raise | intros rho].
  apply guarded_bind; [apply stepwise_or_raise | intros ang].
  destruct (Rlt_dec rho _MOVE_TOL_DIST) as [Hlt | Hge];
    [apply guarded_move_to_angle |].
  apply guarded_bind; [apply stepwise_publish, ok_pose_cmd, Hge | intros _].
  apply guarded_bind; [apply stepwise_sleep | intros _].
  apply IH.
Qed.

Lemma guarded_move_to_pose fuel goal :
  guarded R okcmd (_move_to_pose ctl fuel goal).
Proof. apply guarded_then_publish_zero, guarded_pose_loop. Qed.

(** With a final [Twist()] that [okcmd] accepts, [R] holds across every
    callback. *)
Hypothesis ok_zero : okcmd Twist0.

Lemma stepwise_of_guarded (m : M W unit) : guarded R okcmd m -> stepwise R m.
Proof. intros H s. apply H. now left. Qed.

Lemma stepwise_move_to_angle fuel goal :
  stepwise R (_move_to_angle ctl fuel goal).
Proof. apply stepwise_of_guarded, guarded_move_to_angle. Qed.

Lemma stepwise_move_to_pose fuel goal :
  stepwise R (_move_to_pose ctl fuel goal).
Proof. apply stepwise_of_guarded, guarded_move_to_pose. Qed.

Lemma stepwise_move_angle fuel data : stepwise R (move_angle ctl fuel data).
Proof.
  unfold move_angle.
  apply stepwise_bind; [apply stepwise_current_pose | intros current].
  apply stepwise_bind; [apply stepwise_or_raise | intros rel].
  apply stepwise_move_to_pose.
Qed.

Lemma stepwise_move_distance fuel data :
  stepwise R (move_distance ctl fuel data).
Proof.
  unfold move_distance.
  apply stepwise_bind; [apply stepwise_current_pose | intros current].
  apply stepwise_bind; [apply stepwise_or_raise | intros rel].
  apply stepwise_move_to_pose.
Qed.

Lemma stepwise_debug_move fuel data : stepwise R (_debug_move ctl fuel data).
Proof.
  unfold _debug_move.
  apply stepwise_bind; [apply stepwise_current_pose | intros pose_a].
  apply stepwise_bind; [apply stepwise_or_raise | intros has_rot_yaw].
  apply stepwise_bind; [apply stepwise_or_raise | intros rel].
  apply stepwise_bind; [apply stepwise_move_to_pose | intros _].
  apply stepwise_bind; [apply stepwise_current_pose | intros pose_b].
  apply stepwise_bind; [apply stepwise_or_raise | intros diff].
  apply stepwise_ret.
Qed.

Lemma stepwise_pose_list_tfs gt_mode poses tfs :
  stepwise R (pose_list_tfs ctl gt_mode poses tfs).
Proof.
  revert tfs. induction poses as [| p rest IH]; intros tfs;
    cbn [pose_list_tfs]; [apply stepwise_ret |].
  destruct (String.eqb p "initial_pose"); [apply IH |].
  apply stepwise_bind; [| intros v; apply IH].
  destruct gt_mode; [apply stepwise_tf_lookup | apply stepwise_get_noisy_pose].
Qed.

Lemma stepwise_create_pose_list : stepwise R (create_pose_list ctl).
Proof.
  unfold create_pose_list.
  apply stepwise_bind; [apply stepwise_define_initial_pose | intros _].
  apply stepwise_bind; [apply stepwise_pose_list_tfs | intros tfs].
  apply stepwise_bind; [| intros tfs'; apply stepwise_ret].
  destruct (existsb _ _); [| apply stepwise_ret].
  apply stepwise_bind; [apply stepwise_get_state | intros cs].
  apply stepwise_bind; [apply stepwise_or_raise | intros p].
  apply stepwise_ret.
Qed.

(** [R] holds across the assignments to the trajectory cursor and to
    the waypoint list. *)
Hypothesis R_set_next :
  forall s n, R s (set_state (set_trajectory_pose_next n (state s)) s).
Hypothesis R_set_poses :
  forall s l, R s (set_state (set_trajectory_poses l (state s)) s).

Lemma stepwise_move_next fuel : stepwise R (move_next ctl fuel).
Proof.
  unfold move_next.
  apply stepwise_bind; [apply stepwise_get_state | intros cs0].
  apply stepwise_bind.
  { destruct (trajectory_pose_next cs0); [apply stepwise_ret |].
    apply stepwise_bind; [intros s; apply R_set_next | intros _].
    apply stepwise_bind; [apply stepwise_get_state | intros cs].
    apply stepwise_bind; [apply stepwise_or_raise | intros env].
    apply stepwise_bind; [apply stepwise_or_raise | intros poses].
    intros s; apply R_set_poses. }
  intros _.
  apply stepwise_bind; [apply stepwise_get_state | intros cs].
  apply stepwise_bind; [apply stepwise_or_raise | intros poses].
  apply stepwise_bind; [apply stepwise_or_raise | intros next].
  apply stepwise_bind; [apply stepwise_or_raise | intros pose].
  apply stepwise_bind; [apply stepwise_or_raise | intros pv].
  apply stepwise_bind; [apply stepwise_or_raise | intros goal].
  apply stepwise_bind; [apply stepwise_move_to_pose | intros _].
  apply stepwise_bind; [apply stepwise_get_state | intros cs1].
  apply stepwise_bind; [apply stepwise_or_raise | intros next1].
  apply stepwise_bind; [intros s; apply R_set_next | intros _].
  apply stepwise_bind; [apply stepwise_get_state | intros cs2].
  apply stepwise_bind; [apply stepwise_or_raise | intros next2].
  apply stepwise_bind; [apply stepwise_or_raise | intros poses2].
  destruct (_ <=? _)%nat; [apply stepwise_logerr | apply stepwise_ret].
Qed.

End Stepwise.

(** ** The published stream of a move *)

Lemma published_between_refl {W} P (s : St W) : published_between P s s.
Proof. exists []. split; [now rewrite app_nil_r | constructor]. Qed.

Lemma published_between_trans {W} P (s1 s2 s3 : St W) :
  published_between P s1 s2 -> published_between P s2 s3 ->
  published_between P s1 s3.
Proof.
  intros (c1 & E1 & F1) (c2 & E2 & F2). exists (c1 ++ c2). split.
  - now rewrite E2, E1, app_assoc.
  - apply Forall_app; auto.
Qed.

Lemma published_between_same {W} P (s s' : St W) :
  published s' = published s -> published_between P s s'.
Proof. intros E. exists []. split; [now rewrite app_nil_r | constructor]. Qed.

Lemma published_between_publish {W} (ctl : Controller W) (P : Twist -> Prop)
    s msg :
  P msg -> published_between P s (after_publish ctl msg s).
Proof.
  intros H. exists [msg]. split; [reflexivity | now repeat constructor].
Qed.

Lemma angle_cmd_nonzero (sf err : R) vel :
  sf <> 0 -> ~ Rabs err < _MOVE_TOL_YAW ->
  set_angular_z (sf * _MOVE_ANGLE_K * err) vel <> Twist0.
Proof.
  intros Hsf Hge E. apply (f_equal (fun t => vz (angular t))) in E.
  cbn in E. unfold _MOVE_ANGLE_K in E.
  assert (He : err = 0) by nra.
  apply Hge. rewrite He, Rabs_R0. unfold _MOVE_TOL_YAW, deg2rad.
  pose proof PI_RGT_0. lra.
Qed.

Lemma pose_cmd_nonzero (sf : R) (backwards : bool) rho a vel :
  sf <> 0 -> ~ rho < _MOVE_TOL_DIST ->
  set_angular_z a
    (set_linear_x (sf * (if backwards then -1 else 1) * _MOVE_POSE_K_RHO * rho)
                  vel) <> Twist0.
Proof.
  intros Hsf Hge E. apply (f_equal (fun t => vx (linear t))) in E.
  cbn in E. unfold _MOVE_POSE_K_RHO in E. unfold _MOVE_TOL_DIST in Hge.
  destruct backwards; nra.
Qed.

Ltac published_between_laws ctl :=
  first
    [ exact (published_between_refl _)
    | exact (published_between_trans _)
    | intros; apply published_between_same; reflexivity
    | intros; apply (published_between_publish ctl); assumption ].

Lemma move_to_angle_grows {W} (ctl : Controller W) fuel goal vel s :
  published_between (fun _ => True) s
    (snd (_move_to_angle_loop ctl fuel goal vel s)).
Proof.
  apply (stepwise_angle_loop ctl (published_between (fun _ => True)))
    with (okcmd := fun _ => True); try published_between_laws ctl; auto.
Qed.

Lemma move_to_pose_grows {W} (ctl : Controller W) fuel goal vel s :
  published_between (fun _ => True) s
    (snd (_move_to_pose_loop ctl fuel goal vel s)).
Proof.
  apply (guarded_pose_loop ctl (published_between (fun _ => True)))
    with (okcmd := fun _ => True); try published_between_laws ctl; auto.
Qed.

Lemma move_to_angle_raise_nonzero {W} (ctl : Controller W) fuel goal s :
  _move_speed_factor ctl <> 0 ->
  fst (_move_to_angle ctl fuel goal s) <> Ok tt ->
  published_between (fun c => c <> Twist0) s
    (snd (_move_to_angle ctl fuel goal s)).
Proof.
  intros Hsf Hr.
  apply (guarded_move_to_angle ctl (published_between (fun c => c <> Twist0)))
    with (okcmd := fun c => c <> Twist0); try published_between_laws ctl.
  - intros. now apply angle_cmd_nonzero.
  - now right.
Qed.

Lemma move_to_pose_raise_nonzero {W} (ctl : Controller W) fuel goal s :
  _move_speed_factor ctl <> 0 ->
  fst (_move_to_pose ctl fuel goal s) <> Ok tt ->
  published_between (fun c => c <> Twist0) s
    (snd (_move_to_pose ctl fuel goal s)).
Proof.
  intros Hsf Hr.
  apply (guarded_move_to_pose ctl (published_between (fun c => c <> Twist0)))
    with (okcmd := fun c => c <> Twist0); try published_between_laws ctl.
  - intros. now apply angle_cmd_nonzero.
  - intros. now apply pose_cmd_nonzero.
  - now right.
Qed.

(** C1, as the code has it: a move that returns has published [Twist()]
    last; a move that raises (a transform lookup failing inside the loop,
    for one) has published no [Twist()] at all when the speed factor is
    not zero, only the commands of its loop body. *)
Theorem C1_final_zero_when_the_move_returns
    {W} (ctl : Controller W) (fuel : nat) (goal : Mat4) (s : St W) :
  (forall s', _move_to_pose ctl fuel goal s = (Ok tt, s') ->
     exists cmds, published s' = published s ++ cmds ++ [Twist0]) /\
  (forall s', _move_to_angle ctl fuel goal s = (Ok tt, s') ->
     exists cmds, published s' = published s ++ cmds ++ [Twist0]) /\
  (_move_speed_factor ctl <> 0 ->
   forall e s', _move_to_pose ctl fuel goal s = (Raise e, s') ->
     exists cmds, published s' = published s ++ cmds /\
                  Forall (fun c => c <> Twist0) cmds) /\
  (_move_speed_factor ctl <> 0 ->
   forall e s', _move_to_angle ctl fuel goal s = (Raise e, s') ->
     exists cmds, published s' = published s ++ cmds /\
                  Forall (fun c => c <> Twist0) cmds).
Proof.
  repeat split.
  - intros s' H. unfold _move_to_pose, bind in H.
    pose proof (move_to_pose_grows ctl fuel goal Twist0 s) as (cmds & E & _).
    destruct (_move_to_pose_loop ctl fuel goal Twist0 s) as [[[] | e |] s1];
      try discriminate.
    cbn [snd] in E. injection H as <-. exists cmds.
    cbn [published]. now rewrite E, app_assoc.
  - intros s' H. unfold _move_to_angle, bind in H.
    pose proof (move_to_angle_grows ctl fuel goal Twist0 s) as (cmds & E & _).
    destruct (_move_to_angle_loop ctl fuel goal Twist0 s) as [[[] | e |] s1];
      try discriminate.
    cbn [snd] in E. injection H as <-. exists cmds.
    cbn [published]. now rewrite E, app_assoc.
  - intros Hsf e s' H.
    pose proof (move_to_pose_raise_nonzero ctl fuel goal s Hsf) as Hn.
    rewrite H in Hn. apply Hn. discriminate.
  - intros Hsf e s' H.
    pose proof (move_to_angle_raise_nonzero ctl fuel goal s Hsf) as Hn.
    rewrite H in Hn. apply Hn. discriminate.
Qed.

(** ** The pose estimate in a scripted world *)

Lemma scripted_current_pose_gt collide tf cfg s p :
  str_contains "ground_truth" (task_name cfg) = true ->
  tf (world s) (robot_global_frame cfg) (robot_robot_frame cfg) = Some p ->
  _current_pose (scripted collide never tf cfg) s = (Ok p, memoized p s).
Proof.
  intros Hgt Htf. destruct s as [t [ip nx ps env] pub lg].
  unfold _current_pose, _define_initial_pose, memoized.
  cbn [config scripted state initial_pose_tf_mat world] in *.
  rewrite Hgt.
  unfold bind, instance_is_dirty, get_state, tf_lookup, modify_state,
    set_world, set_state, ret.
  cbn [is_dirty lookup_transform scripted never negb world state published
       logged initial_pose_tf_mat config robot_global_frame robot_robot_frame].
  destruct ip as [ip |]; cbn; rewrite Htf; cbn; rewrite ?Htf; reflexivity.
Qed.

Lemma scripted_current_pose_gt_lost collide tf cfg s :
  str_contains "ground_truth" (task_name cfg) = true ->
  tf (world s) (robot_global_frame cfg) (robot_robot_frame cfg) = None ->
  _current_pose (scripted collide never tf cfg) s = (Raise LookupException, s).
Proof.
  intros Hgt Htf. destruct s as [t [ip nx ps env] pub lg].
  unfold _current_pose, _define_initial_pose.
  cbn [config scripted state initial_pose_tf_mat world] in *.
  rewrite Hgt.
  unfold bind, instance_is_dirty, get_state, tf_lookup, modify_state,
    set_world, set_state, ret.
  cbn [is_dirty lookup_transform scripted never negb world state published
       logged initial_pose_tf_mat config robot_global_frame robot_robot_frame].
  destruct ip as [ip |]; cbn; rewrite Htf; cbn; rewrite ?Htf; reflexivity.
Qed.

(** ** Pose algebra at the identity *)

Lemma tr_b_wrt_a_eye4 (g : Mat4) : __tr_b_wrt_a eye4 g = Some g.
Proof.
  destruct g as [[g00 g01 g02 g10 g11 g12 g20 g21 g22] [gx gy gz]].
  unfold eye4, eye3. eval_inv.
  unfold matmul, mat3_mul, mat3_vec, mat3_scale, adj3, vec3_add, vec3_opp,
    zero3.
  cbn [rot trans m00 m01 m02 m10 m11 m12 m20 m21 m22 vx vy vz].
  f_equal. f_equal; f_equal; field; lra.
Qed.

Lemma dist_from_eye4 (g : Mat4) :
  __dist_from_a_to_b eye4 g = Some (norm2 (trans g)).
Proof. unfold __dist_from_a_to_b. now rewrite tr_b_wrt_a_eye4. Qed.

Lemma ang_wrt_eye4 (g : Mat4) :
  __ang_to_b_wrt_a eye4 g = Some (arctan2 (vy (trans g)) (vx (trans g))).
Proof. unfold __ang_to_b_wrt_a. now rewrite tr_b_wrt_a_eye4. Qed.

Lemma yaw_wrt_eye4 (g : Mat4) : __yaw_b_wrt_a eye4 g = Some (__yaw g).
Proof. unfold __yaw_b_wrt_a. now rewrite tr_b_wrt_a_eye4. Qed.

Lemma arctan2_pos_x (y x : R) : 0 < x -> arctan2 y x = atan (y / x).
Proof.
  intros H. unfold arctan2. destruct (Rlt_dec 0 x); [reflexivity | lra].
Qed.

Lemma arctan2_0_pos (x : R) : 0 < x -> arctan2 0 x = 0.
Proof.
  intros H. rewrite arctan2_pos_x by assumption.
  replace (0 / x) with 0 by (field; lra). apply atan_0.
Qed.

Lemma arctan2_0_neg (x : R) : x < 0 -> arctan2 0 x = PI.
Proof.
  intros H. unfold arctan2.
  destruct (Rlt_dec 0 x); [lra |].
  destruct (Rlt_dec x 0); [| lra].
  destruct (Rle_dec 0 0); [| lra].
  replace (0 / x) with 0 by (field; lra). rewrite atan_0. ring.
Qed.

Lemma yaw_eye3 (t : Vec3) : __yaw (mkMat4 eye3 t) = 0.
Proof.
  unfold __yaw, euler_XYZ_z, eye3; cbn [rot m00 m01].
  replace (- 0) with 0 by ring. apply arctan2_0_pos. lra.
Qed.

Lemma norm2_unit_x (z : R) : norm2 (mkVec3 1 0 z) = 1.
Proof.
  unfold norm2; cbn [vx vy].
  replace (1 * 1 + 0 * 0) with 1 by ring. apply sqrt_1.
Qed.

Lemma norm2_neg_unit_x (z : R) : norm2 (mkVec3 (-1) 0 z) = 1.
Proof.
  unfold norm2; cbn [vx vy].
  replace (-1 * -1 + 0 * 0) with 1 by ring. apply sqrt_1.
Qed.

Lemma norm2_zero (z : R) : norm2 (mkVec3 0 0 z) = 0.
Proof.
  unfold norm2; cbn [vx vy].
  replace (0 * 0 + 0 * 0) with 0 by ring. apply sqrt_0.
Qed.

Lemma tol_yaw_pos : 0 < _MOVE_TOL_YAW.
Proof. unfold _MOVE_TOL_YAW, deg2rad. pose proof PI_RGT_0. lra. Qed.

(** ** Collision on the first tick *)

(** C4, as the code has it: when the collision check is true the first
    time it is evaluated, the move publishes exactly one command,
    [Twist()], leaves [controller.state] alone and returns; it returns no
    value, so no outcome is reported. *)
Theorem C4_collision_on_first_tick
    {W} (ctl : Controller W) (fuel : nat) (goal : Mat4) (s : St W) (w1 : W) :
  is_collided ctl (world s) = (true, w1) ->
  exists s',
    _move_to_pose ctl (S fuel) goal s = (Ok tt, s') /\
    published s' = published s ++ [Twist0] /\
    state s' = state s /\
    world s' = on_publish ctl Twist0 w1.
Proof.
  intros H. exists (after_publish ctl Twist0 (set_world w1 s)).
  split; [| repeat split].
  apply move_to_pose_ok. now apply pose_loop_collided.
Qed.

(** The collision signal is up from the start. *)
Lemma C4_collision_on_first_tick_witness :
  exists s',
    _move_to_pose (scripted always never tf_origin cfg_ground_truth)
                  1 goal_ahead st_start = (Ok tt, s') /\
    published s' = published st_start ++ [Twist0] /\
    state s' = state st_start /\
    world s' = 0%nat.
Proof.
  apply (C4_collision_on_first_tick
           (scripted always never tf_origin cfg_ground_truth)
           0 goal_ahead st_start 0%nat).
  reflexivity.
Defined.

(** ** The pose estimator *)

Lemma keeps_initial_pose_refl {W} (s : St W) : keeps_initial_pose s s.
Proof. intros p H. exact H. Qed.

Lemma keeps_initial_pose_trans {W} (s1 s2 s3 : St W) :
  keeps_initial_pose s1 s2 -> keeps_initial_pose s2 s3 ->
  keeps_initial_pose s1 s3.
Proof. intros H1 H2 p H. apply H2, H1, H. Qed.

Ltac keeps_initial_pose_laws :=
  first
    [ exact keeps_initial_pose_refl
    | exact keeps_initial_pose_trans
    | exact I
    | intros; exact I
    | intros ? ? ? ? ?; cbn in *; congruence
    | intros ? ? ? ?; cbn in *; congruence ].

Lemma state_after_keeps_initial_pose {W} (ctl : Controller W) c s :
  keeps_initial_pose s (state_after ctl c s).
Proof.
  destruct c; cbn [state_after].
  - apply (stepwise_define_initial_pose ctl keeps_initial_pose);
      keeps_initial_pose_laws.
  - apply (stepwise_get_noisy_pose ctl keeps_initial_pose);
      keeps_initial_pose_laws.
  - apply (stepwise_current_pose ctl keeps_initial_pose);
      keeps_initial_pose_laws.
  - apply (stepwise_move_to_angle ctl keeps_initial_pose)
      with (okcmd := fun _ => True); keeps_initial_pose_laws.
  - apply (stepwise_move_to_pose ctl keeps_initial_pose)
      with (okcmd := fun _ => True); keeps_initial_pose_laws.
  - apply (stepwise_create_pose_list ctl keeps_initial_pose);
      keeps_initial_pose_laws.
  - apply (stepwise_debug_move ctl keeps_initial_pose)
      with (okcmd := fun _ => True); keeps_initial_pose_laws.
  - apply (stepwise_move_angle ctl keeps_initial_pose)
      with (okcmd := fun _ => True); keeps_initial_pose_laws.
  - apply (stepwise_move_distance ctl keeps_initial_pose)
      with (okcmd := fun _ => True); keeps_initial_pose_laws.
  - apply (stepwise_move_next ctl keeps_initial_pose)
      with (okcmd := fun _ => True); keeps_initial_pose_laws.
  - intros p H. exact H.
Qed.

Lemma state_after_all_keeps_initial_pose {W} (ctl : Controller W) cs s :
  keeps_initial_pose s (state_after_all ctl cs s).
Proof.
  revert s. induction cs as [| c cs IH]; intros s; cbn.
  - apply keeps_initial_pose_refl.
  - eapply keeps_initial_pose_trans;
      [apply state_after_keeps_initial_pose | apply IH].
Qed.

Section Estimator.

Context {W : Type}.
Variable ctl : Controller W.

Lemma define_initial_pose_memoized s dirty w1 p :
  is_dirty ctl (world s) = (dirty, w1) ->
  initial_pose_tf_mat (state s) = Some p ->
  _define_initial_pose ctl s = (Ok tt, set_world w1 s).
Proof.
  intros Hd Hp. unfold _define_initial_pose, bind, instance_is_dirty, get_state.
  rewrite Hd. cbn [state set_world]. rewrite Hp.
  now destruct (negb dirty).
Qed.

Lemma define_initial_pose_dirty s w1 :
  is_dirty ctl (world s) = (true, w1) ->
  _define_initial_pose ctl s = (Ok tt, set_world w1 s).
Proof.
  intros Hd. unfold _define_initial_pose, bind, instance_is_dirty, get_state.
  now rewrite Hd.
Qed.

Lemma define_initial_pose_capture s w1 p w2 :
  is_dirty ctl (world s) = (false, w1) ->
  initial_pose_tf_mat (state s) = None ->
  lookup_transform ctl (robot_global_frame (config ctl))
    (robot_robot_frame (config ctl)) w1 = (Some p, w2) ->
  _define_initial_pose ctl s =
  (Ok tt, set_state (set_initial_pose_tf_mat p (state s)) (set_world w2 s)).
Proof.
  intros Hd Hn Hl.
  unfold _define_initial_pose, bind, instance_is_dirty, get_state, tf_lookup.
  rewrite Hd. unfold set_world. cbn [state negb world]. rewrite Hn.
  cbn [world]. rewrite Hl. reflexivity.
Qed.

Lemma current_pose_ground_truth s s1 p w2 :
  str_contains "ground_truth" (task_name (config ctl)) = true ->
  _define_initial_pose ctl s = (Ok tt, s1) ->
  lookup_transform ctl (robot_global_frame (config ctl))
    (robot_robot_frame (config ctl)) (world s1) = (Some p, w2) ->
  _current_pose ctl s = (Ok p, set_world w2 s1).
Proof.
  intros Hm Hd Hl. unfold _current_pose.
  rewrite (bind_ok _ _ _ _ _ Hd), Hm. unfold tf_lookup.
  now rewrite Hl.
Qed.

Lemma current_pose_noisy s s1 init o w2 :
  str_contains "ground_truth" (task_name (config ctl)) = false ->
  _define_initial_pose ctl s = (Ok tt, s1) ->
  initial_pose_tf_mat (state s1) = Some init ->
  lookup_transform ctl "odom" (robot_robot_frame (config ctl)) (world s1)
    = (Some o, w2) ->
  _current_pose ctl s = (Ok (matmul init o), set_world w2 s1).
Proof.
  intros Hm Hd Hi Hl. unfold _current_pose.
  rewrite (bind_ok _ _ _ _ _ Hd), Hm.
  unfold _get_noisy_pose, bind, get_state. rewrite Hi. cbn [or_raise ret].
  unfold tf_lookup. now rewrite Hl.
Qed.

End Estimator.

(** C7: [_current_pose] answers with the global-to-robot lookup when the
    task is a ground-truth one and with the memoized initial pose composed
    with the odom-to-robot lookup otherwise; on a clean instance with no
    initial pose yet the first query memoizes the global-to-robot lookup,
    a later query looks nothing up for it, and no sequence of operations
    changes a memoized initial pose. *)
Theorem C7_current_pose_and_initial_pose {W} (ctl : Controller W) (s : St W) :
  (forall s1 p w2,
     str_contains "ground_truth" (task_name (config ctl)) = true ->
     _define_initial_pose ctl s = (Ok tt, s1) ->
     lookup_transform ctl (robot_global_frame (config ctl))
       (robot_robot_frame (config ctl)) (world s1) = (Some p, w2) ->
     _current_pose ctl s = (Ok p, set_world w2 s1)) /\
  (forall s1 init o w2,
     str_contains "ground_truth" (task_name (config ctl)) = false ->
     _define_initial_pose ctl s = (Ok tt, s1) ->
     initial_pose_tf_mat (state s1) = Some init ->
     lookup_transform ctl "odom" (robot_robot_frame (config ctl)) (world s1)
       = (Some o, w2) ->
     _current_pose ctl s = (Ok (matmul init o), set_world w2 s1)) /\
  (forall w1 p w2,
     is_dirty ctl (world s) = (false, w1) ->
     initial_pose_tf_mat (state s) = None ->
     lookup_transform ctl (robot_global_frame (config ctl))
       (robot_robot_frame (config ctl)) w1 = (Some p, w2) ->
     _define_initial_pose ctl s =
     (Ok tt,
      set_state (set_initial_pose_tf_mat p (state s)) (set_world w2 s))) /\
  (forall dirty w1 p,
     is_dirty ctl (world s) = (dirty, w1) ->
     initial_pose_tf_mat (state s) = Some p ->
     _define_initial_pose ctl s = (Ok tt, set_world w1 s)) /\
  (forall p cs,
     initial_pose_tf_mat (state s) = Some p ->
     initial_pose_tf_mat (state (state_after_all ctl cs s)) = Some p).
Proof.
  split; [| split; [| split; [| split]]].
  - intros s1 p w2. apply current_pose_ground_truth.
  - intros s1 init o w2. apply current_pose_noisy.
  - intros w1 p w2. apply define_initial_pose_capture.
  - intros dirty w1 p. apply define_initial_pose_memoized.
  - intros p cs H. now apply (state_after_all_keeps_initial_pose ctl cs s).
Qed.

(** ** The control laws *)


(** C5, as the code has it: on a tick of the drive loop that is not
    terminal, [rho], [alpha] and [beta] are as stated and the published
    command is the stated one when the goal is not behind the robot; when
    it is, the command is formed from [wrap (alpha + pi)] and
    [wrap (beta + pi)] in place of [alpha] and [beta]. *)
Theorem C5_drive_tick
    {W} (ctl : Controller W) (fuel : nat) (goal : Mat4) (vel_msg : Twist)
    (s : St W) (w1 : W) (current : Mat4) (s2 : St W) (rho ang : R) :
  is_collided ctl (world s) = (false, w1) ->
  _current_pose ctl (set_world w1 s) = (Ok current, s2) ->
  __dist_from_a_to_b current goal = Some rho ->
  __ang_to_b_wrt_a current goal = Some ang ->
  ~ rho < _MOVE_TOL_DIST ->
  let alpha := __pi_wrap (__ang_to_b current goal - __yaw current) in
  let beta := __pi_wrap (__yaw goal - __ang_to_b current goal) in
  exists cmd,
    _move_to_pose_loop ctl (S fuel) goal vel_msg s =
    _move_to_pose_loop ctl fuel goal cmd (after_tick ctl cmd s2) /\
    (~ Rabs ang > PI / 2 ->
     vx (linear cmd) = _move_speed_factor ctl * 1 * (7 / 10) * rho /\
     vz (angular cmd) =
       _move_speed_factor ctl * (75 / 10 * alpha + - 3 * beta)) /\
    (Rabs ang > PI / 2 ->
     vx (linear cmd) = _move_speed_factor ctl * -1 * (7 / 10) * rho /\
     vz (angular cmd) =
       _move_speed_factor ctl *
       (75 / 10 * __pi_wrap (alpha + PI) + - 3 * __pi_wrap (beta + PI))).
Proof.
  intros Hc Hp Hr Ha Hge alpha beta.
  eexists. split;
    [apply (pose_loop_step ctl fuel goal vel_msg s w1 current s2 rho ang);
     assumption |].
  cbn [set_angular_z set_linear_x linear angular vx vz].
  destruct (Rgt_dec (Rabs ang) (PI / 2)) as [Hb | Hf]; split; intros H;
    try contradiction; split; reflexivity.
Qed.

(** C6, as the code has it: on a tick of the drive loop with the goal
    behind the robot and [rho] not below the distance tolerance, the
    published command is the reverse one, formed from [wrap (alpha + pi)]
    and [wrap (beta + pi)], and its linear velocity is negative when the
    speed factor is positive. *)
Theorem C6_reverse_tick
    {W} (ctl : Controller W) (fuel : nat) (goal : Mat4) (vel_msg : Twist)
    (s : St W) (w1 : W) (current : Mat4) (s2 : St W) (rho ang : R) :
  is_collided ctl (world s) = (false, w1) ->
  _current_pose ctl (set_world w1 s) = (Ok current, s2) ->
  __dist_from_a_to_b current goal = Some rho ->
  __ang_to_b_wrt_a current goal = Some ang ->
  Rabs ang > PI / 2 ->
  ~ rho < _MOVE_TOL_DIST ->
  0 < _move_speed_factor ctl ->
  exists cmd,
    _move_to_pose_loop ctl (S fuel) goal vel_msg s =
    _move_to_pose_loop ctl fuel goal cmd (after_tick ctl cmd s2) /\
    vx (linear cmd) = _move_speed_factor ctl * -1 * _MOVE_POSE_K_RHO * rho /\
    vz (angular cmd) =
      _move_speed_factor ctl *
      (_MOVE_POSE_K_ALPHA * __pi_wrap (alpha_of current goal + PI) +
       _MOVE_POSE_K_BETA * __pi_wrap (beta_of current goal + PI)) /\
    vx (linear cmd) < 0.
Proof.
  intros Hc Hp Hr Ha Hb Hge Hsf.
  eexists. split;
    [apply (pose_loop_step ctl fuel goal vel_msg s w1 current s2 rho ang);
     assumption |].
  cbn [set_angular_z set_linear_x linear angular vx vz].
  destruct (Rgt_dec (Rabs ang) (PI / 2)) as [_ | Hf]; [| contradiction].
  repeat split.
  unfold _MOVE_POSE_K_RHO. unfold _MOVE_TOL_DIST in Hge. nra.
Qed.

(** ** Runs in scripted worlds *)

Lemma speed_factor_default collide dirty tf :
  _move_speed_factor (scripted collide dirty tf cfg_ground_truth) = 1.
Proof. reflexivity. Qed.

Lemma Rabs_PI_behind : Rabs PI > PI / 2.
Proof.
  pose proof PI_RGT_0. rewrite Rabs_right; lra.
Qed.

Lemma bearing_ahead : __ang_to_b eye4 goal_ahead = 0.
Proof.
  unfold __ang_to_b, eye4, goal_ahead, zero3; cbn [trans vx vy].
  replace (0 - 0) with 0 by ring. apply arctan2_0_pos. lra.
Qed.

Lemma bearing_behind : __ang_to_b eye4 goal_behind = PI.
Proof.
  unfold __ang_to_b, eye4, goal_behind, zero3; cbn [trans vx vy].
  replace (0 - 0) with 0 by ring. apply arctan2_0_neg. lra.
Qed.

Lemma pi_wrap_0 : __pi_wrap 0 = 0.
Proof. apply pi_wrap_fixed. pose proof PI_RGT_0. lra. Qed.

Lemma alpha_ahead : alpha_of eye4 goal_ahead = 0.
Proof.
  unfold alpha_of. rewrite bearing_ahead. unfold eye4. rewrite yaw_eye3.
  replace (0 - 0) with 0 by ring. apply pi_wrap_0.
Qed.

Lemma beta_ahead : beta_of eye4 goal_ahead = 0.
Proof.
  unfold beta_of. rewrite bearing_ahead. unfold goal_ahead. rewrite yaw_eye3.
  replace (0 - 0) with 0 by ring. apply pi_wrap_0.
Qed.

Lemma alpha_behind : alpha_of eye4 goal_behind = - PI.
Proof.
  unfold alpha_of. rewrite bearing_behind. unfold eye4. rewrite yaw_eye3.
  replace (PI - 0) with PI by ring. apply pi_wrap_PI.
Qed.

Lemma beta_behind : beta_of eye4 goal_behind = - PI.
Proof.
  unfold beta_of. rewrite bearing_behind. unfold goal_behind. rewrite yaw_eye3.
  replace (0 - PI) with (- PI) by ring.
  apply pi_wrap_fixed. pose proof PI_RGT_0. lra.
Qed.

Lemma pi_wrap_back_to_0 : __pi_wrap (- PI + PI) = 0.
Proof. replace (- PI + PI) with 0 by ring. apply pi_wrap_0. Qed.

(** A collision signal that is already up: one [Twist()], nothing else. *)
Lemma run_blocked :
  _move_to_pose (scripted always never tf_origin cfg_ground_truth)
                1 goal_ahead st_start =
  (Ok tt, mkSt 0%nat (state st_start) [Twist0] []).
Proof.
  rewrite (move_to_pose_ok _ 1 goal_ahead st_start (set_world 0%nat st_start));
    [reflexivity |].
  now apply pose_loop_collided.
Qed.

(** A robot at the origin within the distance tolerance of a goal that
    has the orientation of the map: the drive loop hands over to the
    orientation loop at once, which finds no error; each publishes its
    final [Twist()]. *)
Lemma run_within_tolerance (t : Vec3) :
  norm2 t < _MOVE_TOL_DIST ->
  _move_to_pose (scripted never never tf_origin cfg_ground_truth)
                2 (mkMat4 eye3 t) st_start =
  (Ok tt, st_memo 0 [Twist0; Twist0]).
Proof.
  intros Hnear.
  set (ctl := scripted never never tf_origin cfg_ground_truth).
  set (goal := mkMat4 eye3 t).
  assert (Hcur0 : _current_pose ctl (set_world 0%nat st_start)
                  = (Ok eye4, st_memo 0 []))
    by (apply (scripted_current_pose_gt never tf_origin cfg_ground_truth);
        reflexivity).
  assert (Hcur1 : _current_pose ctl (set_world 0%nat (st_memo 0 []))
                  = (Ok eye4, st_memo 0 []))
    by (apply (scripted_current_pose_gt never tf_origin cfg_ground_truth);
        reflexivity).
  assert (Hangle : _move_to_angle ctl 1 goal (st_memo 0 []) =
                   (Ok tt, after_publish ctl Twist0 (st_memo 0 []))).
  { apply move_to_angle_ok.
    apply (angle_loop_converged ctl 0 goal Twist0 (st_memo 0 []) 0%nat eye4
             (st_memo 0 []) 0); [reflexivity | exact Hcur1 | |].
    - rewrite yaw_wrt_eye4. f_equal. apply yaw_eye3.
    - rewrite Rabs_R0. apply tol_yaw_pos. }
  assert (Hloop : _move_to_pose_loop ctl 2 goal Twist0 st_start =
                  (Ok tt, after_publish ctl Twist0 (st_memo 0 []))).
  { rewrite (pose_loop_near ctl 1 goal Twist0 st_start 0%nat eye4
               (st_memo 0 []) (norm2 t) (arctan2 (vy t) (vx t)));
      [exact Hangle | reflexivity | exact Hcur0 | | | exact Hnear].
    - apply dist_from_eye4.
    - apply ang_wrt_eye4. }
  rewrite (move_to_pose_ok ctl _ _ _ _ Hloop). reflexivity.
Qed.

Lemma norm2_close_behind : norm2 (trans goal_close_behind) = 1 / 200.
Proof.
  unfold goal_close_behind, norm2; cbn [trans vx vy].
  replace (- (1 / 200) * - (1 / 200) + 0 * 0) with ((1 / 200) * (1 / 200))
    by ring.
  apply sqrt_square. lra.
Qed.

Lemma first_tick_ahead collide tf fuel :
  collide 0%nat = false ->
  tf 0%nat "map"%string "base_link"%string = Some eye4 ->
  _move_to_pose_loop (scripted collide never tf cfg_ground_truth)
                     (S fuel) goal_ahead Twist0 st_start =
  _move_to_pose_loop (scripted collide never tf cfg_ground_truth)
                     fuel goal_ahead cmd_ahead (st_memo 1 [cmd_ahead]).
Proof.
  intros Hc Htf.
  set (ctl := scripted collide never tf cfg_ground_truth).
  assert (Hcur : _current_pose ctl (set_world 0%nat st_start)
                 = (Ok eye4, st_memo 0 []))
    by (apply (scripted_current_pose_gt collide tf cfg_ground_truth);
        [reflexivity | exact Htf]).
  rewrite (pose_loop_step ctl fuel goal_ahead Twist0 st_start 0%nat eye4
             (st_memo 0 []) 1 0).
  - fold (alpha_of eye4 goal_ahead) (beta_of eye4 goal_ahead).
    rewrite alpha_ahead, beta_ahead.
    destruct (Rgt_dec (Rabs 0) (PI / 2)) as [Hb | _].
    { rewrite Rabs_R0 in Hb. pose proof PI_RGT_0. lra. }
    assert (Hcmd :
      set_angular_z
        (_move_speed_factor ctl *
         (_MOVE_POSE_K_ALPHA * 0 + _MOVE_POSE_K_BETA * 0))
        (set_linear_x (_move_speed_factor ctl * 1 * _MOVE_POSE_K_RHO * 1)
                      Twist0) = cmd_ahead).
    { unfold cmd_ahead, set_angular_z, set_linear_x, Twist0, zero3,
        _MOVE_POSE_K_ALPHA, _MOVE_POSE_K_BETA, _MOVE_POSE_K_RHO.
      cbn [linear angular vx vy vz]. subst ctl.
      rewrite speed_factor_default. f_equal; f_equal; lra. }
    rewrite Hcmd. reflexivity.
  - cbn. now rewrite Hc.
  - exact Hcur.
  - rewrite dist_from_eye4. f_equal. apply norm2_unit_x.
  - rewrite ang_wrt_eye4. f_equal. apply arctan2_0_pos. cbn. lra.
  - unfold _MOVE_TOL_DIST. lra.
Qed.

Lemma first_tick_behind collide tf fuel :
  collide 0%nat = false ->
  tf 0%nat "map"%string "base_link"%string = Some eye4 ->
  _move_to_pose_loop (scripted collide never tf cfg_ground_truth)
                     (S fuel) goal_behind Twist0 st_start =
  _move_to_pose_loop (scripted collide never tf cfg_ground_truth)
                     fuel goal_behind cmd_behind (st_memo 1 [cmd_behind]).
Proof.
  intros Hc Htf.
  set (ctl := scripted collide never tf cfg_ground_truth).
  assert (Hcur : _current_pose ctl (set_world 0%nat st_start)
                 = (Ok eye4, st_memo 0 []))
    by (apply (scripted_current_pose_gt collide tf cfg_ground_truth);
        [reflexivity | exact Htf]).
  rewrite (pose_loop_step ctl fuel goal_behind Twist0 st_start 0%nat eye4
             (st_memo 0 []) 1 PI).
  - fold (alpha_of eye4 goal_behind) (beta_of eye4 goal_behind).
    rewrite alpha_behind, beta_behind.
    destruct (Rgt_dec (Rabs PI) (PI / 2)) as [_ | Hf];
      [| contradiction Hf; apply Rabs_PI_behind].
    rewrite pi_wrap_back_to_0.
    assert (Hcmd :
      set_angular_z
        (_move_speed_factor ctl *
         (_MOVE_POSE_K_ALPHA * 0 + _MOVE_POSE_K_BETA * 0))
        (set_linear_x (_move_speed_factor ctl * -1 * _MOVE_POSE_K_RHO * 1)
                      Twist0) = cmd_behind).
    { unfold cmd_behind, set_angular_z, set_linear_x, Twist0, zero3,
        _MOVE_POSE_K_ALPHA, _MOVE_POSE_K_BETA, _MOVE_POSE_K_RHO.
      cbn [linear angular vx vy vz]. subst ctl.
      rewrite speed_factor_default. f_equal; f_equal; lra. }
    rewrite Hcmd. reflexivity.
  - cbn. now rewrite Hc.
  - exact Hcur.
  - rewrite dist_from_eye4. f_equal. apply norm2_neg_unit_x.
  - rewrite ang_wrt_eye4. f_equal. apply arctan2_0_neg. cbn. lra.
  - unfold _MOVE_TOL_DIST. lra.
Qed.

(** One tick towards a goal straight ahead, then the transform tree is
    gone: the lookup error leaves the move with 0.7 still commanded. *)
Lemma run_lost :
  _move_to_pose (scripted never never tf_lost cfg_ground_truth)
                2 goal_ahead st_start =
  (Raise LookupException, st_memo 1 [cmd_ahead]).
Proof.
  apply move_to_pose_raise.
  rewrite first_tick_ahead by reflexivity.
  apply (pose_loop_raise _ 0 goal_ahead cmd_ahead (st_memo 1 [cmd_ahead]) 1%nat);
    [reflexivity |].
  apply (scripted_current_pose_gt_lost never tf_lost cfg_ground_truth);
    reflexivity.
Qed.

(** One tick towards a goal straight behind, then a collision. *)
Lemma run_reverse :
  _move_to_pose (scripted (from_tick 1) never tf_origin cfg_ground_truth)
                2 goal_behind st_start =
  (Ok tt, st_memo 1 [cmd_behind; Twist0]).
Proof.
  rewrite (move_to_pose_ok _ 2 goal_behind st_start (st_memo 1 [cmd_behind]));
    [reflexivity |].
  rewrite first_tick_behind by reflexivity.
  now apply pose_loop_collided.
Qed.

(** ** The trajectory cursor *)

Lemma move_to_pose_same_trajectory {W} (ctl : Controller W) fuel goal s :
  same_trajectory s (snd (_move_to_pose ctl fuel goal s)).
Proof.
  apply (stepwise_move_to_pose ctl same_trajectory)
    with (okcmd := fun _ => True);
    unfold same_trajectory; auto;
    try (intros; cbn; split; reflexivity).
  intros s1 s2 s3 [A B] [C D]. split; congruence.
Qed.

Lemma move_next_initialised {W} (ctl : Controller W) fuel s k l :
  trajectory_at k l s ->
  move_next ctl fuel s =
  match nth_error l k with
  | None => (Raise IndexError, s)
  | Some pose =>
      match np_take pose [1; 2; 3; 0; 4; 5; 6]%nat with
      | None => (Raise IndexError, s)
      | Some pv =>
          match __pose_vector_to_tf_matrix pv with
          | None => (Raise ValueError, s)
          | Some goal =>
              match _move_to_pose ctl fuel goal s with
              | (Ok _, s1) => (Ok tt, advanced k l s1)
              | (Raise e, s1) => (Raise e, s1)
              | (OutOfFuel, s1) => (OutOfFuel, s1)
              end
          end
      end
  end.
Proof.
  intros [Hk Hl]. unfold move_next.
  unfold bind at 1, get_state at 1. rewrite Hk.
  unfold bind at 1, ret at 1.
  unfold bind at 1, get_state at 1. rewrite Hl, Hk. cbn [or_raise].
  unfold bind at 1, ret at 1. unfold bind at 1, ret at 1.
  destruct (nth_error l k) as [pose |]; cbn [or_raise]; [| reflexivity].
  unfold bind at 1, ret at 1.
  destruct (np_take pose _) as [pv |]; cbn [or_raise]; [| reflexivity].
  unfold bind at 1, ret at 1.
  destruct (__pose_vector_to_tf_matrix pv) as [goal |]; cbn [or_raise];
    [| reflexivity].
  unfold bind at 1, ret at 1. unfold bind at 1.
  pose proof (move_to_pose_same_trajectory ctl fuel goal s) as [Hk1 Hl1].
  destruct (_move_to_pose ctl fuel goal s) as [[[] | e |] s1];
    [| reflexivity | reflexivity].
  cbn [snd] in Hk1, Hl1. rewrite Hk in Hk1. rewrite Hl in Hl1.
  unfold bind, get_state, modify_state, advanced.
  rewrite Hk1. cbn. rewrite Hl1. cbn.
  destruct (List.length l <=? S k)%nat; reflexivity.
Qed.

Lemma move_next_first {W} (ctl : Controller W) fuel s env l :
  trajectory_pose_next (state s) = None ->
  selected_environment (state s) = Some env ->
  dict_get env (environments (config ctl)) = Some l ->
  move_next ctl fuel s =
  move_next ctl fuel
    (set_state (set_trajectory_poses l
                  (set_trajectory_pose_next 0 (state s))) s).
Proof.
  intros Hn He Hd. unfold move_next at 1.
  unfold bind at 1, get_state at 1. rewrite Hn.
  unfold bind at 1. unfold bind at 1, modify_state at 1.
  unfold bind at 1, get_state at 1. cbn [state set_state selected_environment
    set_trajectory_pose_next]. rewrite He. cbn [or_raise].
  unfold bind at 1, ret at 1. rewrite Hd. cbn [or_raise].
  unfold bind at 1, ret at 1. unfold modify_state at 1.
  cbn [state set_state].
  set (s0 := set_state _ _).
  assert (H0 : trajectory_at 0 l s0) by (split; reflexivity).
  rewrite (move_next_initialised ctl fuel s0 0 l H0).
  destruct H0 as [Hk Hl].
  unfold bind at 1, get_state at 1. rewrite Hl, Hk. cbn [or_raise].
  unfold bind at 1, ret at 1. unfold bind at 1, ret at 1.
  destruct (nth_error l 0) as [pose |]; cbn [or_raise]; [| reflexivity].
  unfold bind at 1, ret at 1.
  destruct (np_take pose _) as [pv |]; cbn [or_raise]; [| reflexivity].
  unfold bind at 1, ret at 1.
  destruct (__pose_vector_to_tf_matrix pv) as [goal |]; cbn [or_raise];
    [| reflexivity].
  unfold bind at 1, ret at 1. unfold bind at 1.
  pose proof (move_to_pose_same_trajectory ctl fuel goal s0) as [Hk1 Hl1].
  destruct (_move_to_pose ctl fuel goal s0) as [[[] | e |] s1];
    [| reflexivity | reflexivity].
  cbn [snd] in Hk1, Hl1. rewrite Hk in Hk1. rewrite Hl in Hl1.
  unfold bind, get_state, modify_state, advanced.
  rewrite Hk1. cbn. rewrite Hl1. cbn.
  destruct (List.length l <=? 1)%nat; reflexivity.
Qed.

Lemma move_next_advances {W} (ctl : Controller W) fuel s s' k l :
  trajectory_at k l s ->
  move_next ctl fuel s = (Ok tt, s') ->
  trajectory_at (S k) l s' /\ (k < List.length l)%nat.
Proof.
  intros Ht H. rewrite (move_next_initialised ctl fuel s k l Ht) in H.
  destruct (nth_error l k) as [pose |] eqn:En; [| discriminate].
  destruct (np_take pose _) as [pv |]; [| discriminate].
  destruct (__pose_vector_to_tf_matrix pv) as [goal |]; [| discriminate].
  pose proof (move_to_pose_same_trajectory ctl fuel goal s) as [Hk1 Hl1].
  destruct (_move_to_pose ctl fuel goal s) as [[[] | e |] s1];
    try discriminate.
  injection H as <-. destruct Ht as [Hk Hl].
  cbn [snd] in Hk1, Hl1. rewrite Hk in Hk1. rewrite Hl in Hl1.
  split.
  - unfold advanced, trajectory_at.
    destruct (List.length l <=? S k)%nat; cbn; auto.
  - apply nth_error_Some. congruence.
Qed.

Lemma move_next_exhausted {W} (ctl : Controller W) fuel s k l :
  trajectory_at k l s ->
  (List.length l <= k)%nat ->
  move_next ctl fuel s = (Raise IndexError, s).
Proof.
  intros Ht Hle. rewrite (move_next_initialised ctl fuel s k l Ht).
  apply nth_error_None in Hle. now rewrite Hle.
Qed.

Lemma move_next_calls_advance {W} (ctl : Controller W) fuels :
  forall k l s s',
    trajectory_at k l s ->
    move_next_calls ctl fuels s = (Ok tt, s') ->
    trajectory_at (k + List.length fuels) l s' /\
    (fuels <> [] -> (k + List.length fuels <= List.length l)%nat).
Proof.
  induction fuels as [| fuel rest IH]; intros k l s s' Ht H.
  - cbn in H. injection H as <-. rewrite Nat.add_0_r.
    split; [exact Ht | congruence].
  - cbn [move_next_calls] in H. unfold bind in H.
    destruct (move_next ctl fuel s) as [[[] | e |] s1] eqn:E;
      try discriminate.
    destruct (move_next_advances ctl fuel s s1 k l Ht E) as [Ht1 Hlt].
    destruct (IH (S k) l s1 s' Ht1 H) as [Ht' Hle].
    cbn [List.length]. rewrite Nat.add_succ_r. split; [exact Ht' |].
    intros _. destruct rest as [| f r].
    + cbn [List.length] in *. lia.
    + apply Hle. discriminate.
Qed.

(** C2, as the code has it: from a fresh session the calls of
    [move_next] that return leave the cursor at their number, which
    cannot exceed the length of the waypoint list; with the cursor at or
    past the end, a further call changes nothing, publishes nothing and
    ends in an index error before the drive loop is entered. *)
Theorem C2_waypoint_cursor
    {W} (ctl : Controller W) (s : St W) (env : string) (l : list (list R)) :
  trajectory_pose_next (state s) = None ->
  selected_environment (state s) = Some env ->
  dict_get env (environments (config ctl)) = Some l ->
  (forall fuels s',
     fuels <> [] ->
     move_next_calls ctl fuels s = (Ok tt, s') ->
     trajectory_pose_next (state s') = Some (List.length fuels) /\
     trajectory_poses (state s') = Some l /\
     (List.length fuels <= List.length l)%nat) /\
  (forall s' k fuel,
     trajectory_pose_next (state s') = Some k ->
     trajectory_poses (state s') = Some l ->
     (List.length l <= k)%nat ->
     move_next ctl fuel s' = (Raise IndexError, s')).
Proof.
  intros Hn He Hd. split.
  - intros fuels s' Hne H. destruct fuels as [| fuel rest]; [congruence |].
    cbn [move_next_calls] in H. unfold bind in H.
    rewrite (move_next_first ctl fuel s env l Hn He Hd) in H.
    set (s0 := set_state _ s) in H.
    assert (H0 : trajectory_at 0 l s0) by (split; reflexivity).
    destruct (move_next_calls_advance ctl (fuel :: rest) 0 l s0 s' H0)
      as [[Hk Hl] Hle].
    { cbn [move_next_calls]. unfold bind. exact H. }
    cbn [Nat.add] in Hk, Hle. split; [exact Hk |]. split; [exact Hl |].
    apply Hle. discriminate.
  - intros s' k fuel Hk Hl Hle.
    apply (move_next_exhausted ctl fuel s' k l); [split |]; assumption.
Qed.

(** ** Three waypoints *)

Lemma set_world_same {W} (s : St W) : set_world (world s) s = s.
Proof. now destruct s. Qed.

Lemma pose_vector_origin :
  __pose_vector_to_tf_matrix [0; 0; 0; 1; 0; 0; 0] = Some eye4.
Proof.
  unfold __pose_vector_to_tf_matrix, quat_as_dcm. cbv zeta.
  destruct (Req_dec_T (0 * 0 + 0 * 0 + 0 * 0 + 1 * 1) 0) as [E | _];
    [exfalso; lra |].
  unfold eye4, eye3, zero3. f_equal. f_equal. f_equal; field; lra.
Qed.

Lemma move_to_pose_blocked tf goal (s : St nat) :
  _move_to_pose (scripted always never tf cfg_ground_truth) 1 goal s =
  (Ok tt, after_publish (scripted always never tf cfg_ground_truth) Twist0 s).
Proof.
  rewrite (move_to_pose_ok _ 1 goal s (set_world (world s) s));
    [now rewrite set_world_same |].
  now apply pose_loop_collided.
Qed.

Lemma move_next_blocked k pub lg :
  (k < 3)%nat ->
  move_next (scripted always never tf_origin cfg_ground_truth) 1
            (st_traj k pub lg) =
  (Ok tt,
   advanced k waypoints3
     (after_publish (scripted always never tf_origin cfg_ground_truth)
                    Twist0 (st_traj k pub lg))).
Proof.
  intros Hk.
  rewrite (move_next_initialised _ 1 (st_traj k pub lg) k waypoints3)
    by (split; reflexivity).
  assert (Hn : nth_error waypoints3 k = Some waypoint_origin).
  { destruct k as [| [| [| k]]]; try reflexivity. lia. }
  rewrite Hn. cbv beta iota.
  change (np_take waypoint_origin [1; 2; 3; 0; 4; 5; 6]%nat)
    with (Some [0; 0; 0; 1; 0; 0; 0]).
  cbv beta iota. rewrite pose_vector_origin. cbv beta iota.
  rewrite move_to_pose_blocked. reflexivity.
Qed.

Lemma move_next_calls_cons {W} (ctl : Controller W) fuel rest s s1 :
  move_next ctl fuel s = (Ok tt, s1) ->
  move_next_calls ctl (fuel :: rest) s = move_next_calls ctl rest s1.
Proof. intros H. cbn [move_next_calls]. now rewrite (bind_ok _ _ _ _ _ H). Qed.

(** Three calls on three waypoints, each move cut short by the collision
    signal: the cursor ends at 3 and the third call logs the exhaustion. *)
Lemma run_three_waypoints :
  move_next_calls (scripted always never tf_origin cfg_ground_truth)
                  [1; 1; 1]%nat st_start =
  (Ok tt, st_traj 3 [Twist0; Twist0; Twist0]
                  ["You have run out of trajectory poses!"%string]).
Proof.
  set (ctl := scripted always never tf_origin cfg_ground_truth).
  assert (H1 : move_next ctl 1 st_start = (Ok tt, st_traj 1 [Twist0] [])).
  { rewrite (move_next_first ctl 1 st_start "miniroom" waypoints3)
      by reflexivity.
    change (set_state _ st_start) with (st_traj 0 [] []).
    subst ctl. now rewrite move_next_blocked by lia. }
  assert (H2 : move_next ctl 1 (st_traj 1 [Twist0] [])
               = (Ok tt, st_traj 2 [Twist0; Twist0] [])).
  { subst ctl. now rewrite move_next_blocked by lia. }
  assert (H3 : move_next ctl 1 (st_traj 2 [Twist0; Twist0] [])
               = (Ok tt, st_traj 3 [Twist0; Twist0; Twist0]
                    ["You have run out of trajectory poses!"%string])).
  { subst ctl. now rewrite move_next_blocked by lia. }
  rewrite (move_next_calls_cons ctl _ _ _ _ H1).
  rewrite (move_next_calls_cons ctl _ _ _ _ H2).
  rewrite (move_next_calls_cons ctl _ _ _ _ H3).
  reflexivity.
Qed.

(** ** A tilted robot *)








(** ** Localization mode *)



(** ** The properties at concrete inputs *)

Lemma run_angle_blocked :
  _move_to_angle (scripted always never tf_origin cfg_ground_truth)
                 1 goal_ahead st_start =
  (Ok tt, mkSt 0%nat (state st_start) [Twist0] []).
Proof.
  rewrite (move_to_angle_ok _ 1 goal_ahead st_start (set_world 0%nat st_start));
    [reflexivity |].
  now apply angle_loop_collided.
Qed.

Lemma run_angle_lost :
  _move_to_angle (scripted never never tf_none cfg_ground_truth)
                 1 goal_ahead st_start =
  (Raise LookupException, st_start).
Proof.
  apply move_to_angle_raise.
  apply (angle_loop_raise _ 0 goal_ahead Twist0 st_start 0%nat);
    [reflexivity |].
  apply (scripted_current_pose_gt_lost never tf_none cfg_ground_truth);
    reflexivity.
Qed.

Lemma cmd_ahead_nonzero : cmd_ahead <> Twist0.
Proof.
  intros E. apply (f_equal (fun t => vx (linear t))) in E. cbn in E. lra.
Qed.

(** The four cases on scripted worlds: the orientation loop stopped by a
    collision, the drive loop standing on its goal, and each of the two
    loops losing the transform tree. *)
Lemma C1_final_zero_when_the_move_returns_witness :
  (exists cmds,
     [Twist0] = published st_start ++ cmds ++ [Twist0]) /\
  (exists cmds,
     published (st_memo 0 [Twist0; Twist0]) =
     published st_start ++ cmds ++ [Twist0]) /\
  (exists cmds,
     published (st_memo 1 [cmd_ahead]) = published st_start ++ cmds /\
     Forall (fun c => c <> Twist0) cmds) /\
  (exists cmds,
     published st_start = published st_start ++ cmds /\
     Forall (fun c => c <> Twist0) cmds).
Proof.
  split; [| split; [| split]].
  - destruct (C1_final_zero_when_the_move_returns
                (scripted always never tf_origin cfg_ground_truth)
                1 goal_ahead st_start) as (_ & Hangle & _).
    apply (Hangle (mkSt 0%nat (state st_start) [Twist0] [])).
    apply run_angle_blocked.
  - destruct (C1_final_zero_when_the_move_returns
                (scripted never never tf_origin cfg_ground_truth)
                2 (mkMat4 eye3 zero3) st_start) as (Hpose & _).
    apply (Hpose (st_memo 0 [Twist0; Twist0])).
    apply run_within_tolerance.
    unfold zero3. rewrite norm2_zero. unfold _MOVE_TOL_DIST. lra.
  - destruct (C1_final_zero_when_the_move_returns
                (scripted never never tf_lost cfg_ground_truth)
                2 goal_ahead st_start) as (_ & _ & Hraise & _).
    apply (Hraise ltac:(rewrite speed_factor_default; lra)
                  LookupException (st_memo 1 [cmd_ahead])).
    apply run_lost.
  - destruct (C1_final_zero_when_the_move_returns
                (scripted never never tf_none cfg_ground_truth)
                1 goal_ahead st_start) as (_ & _ & _ & Hraise).
    apply (Hraise ltac:(rewrite speed_factor_default; lra)
                  LookupException st_start).
    apply run_angle_lost.
Defined.

(** C1 as stated fails on the error path: the transform lookup fails on
    the second tick, the call raises, and the last (and only) command it
    has published is 0.7 forward; no [Twist()] follows it. *)
Lemma C1_lookup_failure_leaves_velocity :
  let run := _move_to_pose (scripted never never tf_lost cfg_ground_truth)
                           2 goal_ahead st_start in
  fst run = Raise LookupException /\
  published (snd run) = [cmd_ahead] /\
  ~ In Twist0 (published (snd run)).
Proof.
  cbv zeta. rewrite run_lost. cbn [fst snd st_memo published].
  repeat split. intros [E | []]. now apply cmd_ahead_nonzero.
Qed.

(** Three waypoints, each move cut short by the collision signal. *)
Lemma C2_waypoint_cursor_witness :
  (trajectory_pose_next
     (state (st_traj 3 [Twist0; Twist0; Twist0]
               ["You have run out of trajectory poses!"%string])) = Some 3%nat /\
   trajectory_poses
     (state (st_traj 3 [Twist0; Twist0; Twist0]
               ["You have run out of trajectory poses!"%string]))
   = Some waypoints3 /\
   (3 <= 3)%nat) /\
  move_next (scripted always never tf_origin cfg_ground_truth) 1
            (st_traj 3 [Twist0; Twist0; Twist0]
               ["You have run out of trajectory poses!"%string]) =
  (Raise IndexError,
   st_traj 3 [Twist0; Twist0; Twist0]
           ["You have run out of trajectory poses!"%string]).
Proof.
  destruct (C2_waypoint_cursor
              (scripted always never tf_origin cfg_ground_truth)
              st_start "miniroom" waypoints3
              eq_refl eq_refl eq_refl) as [Hcalls Hmore].
  split.
  - apply (Hcalls [1; 1; 1]%nat); [discriminate | apply run_three_waypoints].
  - apply (Hmore _ 3%nat 1%nat); [reflexivity | reflexivity | cbn; lia].
Defined.

(** C2 as stated fails on the call after the last waypoint: three calls
    on three waypoints return with the cursor at 3, and the fourth raises
    an index error instead of reporting an outcome. *)
Lemma C2_fourth_call_raises :
  let ctl := scripted always never tf_origin cfg_ground_truth in
  let after3 := move_next_calls ctl [1; 1; 1]%nat st_start in
  fst after3 = Ok tt /\
  trajectory_pose_next (state (snd after3)) = Some 3%nat /\
  fst (move_next ctl 1 (snd after3)) = Raise IndexError.
Proof.
  cbv zeta. rewrite run_three_waypoints. cbn [fst snd].
  split; [reflexivity |]. split; [reflexivity |].
  rewrite (move_next_exhausted _ 1 _ 3 waypoints3);
    [reflexivity | split; reflexivity | cbn; lia].
Qed.

(** C4 as stated fails on the outcome: the call cut short by a collision
    on its first tick returns the very value that a call reaching its
    goal without any collision returns, so no [collided] outcome is
    reported. *)
Lemma C4_no_collided_outcome :
  fst (_move_to_pose (scripted always never tf_origin cfg_ground_truth)
                     1 goal_ahead st_start) = Ok tt /\
  fst (_move_to_pose (scripted always never tf_origin cfg_ground_truth)
                     1 goal_ahead st_start) =
  fst (_move_to_pose (scripted never never tf_origin cfg_ground_truth)
                     2 eye4 st_start).
Proof.
  rewrite run_blocked. unfold eye4.
  rewrite run_within_tolerance; [split; reflexivity |].
  unfold zero3. rewrite norm2_zero. unfold _MOVE_TOL_DIST. lra.
Qed.

Lemma scripted_current_pose_start collide tf p :
  tf 0%nat "map"%string "base_link"%string = Some p ->
  _current_pose (scripted collide never tf cfg_ground_truth)
                (set_world 0%nat st_start) =
  (Ok p, mkSt 0%nat (mkState (Some p) None None (Some "miniroom"%string)) [] []).
Proof.
  intros H.
  now apply (scripted_current_pose_gt collide tf cfg_ground_truth).
Qed.

(** The first tick towards a goal one unit ahead of the robot. *)
Lemma C5_drive_tick_witness :
  let ctl := scripted never never tf_origin cfg_ground_truth in
  exists cmd,
    _move_to_pose_loop ctl 1 goal_ahead Twist0 st_start =
    _move_to_pose_loop ctl 0 goal_ahead cmd (after_tick ctl cmd (st_memo 0 [])) /\
    vx (linear cmd) = _move_speed_factor ctl * 1 * (7 / 10) * 1 /\
    vz (angular cmd) =
      _move_speed_factor ctl *
      (75 / 10 * __pi_wrap (__ang_to_b eye4 goal_ahead - __yaw eye4) +
       - 3 * __pi_wrap (__yaw goal_ahead - __ang_to_b eye4 goal_ahead)).
Proof.
  cbv zeta.
  destruct (C5_drive_tick (scripted never never tf_origin cfg_ground_truth)
              0 goal_ahead Twist0 st_start 0%nat eye4 (st_memo 0 []) 1 0)
    as (cmd & Hloop & Hfwd & _).
  - reflexivity.
  - now apply scripted_current_pose_start.
  - rewrite dist_from_eye4. f_equal. apply norm2_unit_x.
  - rewrite ang_wrt_eye4. f_equal. apply arctan2_0_pos. cbn. lra.
  - unfold _MOVE_TOL_DIST. lra.
  - exists cmd. split; [exact Hloop |]. apply Hfwd.
    rewrite Rabs_R0. pose proof PI_RGT_0. lra.
Defined.

(** C5 as stated fails on a reverse tick: with the goal one unit behind
    the robot the angular velocity published is 0, not
    [speed_factor * (7.5 * alpha - 3 * beta)] for the stated [alpha] and
    [beta], which are both [-pi] there. *)
Lemma C5_reverse_tick_uses_shifted_angles :
  let ctl := scripted (from_tick 1) never tf_origin cfg_ground_truth in
  _move_to_pose ctl 2 goal_behind st_start =
    (Ok tt, st_memo 1 [cmd_behind; Twist0]) /\
  __pi_wrap (__ang_to_b eye4 goal_behind - __yaw eye4) = - PI /\
  __pi_wrap (__yaw goal_behind - __ang_to_b eye4 goal_behind) = - PI /\
  vz (angular cmd_behind) <>
  _move_speed_factor ctl *
  (75 / 10 * __pi_wrap (__ang_to_b eye4 goal_behind - __yaw eye4) +
   - 3 * __pi_wrap (__yaw goal_behind - __ang_to_b eye4 goal_behind)).
Proof.
  cbv zeta. split; [apply run_reverse |].
  split; [apply alpha_behind |]. split; [apply beta_behind |].
  fold (alpha_of eye4 goal_behind) (beta_of eye4 goal_behind).
  rewrite alpha_behind, beta_behind, speed_factor_default.
  cbn [cmd_behind angular zero3 vz]. pose proof PI_RGT_0. lra.
Qed.

(** The first tick towards a goal one unit behind the robot. *)
Lemma C6_reverse_tick_witness :
  let ctl := scripted (from_tick 1) never tf_origin cfg_ground_truth in
  exists cmd,
    _move_to_pose_loop ctl 2 goal_behind Twist0 st_start =
    _move_to_pose_loop ctl 1 goal_behind cmd (after_tick ctl cmd (st_memo 0 [])) /\
    vx (linear cmd) = _move_speed_factor ctl * -1 * _MOVE_POSE_K_RHO * 1 /\
    vz (angular cmd) =
      _move_speed_factor ctl *
      (_MOVE_POSE_K_ALPHA * __pi_wrap (alpha_of eye4 goal_behind + PI) +
       _MOVE_POSE_K_BETA * __pi_wrap (beta_of eye4 goal_behind + PI)) /\
    vx (linear cmd) < 0.
Proof.
  cbv zeta.
  apply (C6_reverse_tick
           (scripted (from_tick 1) never tf_origin cfg_ground_truth)
           1 goal_behind Twist0 st_start 0%nat eye4 (st_memo 0 []) 1 PI).
  - reflexivity.
  - now apply scripted_current_pose_start.
  - rewrite dist_from_eye4. f_equal. apply norm2_neg_unit_x.
  - rewrite ang_wrt_eye4. f_equal. apply arctan2_0_neg. cbn. lra.
  - apply Rabs_PI_behind.
  - unfold _MOVE_TOL_DIST. lra.
  - rewrite speed_factor_default. lra.
Defined.

(** C6 as stated fails within the distance tolerance: with the goal half
    a centimetre behind the robot ([rho > 0], speed factor 1) the tick is
    terminal and the move publishes two [Twist()] and no negative linear
    velocity. *)
Lemma C6_no_reverse_command_within_tolerance :
  let ctl := scripted never never tf_origin cfg_ground_truth in
  __ang_to_b_wrt_a eye4 goal_close_behind = Some PI /\
  Rabs PI > PI / 2 /\
  __dist_from_a_to_b eye4 goal_close_behind = Some (1 / 200) /\
  0 < 1 / 200 /\
  0 < _move_speed_factor ctl /\
  _move_to_pose ctl 2 goal_close_behind st_start =
    (Ok tt, st_memo 0 [Twist0; Twist0]) /\
  Forall (fun c => ~ vx (linear c) < 0)
         (published (snd (_move_to_pose ctl 2 goal_close_behind st_start))).
Proof.
  cbv zeta.
  assert (Hrun : _move_to_pose (scripted never never tf_origin cfg_ground_truth)
                   2 goal_close_behind st_start =
                 (Ok tt, st_memo 0 [Twist0; Twist0])).
  { apply run_within_tolerance.
    change (mkVec3 (- (1 / 200)) 0 0) with (trans goal_close_behind).
    rewrite norm2_close_behind. unfold _MOVE_TOL_DIST. lra. }
  split; [| split; [| split; [| split; [| split; [| split]]]]].
  - rewrite ang_wrt_eye4. f_equal. apply arctan2_0_neg. cbn. lra.
  - apply Rabs_PI_behind.
  - rewrite dist_from_eye4. f_equal. apply norm2_close_behind.
  - lra.
  - rewrite speed_factor_default. lra.
  - exact Hrun.
  - rewrite Hrun. cbn [snd st_memo published].
    repeat constructor; cbn; lra.
Qed.

(** A session whose initial pose is the identity, with odometry 2 along X
    and the map tree 5 along X: the ground-truth task reads 5, the
    dead-reckoning task composes 2 on the identity; a fresh session
    memoizes the map pose, and five operations later the identity is
    still the memoized pose of the first session. *)
Lemma C7_current_pose_and_initial_pose_witness :
  _current_pose (scripted never never tf_drifted cfg_mixed) st_session =
    (Ok pose_five_ahead, st_session) /\
  _current_pose (scripted never never tf_drifted cfg_noisy) st_session =
    (Ok (matmul eye4 pose_two_ahead), st_session) /\
  _define_initial_pose (scripted never never tf_drifted cfg_mixed) st_start =
    (Ok tt,
     mkSt 0%nat (mkState (Some pose_five_ahead) None None
                         (Some "miniroom"%string)) [] []) /\
  _define_initial_pose (scripted never never tf_drifted cfg_mixed) st_session =
    (Ok tt, st_session) /\
  initial_pose_tf_mat
    (state (state_after_all (scripted never never tf_drifted cfg_mixed)
              [Call_move_next 1; World_step S; Call_current_pose;
               Call_create_pose_list; Call_move_to_pose 2 goal_ahead]
              st_session)) = Some eye4.
Proof.
  split; [| split; [| split; [| split]]].
  - destruct (C7_current_pose_and_initial_pose
                (scripted never never tf_drifted cfg_mixed) st_session)
      as (Hgt & _).
    apply (Hgt st_session pose_five_ahead 0%nat); reflexivity.
  - destruct (C7_current_pose_and_initial_pose
                (scripted never never tf_drifted cfg_noisy) st_session)
      as (_ & Hnoisy & _).
    apply (Hnoisy st_session eye4 pose_two_ahead 0%nat); reflexivity.
  - destruct (C7_current_pose_and_initial_pose
                (scripted never never tf_drifted cfg_mixed) st_start)
      as (_ & _ & Hcapture & _).
    apply (Hcapture 0%nat pose_five_ahead 0%nat); reflexivity.
  - destruct (C7_current_pose_and_initial_pose
                (scripted never never tf_drifted cfg_mixed) st_session)
      as (_ & _ & _ & Hmemo & _).
    apply (Hmemo false 0%nat eye4); reflexivity.
  - destruct (C7_current_pose_and_initial_pose
                (scripted never never tf_drifted cfg_mixed) st_session)
      as (_ & _ & _ & _ & Hkeep).
    apply Hkeep. reflexivity.
Defined.




(** ** Rigid poses *)

Ltac mat3_cases :=
  repeat match goal with
         | a : Mat4 |- _ => destruct a as [? [? ? ?]]
         | a : Mat3 |- _ => destruct a as [? ? ? ? ? ? ? ? ?]
         | v : Vec3 |- _ => destruct v as [? ? ?]
         end.

Ltac mat3_ring :=
  mat3_cases;
  unfold mat3_mul, mat3_vec, mat3_scale, transpose3, adj3, det3, eye3,
    vec3_add, vec3_opp, zero3;
  cbn [m00 m01 m02 m10 m11 m12 m20 m21 m22 vx vy vz];
  try ring; try (f_equal; ring).

Lemma mat3_mul_assoc (a b c : Mat3) :
  mat3_mul (mat3_mul a b) c = mat3_mul a (mat3_mul b c).
Proof. mat3_ring. Qed.

Lemma mat3_mul_eye_l (a : Mat3) : mat3_mul eye3 a = a.
Proof. mat3_ring. Qed.

Lemma mat3_mul_eye_r (a : Mat3) : mat3_mul a eye3 = a.
Proof. mat3_ring. Qed.

Lemma transpose3_mul (a b : Mat3) :
  transpose3 (mat3_mul a b) = mat3_mul (transpose3 b) (transpose3 a).
Proof. mat3_ring. Qed.

Lemma transpose3_involutive (a : Mat3) : transpose3 (transpose3 a) = a.
Proof. now destruct a. Qed.

Lemma det3_mul (a b : Mat3) : det3 (mat3_mul a b) = det3 a * det3 b.
Proof. mat3_ring. Qed.

Lemma det3_transpose (a : Mat3) : det3 (transpose3 a) = det3 a.
Proof. mat3_ring. Qed.

Lemma mat3_mul_adj (a : Mat3) :
  mat3_mul a (adj3 a) = mat3_scale (det3 a) eye3.
Proof. mat3_ring. Qed.

Lemma mat3_scale_mul_r (k : R) (a b : Mat3) :
  mat3_mul a (mat3_scale k b) = mat3_scale k (mat3_mul a b).
Proof. mat3_ring. Qed.

Lemma mat3_scale_one (a : Mat3) : mat3_scale 1 a = a.
Proof. mat3_ring. Qed.

Lemma rotation3_adj (r : Mat3) : rotation3 r -> adj3 r = transpose3 r.
Proof.
  intros [Ho Hd].
  rewrite <- (mat3_mul_eye_l (adj3 r)), <- Ho, mat3_mul_assoc, mat3_mul_adj.
  rewrite Hd, mat3_scale_one. apply mat3_mul_eye_r.
Qed.

Lemma rotation3_rows (r : Mat3) :
  rotation3 r -> mat3_mul r (transpose3 r) = eye3.
Proof.
  intros H. rewrite <- (rotation3_adj r H), mat3_mul_adj.
  destruct H as [_ ->]. apply mat3_scale_one.
Qed.

Lemma rotation3_transpose (r : Mat3) : rotation3 r -> rotation3 (transpose3 r).
Proof.
  intros H. split.
  - rewrite transpose3_involutive. now apply rotation3_rows.
  - rewrite det3_transpose. apply H.
Qed.

Lemma rotation3_mul (a b : Mat3) :
  rotation3 a -> rotation3 b -> rotation3 (mat3_mul a b).
Proof.
  intros [Ha Da] [Hb Db]. split.
  - rewrite transpose3_mul, mat3_mul_assoc.
    rewrite <- (mat3_mul_assoc (transpose3 a) a b).
    now rewrite Ha, mat3_mul_eye_l.
  - rewrite det3_mul, Da, Db. ring.
Qed.

Lemma rotation3_eye3 : rotation3 eye3.
Proof. split; mat3_ring. Qed.

Lemma linalg_inv_rigid (a : Mat4) :
  rigid a ->
  linalg_inv a =
  Some (mkMat4 (transpose3 (rot a))
               (vec3_opp (mat3_vec (transpose3 (rot a)) (trans a)))).
Proof.
  intros H. unfold linalg_inv.
  destruct (Req_dec_T (det3 (rot a)) 0) as [E | _].
  { destruct H as [_ Hd]. rewrite Hd in E. lra. }
  cbv zeta. rewrite (rotation3_adj _ H). destruct H as [_ ->].
  replace (/ 1) with 1 by field. now rewrite mat3_scale_one.
Qed.

Lemma arctan2_0_0 : arctan2 0 0 = 0.
Proof.
  unfold arctan2.
  destruct (Rlt_dec 0 0); [lra |]. destruct (Rlt_dec 0 0); [lra |]. reflexivity.
Qed.

Lemma euler_XYZ_z_eye3 : euler_XYZ_z eye3 = 0.
Proof.
  unfold euler_XYZ_z, eye3; cbn [m00 m01].
  replace (- 0) with 0 by ring. apply arctan2_0_pos. lra.
Qed.

Lemma tr_b_wrt_a_self (a : Mat4) :
  det3 (rot a) <> 0 -> __tr_b_wrt_a a a = Some eye4.
Proof.
  intros Hd. unfold __tr_b_wrt_a, linalg_inv.
  destruct (Req_dec_T (det3 (rot a)) 0) as [E | _]; [contradiction |].
  cbv zeta. f_equal. unfold eye4, matmul. cbn [rot trans].
  destruct a as [[a00 a01 a02 a10 a11 a12 a20 a21 a22] [ax ay az]].
  unfold det3 in *. cbn [rot trans m00 m01 m02 m10 m11 m12 m20 m21 m22] in *.
  unfold mat3_mul, mat3_vec, mat3_scale, adj3, eye3, vec3_add, vec3_opp, zero3.
  cbn [m00 m01 m02 m10 m11 m12 m20 m21 m22 vx vy vz].
  f_equal; f_equal; field; exact Hd.
Qed.

Lemma relative_to_itself (a : Mat4) :
  det3 (rot a) <> 0 ->
  __tr_b_wrt_a a a = Some eye4 /\
  __dist_from_a_to_b a a = Some 0 /\
  __ang_to_b_wrt_a a a = Some 0 /\
  __yaw_b_wrt_a a a = Some 0.
Proof.
  intros Hd. pose proof (tr_b_wrt_a_self a Hd) as H.
  unfold __dist_from_a_to_b, __ang_to_b_wrt_a, __yaw_b_wrt_a. rewrite H.
  cbn [eye4 rot trans zero3 vx vy].
  repeat split; f_equal.
  - apply norm2_zero.
  - apply arctan2_0_0.
  - apply euler_XYZ_z_eye3.
Qed.

(** X1: a pose that can be inverted is at the identity relative to
    itself: distance, relative bearing and relative yaw are all zero. *)
Theorem X1_relative_to_itself (a : Mat4) :
  det3 (rot a) <> 0 ->
  __tr_b_wrt_a a a = Some eye4 /\
  __dist_from_a_to_b a a = Some 0 /\
  __ang_to_b_wrt_a a a = Some 0 /\
  __yaw_b_wrt_a a a = Some 0.
Proof. apply relative_to_itself. Qed.

Lemma det3_pose_turned : det3 (rot pose_turned) <> 0.
Proof. unfold pose_turned, det3; cbn. lra. Qed.

(** The quarter turn at (1, 2, 0). *)
Lemma X1_relative_to_itself_witness :
  __tr_b_wrt_a pose_turned pose_turned = Some eye4 /\
  __dist_from_a_to_b pose_turned pose_turned = Some 0 /\
  __ang_to_b_wrt_a pose_turned pose_turned = Some 0 /\
  __yaw_b_wrt_a pose_turned pose_turned = Some 0.
Proof. apply (X1_relative_to_itself pose_turned), det3_pose_turned. Defined.

Lemma rigid_poses_closed (a b : Mat4) :
  rigid a -> rigid b ->
  rigid (matmul a b) /\
  exists r,
    __tr_b_wrt_a a b = Some r /\ rigid r /\
    rot r = mat3_mul (transpose3 (rot a)) (rot b) /\
    trans r = mat3_vec (transpose3 (rot a))
                       (vec3_add (trans b) (vec3_opp (trans a))).
Proof.
  intros Ha Hb. split.
  - unfold rigid, matmul; cbn [rot]. now apply rotation3_mul.
  - unfold __tr_b_wrt_a. rewrite (linalg_inv_rigid a Ha).
    eexists. split; [reflexivity |]. split; [| split].
    + unfold rigid, matmul; cbn [rot].
      apply rotation3_mul; [now apply rotation3_transpose | exact Hb].
    + reflexivity.
    + unfold matmul; cbn [rot trans]. mat3_ring.
Qed.

(** X2: rigid poses are closed under the module's algebra: the product of
    two is rigid, and the relative transform between two never fails, is
    rigid, and has the rotation [Ra^T Rb] and the translation
    [Ra^T (tb - ta)]. *)
Theorem X2_rigid_poses_closed (a b : Mat4) :
  rigid a -> rigid b ->
  rigid (matmul a b) /\
  exists r,
    __tr_b_wrt_a a b = Some r /\ rigid r /\
    rot r = mat3_mul (transpose3 (rot a)) (rot b) /\
    trans r = mat3_vec (transpose3 (rot a))
                       (vec3_add (trans b) (vec3_opp (trans a))).
Proof. apply rigid_poses_closed. Qed.

Lemma rigid_eye4 : rigid eye4.
Proof. apply rotation3_eye3. Qed.

Lemma rigid_pose_turned : rigid pose_turned.
Proof. unfold rigid, pose_turned; cbn [rot]; split; mat3_ring. Qed.

(** The identity and the quarter turn at (1, 2, 0). *)
Lemma X2_rigid_poses_closed_witness :
  rigid (matmul pose_turned eye4) /\
  exists r,
    __tr_b_wrt_a pose_turned eye4 = Some r /\ rigid r /\
    rot r = mat3_mul (transpose3 (rot pose_turned)) (rot eye4) /\
    trans r = mat3_vec (transpose3 (rot pose_turned))
                       (vec3_add (trans eye4) (vec3_opp (trans pose_turned))).
Proof.
  apply (X2_rigid_poses_closed pose_turned eye4).
  - apply rigid_pose_turned.
  - apply rigid_eye4.
Defined.

Lemma quat_as_dcm_rotation (x y z w : R) (r : Mat3) :
  quat_as_dcm x y z w = Some r -> rotation3 r.
Proof.
  unfold quat_as_dcm. cbv zeta.
  destruct (Req_dec_T (x * x + y * y + z * z + w * w) 0) as [E | Hn];
    [discriminate |].
  intros H. injection H as <-. split.
  - unfold mat3_mul, transpose3, eye3.
    cbn [m00 m01 m02 m10 m11 m12 m20 m21 m22].
    f_equal; field; exact Hn.
  - unfold det3. cbn [m00 m01 m02 m10 m11 m12 m20 m21 m22].
    field. exact Hn.
Qed.

(** X3: a pose vector that is turned into a matrix has exactly seven
    entries and a quaternion that is not zero, and the matrix is a rigid
    pose whose translation is the last three entries; a vector of any
    other length, and one whose quaternion is zero, is refused. *)
Theorem X3_pose_vector_gives_rigid_pose (pv : list R) :
  (forall m,
     __pose_vector_to_tf_matrix pv = Some m ->
     rigid m /\
     exists x y z w,
       pv = [x; y; z; w; vx (trans m); vy (trans m); vz (trans m)] /\
       x * x + y * y + z * z + w * w <> 0) /\
  (List.length pv <> 7%nat -> __pose_vector_to_tf_matrix pv = None) /\
  (forall tx ty tz,
     pv = [0; 0; 0; 0; tx; ty; tz] ->
     __pose_vector_to_tf_matrix pv = None).
Proof.
  split; [| split].
  - intros m H.
    destruct pv as [| x [| y [| z [| w [| tx [| ty [| tz [| e rest]]]]]]]];
      try discriminate.
    cbn [__pose_vector_to_tf_matrix] in H.
    destruct (quat_as_dcm x y z w) as [r |] eqn:Eq; [| discriminate].
    injection H as <-. split.
    + unfold rigid; cbn [rot]. eapply quat_as_dcm_rotation; eauto.
    + exists x, y, z, w. cbn [trans vx vy vz]. split; [reflexivity |].
      unfold quat_as_dcm in Eq. cbv zeta in Eq.
      destruct (Req_dec_T (x * x + y * y + z * z + w * w) 0);
        [discriminate | assumption].
  - intros Hlen.
    destruct pv as [| x [| y [| z [| w [| tx [| ty [| tz [| e rest]]]]]]]];
      try reflexivity.
    now contradiction Hlen.
  - intros tx ty tz ->. cbn [__pose_vector_to_tf_matrix].
    unfold quat_as_dcm. cbv zeta.
    destruct (Req_dec_T (0 * 0 + 0 * 0 + 0 * 0 + 0 * 0) 0) as [_ | H];
      [reflexivity | exfalso; apply H; ring].
Qed.

(** The waypoint at the origin, reordered; a vector that is too short;
    a zero quaternion. *)
Lemma X3_pose_vector_gives_rigid_pose_witness :
  (rigid eye4 /\
   exists x y z w,
     [0; 0; 0; 1; 0; 0; 0] =
     [x; y; z; w; vx (trans eye4); vy (trans eye4); vz (trans eye4)] /\
     x * x + y * y + z * z + w * w <> 0) /\
  __pose_vector_to_tf_matrix [1; 0; 0] = None /\
  __pose_vector_to_tf_matrix [0; 0; 0; 0; 1; 2; 3] = None.
Proof.
  split; [| split].
  - destruct (X3_pose_vector_gives_rigid_pose [0; 0; 0; 1; 0; 0; 0])
      as [Hsome _].
    apply Hsome, pose_vector_origin.
  - destruct (X3_pose_vector_gives_rigid_pose [1; 0; 0]) as (_ & Hlen & _).
    apply Hlen. discriminate.
  - destruct (X3_pose_vector_gives_rigid_pose [0; 0; 0; 0; 1; 2; 3])
      as (_ & _ & Hzero).
    now apply (Hzero 1 2 3).
Defined.

(** ** The shape of the published commands *)

Lemma arctan2_range (y x : R) : - PI < arctan2 y x <= PI.
Proof.
  pose proof PI_RGT_0 as Hpi. unfold arctan2.
  destruct (Rlt_dec 0 x) as [Hx | Hx].
  { destruct (atan_bound (y / x)). lra. }
  destruct (Rlt_dec x 0) as [Hx' | Hx'].
  - destruct (atan_bound (y / x)) as [Hl Hu].
    destruct (Rle_dec 0 y) as [Hy | Hy].
    + assert (Hq : y / x <= 0).
      { assert (Hi : / x < 0) by now apply Rinv_lt_0_compat.
        unfold Rdiv. nra. }
      assert (Ha : atan (y / x) <= 0).
      { destruct Hq as [Hq | Hq].
        - left. rewrite <- atan_0. now apply atan_increasing.
        - rewrite Hq, atan_0. lra. }
      lra.
    + assert (Hq : 0 < y / x).
      { assert (Hi : / x < 0) by now apply Rinv_lt_0_compat.
        unfold Rdiv. nra. }
      assert (Ha : 0 < atan (y / x))
        by (rewrite <- atan_0; now apply atan_increasing).
      lra.
  - destruct (Rlt_dec 0 y); [lra |]. destruct (Rlt_dec y 0); lra.
Qed.

Lemma Rabs_arctan2 (y x : R) : Rabs (arctan2 y x) <= PI.
Proof. apply Rabs_le. pose proof (arctan2_range y x). lra. Qed.

Lemma Rabs_pi_wrap (x : R) : Rabs (__pi_wrap x) <= PI.
Proof. apply Rabs_le. pose proof (pi_wrap_range x). lra. Qed.

Lemma Rabs_le_bounds (a b : R) : Rabs a <= b -> - b <= a <= b.
Proof. unfold Rabs. destruct (Rcase_abs a); lra. Qed.

Lemma angle_command_bound (sf err : R) :
  Rabs err <= PI -> Rabs (sf * _MOVE_ANGLE_K * err) <= Rabs sf * 3 * PI.
Proof.
  intros H. unfold _MOVE_ANGLE_K.
  rewrite !Rabs_mult, (Rabs_right 3) by lra.
  pose proof (Rabs_pos sf). nra.
Qed.

Lemma drive_command_bound (sf a b : R) :
  Rabs a <= PI -> Rabs b <= PI ->
  Rabs (sf * (_MOVE_POSE_K_ALPHA * a + _MOVE_POSE_K_BETA * b))
  <= Rabs sf * (21 / 2) * PI.
Proof.
  intros Ha Hb. unfold _MOVE_POSE_K_ALPHA, _MOVE_POSE_K_BETA.
  rewrite Rabs_mult.
  assert (H : Rabs (75 / 10 * a + - 3 * b) <= 21 / 2 * PI).
  { apply Rabs_le. apply Rabs_le_bounds in Ha. apply Rabs_le_bounds in Hb. lra. }
  pose proof (Rabs_pos sf). nra.
Qed.

Lemma turn_command_zero (bound : R) : 0 <= bound -> turn_command bound Twist0.
Proof.
  intros H. unfold turn_command, Twist0, zero3; cbn.
  rewrite Rabs_R0. auto.
Qed.

Lemma turn_command_drive (b1 b2 : R) (c : Twist) :
  b1 <= b2 -> turn_command b1 c -> drive_command b2 c.
Proof.
  intros Hb (Hl & Hx & Hy & Hz). unfold drive_command.
  rewrite Hl. cbn. repeat split; auto. lra.
Qed.

Section Shapes.

Context {W : Type}.
Variable ctl : Controller W.
Variable P : Twist -> Prop.

Let R_ := @published_between W P.

Lemma shape_bind {A B} (m : M W A) (k : A -> M W B) :
stepwise R_ m -> (forall a, stepwise R_ (k a)) -> stepwise R_ (bind m k).
Proof.
apply stepwise_bind;
  first [apply published_between_refl | apply published_between_trans].
Qed.

Lemma shape_ret {A} (a : A) : stepwise R_ (ret a).
Proof. intros s. apply published_between_refl. Qed.

Lemma shape_out_of_fuel {A} : stepwise R_ (@out_of_fuel W A).
Proof. intros s. apply published_between_refl. Qed.

Lemma shape_or_raise_bind {A B} e (o : option A) (k : A -> M W B) :
(forall a, o = Some a -> stepwise R_ (k a)) ->
stepwise R_ (bind (or_raise e o) k).
Proof.
intros H. destruct o as [a |]; intros s; unfold bind, or_raise.
- apply (H a eq_refl).
- apply published_between_refl.
Qed.

Lemma shape_is_collided : stepwise R_ (instance_is_collided ctl).
Proof.
apply stepwise_is_collided. intros. now apply published_between_same.
Qed.

Lemma shape_current_pose : stepwise R_ (_current_pose ctl).
Proof.
apply stepwise_current_pose;
  first [ apply published_between_refl
        | apply published_between_trans
        | intros; now apply published_between_same ].
Qed.

Lemma shape_sleep : stepwise R_ (hz_rate_sleep ctl).
Proof.
apply stepwise_sleep. intros. now apply published_between_same.
Qed.

Lemma shape_publish msg : P msg -> stepwise R_ (publish ctl msg).
Proof. intros H s. now apply (published_between_publish ctl). Qed.

End Shapes.

Lemma yaw_b_wrt_a_bound (current goal : Mat4) (err : R) :
  __yaw_b_wrt_a current goal = Some err -> Rabs err <= PI.
Proof.
  unfold __yaw_b_wrt_a. destruct (__tr_b_wrt_a current goal); [| discriminate].
  intros H. injection H as <-. apply Rabs_arctan2.
Qed.

Lemma angle_loop_turn_commands {W} (ctl : Controller W) fuel goal :
  forall vel,
    linear vel = zero3 -> vx (angular vel) = 0 -> vy (angular vel) = 0 ->
    stepwise (published_between
                (turn_command (Rabs (_move_speed_factor ctl) * 3 * PI)))
             (_move_to_angle_loop ctl fuel goal vel).
Proof.
  induction fuel as [| fuel IH]; intros vel Hl Hx Hy;
    cbn [_move_to_angle_loop]; [apply shape_out_of_fuel |].
  apply shape_bind; [apply shape_is_collided | intros [|]];
    [apply shape_ret |].
  apply shape_bind; [apply shape_current_pose | intros current].
  apply shape_or_raise_bind. intros err Herr.
  destruct (Rlt_dec (Rabs err) _MOVE_TOL_YAW); [apply shape_ret |].
  apply shape_bind; [| intros _].
  - apply shape_publish. unfold turn_command.
    cbn [set_angular_z linear angular vx vy vz].
    repeat split; auto.
    apply angle_command_bound. eapply yaw_b_wrt_a_bound; eauto.
  - apply shape_bind; [apply shape_sleep | intros _].
    apply IH; cbn [set_angular_z linear angular vx vy]; auto.
Qed.

Lemma speed_bound_nonneg {W} (ctl : Controller W) (k : R) :
  0 <= k -> 0 <= Rabs (_move_speed_factor ctl) * k * PI.
Proof.
  intros Hk. pose proof PI_RGT_0. pose proof (Rabs_pos (_move_speed_factor ctl)).
  apply Rmult_le_pos; [apply Rmult_le_pos |]; lra.
Qed.

Lemma move_to_angle_turn_commands {W} (ctl : Controller W) fuel goal :
  stepwise (published_between
              (turn_command (Rabs (_move_speed_factor ctl) * 3 * PI)))
           (_move_to_angle ctl fuel goal).
Proof.
  unfold _move_to_angle.
  apply shape_bind; [| intros _].
  - apply angle_loop_turn_commands; reflexivity.
  - apply shape_publish, turn_command_zero, speed_bound_nonneg. lra.
Qed.

(** X6: every command the orientation-only move publishes, on any path
    and whether it returns or raises, has no linear velocity and turns
    about the vertical axis only, at no more than
    [|speed_factor| * 3 * pi]. *)
Theorem X6_orientation_commands_turn_only
    {W} (ctl : Controller W) (fuel : nat) (goal : Mat4) (s : St W) :
  exists cmds,
    published (snd (_move_to_angle ctl fuel goal s)) = published s ++ cmds /\
    Forall (fun c =>
              linear c = zero3 /\ vx (angular c) = 0 /\ vy (angular c) = 0 /\
              Rabs (vz (angular c)) <= Rabs (_move_speed_factor ctl) * 3 * PI)
           cmds.
Proof. apply (move_to_angle_turn_commands ctl fuel goal s). Qed.

Lemma move_to_angle_drive_commands {W} (ctl : Controller W) fuel goal :
  stepwise (published_between
              (drive_command (Rabs (_move_speed_factor ctl) * (21 / 2) * PI)))
           (_move_to_angle ctl fuel goal).
Proof.
  intros s.
  destruct (move_to_angle_turn_commands ctl fuel goal s)
    as (cmds & E & F).
  exists cmds. split; [exact E |].
  eapply Forall_impl; [| exact F]. intros c Hc.
  apply (turn_command_drive (Rabs (_move_speed_factor ctl) * 3 * PI)); auto.
  pose proof PI_RGT_0. pose proof (Rabs_pos (_move_speed_factor ctl)). nra.
Qed.

Lemma pose_loop_drive_commands {W} (ctl : Controller W) fuel goal :
  forall vel,
    vy (linear vel) = 0 -> vz (linear vel) = 0 ->
    vx (angular vel) = 0 -> vy (angular vel) = 0 ->
    stepwise (published_between
                (drive_command (Rabs (_move_speed_factor ctl) * (21 / 2) * PI)))
             (_move_to_pose_loop ctl fuel goal vel).
Proof.
  induction fuel as [| fuel IH]; intros vel Hly Hlz Hax Hay;
    cbn [_move_to_pose_loop]; [apply shape_out_of_fuel |].
  apply shape_bind; [apply shape_is_collided | intros [|]];
    [apply shape_ret |].
  apply shape_bind; [apply shape_current_pose | intros current].
  apply shape_or_raise_bind. intros rho _.
  cbv zeta.
  apply shape_or_raise_bind. intros ang _.
  destruct (Rlt_dec rho _MOVE_TOL_DIST);
    [apply move_to_angle_drive_commands |].
  apply shape_bind; [| intros _].
  - apply shape_publish. unfold drive_command.
    cbn [set_angular_z set_linear_x linear angular vx vy vz].
    repeat split; auto.
    apply drive_command_bound;
      destruct (Rgt_dec (Rabs ang) (PI / 2)); apply Rabs_pi_wrap.
  - apply shape_bind; [apply shape_sleep | intros _].
    apply IH; cbn [set_angular_z set_linear_x linear angular vx vy vz]; auto.
Qed.

(** X7: every command the drive-to-pose move publishes, on any path and
    whether it returns or raises, moves along the robot's forward axis
    and turns about the vertical axis only, the turn rate being at most
    [|speed_factor| * 10.5 * pi]. *)
Theorem X7_drive_commands_planar_and_bounded
    {W} (ctl : Controller W) (fuel : nat) (goal : Mat4) (s : St W) :
  exists cmds,
    published (snd (_move_to_pose ctl fuel goal s)) = published s ++ cmds /\
    Forall (fun c =>
              vy (linear c) = 0 /\ vz (linear c) = 0 /\
              vx (angular c) = 0 /\ vy (angular c) = 0 /\
              Rabs (vz (angular c))
              <= Rabs (_move_speed_factor ctl) * (21 / 2) * PI)
           cmds.
Proof.
  revert s. change (stepwise (published_between
    (drive_command (Rabs (_move_speed_factor ctl) * (21 / 2) * PI)))
    (_move_to_pose ctl fuel goal)).
  unfold _move_to_pose.
  apply shape_bind; [| intros _].
  - apply pose_loop_drive_commands; reflexivity.
  - apply shape_publish.
    apply (turn_command_drive 0); [apply speed_bound_nonneg; lra |].
    apply turn_command_zero. lra.
Qed.

(** ** A move to the pose the robot is at *)

(** X8: when the pose read on the first tick of the drive loop and on the
    first tick of the orientation loop is the goal itself, the move
    commands no motion: it publishes two [Twist()] and returns. *)
Theorem X8_move_to_current_pose_commands_nothing
    {W} (ctl : Controller W) (fuel : nat) (goal : Mat4)
    (s s2 s4 : St W) (w1 w3 : W) :
  det3 (rot goal) <> 0 ->
  is_collided ctl (world s) = (false, w1) ->
  _current_pose ctl (set_world w1 s) = (Ok goal, s2) ->
  is_collided ctl (world s2) = (false, w3) ->
  _current_pose ctl (set_world w3 s2) = (Ok goal, s4) ->
  _move_to_pose ctl (S (S fuel)) goal s =
    (Ok tt, after_publish ctl Twist0 (after_publish ctl Twist0 s4)) /\
  published (after_publish ctl Twist0 (after_publish ctl Twist0 s4)) =
    published s4 ++ [Twist0; Twist0].
Proof.
  intros Hd Hc1 Hp1 Hc2 Hp2.
  destruct (relative_to_itself goal Hd) as (_ & Hdist & Hang & Hyaw).
  split.
  - apply move_to_pose_ok.
    rewrite (pose_loop_near ctl (S fuel) goal Twist0 s w1 goal s2 0 0
               Hc1 Hp1 Hdist Hang)
      by (unfold _MOVE_TOL_DIST; lra).
    apply move_to_angle_ok.
    apply (angle_loop_converged ctl fuel goal Twist0 s2 w3 goal s4 0
             Hc2 Hp2 Hyaw).
    rewrite Rabs_R0. apply tol_yaw_pos.
  - cbn [after_publish published]. now rewrite <- app_assoc.
Qed.

(** The robot stands at the quarter turn at (1, 2, 0), which is the goal. *)
Lemma X8_move_to_current_pose_commands_nothing_witness :
  let ctl := scripted never never tf_turned cfg_ground_truth in
  let s2 := mkSt 0%nat (mkState (Some pose_turned) None None
                                (Some "miniroom"%string)) [] [] in
  _move_to_pose ctl 2 pose_turned st_start =
    (Ok tt, after_publish ctl Twist0 (after_publish ctl Twist0 s2)) /\
  published (after_publish ctl Twist0 (after_publish ctl Twist0 s2)) =
    published s2 ++ [Twist0; Twist0].
Proof.
  cbv zeta.
  apply (X8_move_to_current_pose_commands_nothing
           (scripted never never tf_turned cfg_ground_truth) 0 pose_turned
           st_start
           (mkSt 0%nat (mkState (Some pose_turned) None None
                                (Some "miniroom"%string)) [] [])
           (mkSt 0%nat (mkState (Some pose_turned) None None
                                (Some "miniroom"%string)) [] [])
           0%nat 0%nat).
  - apply det3_pose_turned.
  - reflexivity.
  - now apply scripted_current_pose_start.
  - reflexivity.
  - now apply (scripted_current_pose_gt never tf_turned cfg_ground_truth).
Defined.

(** ** The goals of the dispatch functions *)

Lemma half_angle_square (theta : R) :
  sin (theta / 2) * sin (theta / 2) + cos (theta / 2) * cos (theta / 2) = 1.
Proof. pose proof (sin2_cos2 (theta / 2)) as H. unfold Rsqr in H. exact H. Qed.

Lemma cos_half_angle (theta : R) :
  cos theta =
  cos (theta / 2) * cos (theta / 2) - sin (theta / 2) * sin (theta / 2).
Proof.
  replace theta with (2 * (theta / 2)) at 1 by field. apply cos_2a.
Qed.

Lemma sin_half_angle (theta : R) :
  sin theta = 2 * sin (theta / 2) * cos (theta / 2).
Proof.
  replace theta with (2 * (theta / 2)) at 1 by field. apply sin_2a.
Qed.

Lemma transrpy_yaw (tx ty tz theta : R) :
  __transrpy_to_tf_matrix [tx; ty; tz] [0; 0; theta] =
  Some (mkMat4 (rot_z theta) (mkVec3 tx ty tz)).
Proof.
  unfold __transrpy_to_tf_matrix, euler_XYZ_as_quat, quat_mul.
  replace (0 / 2) with 0 by field. rewrite sin_0, cos_0.
  pose proof (half_angle_square theta) as Hsc.
  unfold rot_z.
  rewrite (cos_half_angle theta), (sin_half_angle theta).
  set (sn := sin (theta / 2)) in *. set (cs := cos (theta / 2)) in *.
  cbn [app __pose_vector_to_tf_matrix].
  unfold quat_as_dcm. cbv zeta.
  match goal with
  | |- context [Req_dec_T ?n 0] =>
      assert (Hn : n = 1) by (ring_simplify; lra);
      destruct (Req_dec_T n 0) as [E | _]; [exfalso; lra |];
      rewrite Hn
  end.
  unfold Rdiv. rewrite Rinv_1.
  f_equal. f_equal. f_equal; ring_simplify; try lra; nra.
Qed.

Lemma rot_z_0 : rot_z 0 = eye3.
Proof. unfold rot_z, eye3. rewrite cos_0, sin_0. f_equal; ring. Qed.

Lemma rotation3_rot_z (theta : R) : rotation3 (rot_z theta).
Proof.
  pose proof (sin2_cos2 theta) as H. unfold Rsqr in H.
  unfold rotation3, rot_z, mat3_mul, transpose3, det3, eye3.
  cbn [m00 m01 m02 m10 m11 m12 m20 m21 m22].
  split; [f_equal |]; ring_simplify; try lra; nra.
Qed.

Lemma matmul_translation (c : Mat4) (d : R) :
  matmul c (mkMat4 (rot_z 0) (mkVec3 d 0 0)) = pose_advanced c d.
Proof.
  rewrite rot_z_0. unfold pose_advanced, matmul. cbn [rot trans].
  destruct c as [[c00 c01 c02 c10 c11 c12 c20 c21 c22] [tx ty tz]].
  unfold mat3_mul, mat3_vec, vec3_add, eye3.
  cbn [rot trans m00 m01 m02 m10 m11 m12 m20 m21 m22 vx vy vz].
  f_equal; f_equal; ring.
Qed.

Lemma matmul_rotation (c : Mat4) (theta : R) :
  matmul c (mkMat4 (rot_z theta) (mkVec3 0 0 0)) = pose_rotated c theta.
Proof.
  unfold pose_rotated, matmul. cbn [rot trans]. f_equal.
  destruct c as [[c00 c01 c02 c10 c11 c12 c20 c21 c22] [tx ty tz]].
  unfold mat3_vec, vec3_add.
  cbn [rot trans m00 m01 m02 m10 m11 m12 m20 m21 m22 vx vy vz].
  f_equal; ring.
Qed.

Lemma pose_advanced_0 (c : Mat4) : pose_advanced c 0 = c.
Proof.
  destruct c as [r [tx ty tz]]. unfold pose_advanced. cbn [rot trans vx vy vz].
  f_equal. f_equal; ring.
Qed.

Lemma current_pose_publishes_nothing {W} (ctl : Controller W) (s : St W) :
  published (snd (_current_pose ctl s)) = published s.
Proof.
  apply (stepwise_current_pose ctl (fun s s' => published s' = published s));
    intros; cbn; congruence.
Qed.

Lemma move_distance_goal {W} (ctl : Controller W) fuel data s c s1 :
  _current_pose ctl s = (Ok c, s1) ->
  move_distance ctl fuel data s =
  _move_to_pose ctl fuel
    (pose_advanced c (__safe_dict_get (data_distance data) 0)) s1.
Proof.
  intros H. unfold move_distance. rewrite (bind_ok _ _ _ _ _ H).
  rewrite (transrpy_yaw _ 0 0 0). cbn [or_raise].
  unfold bind at 1, ret at 1. now rewrite matmul_translation.
Qed.

Lemma move_angle_goal {W} (ctl : Controller W) fuel data s c s1 :
  _current_pose ctl s = (Ok c, s1) ->
  move_angle ctl fuel data s =
  _move_to_pose ctl fuel
    (pose_rotated c
       (__pi_wrap (deg2rad (__safe_dict_get (data_angle data) 0)))) s1.
Proof.
  intros H. unfold move_angle. rewrite (bind_ok _ _ _ _ _ H).
  rewrite (transrpy_yaw 0 0 0). cbn [or_raise].
  unfold bind at 1, ret at 1. now rewrite matmul_rotation.
Qed.

(** X9: [move_distance] drives to the pose that has the orientation the
    robot has now and lies [distance] along its forward axis; without a
    ['distance'] key the goal is the current pose itself; if the current
    pose cannot be read the call raises before anything is published. *)
Theorem X9_move_distance_goal
    {W} (ctl : Controller W) (fuel : nat) (data : Data) (s : St W) :
  (forall c s1,
     _current_pose ctl s = (Ok c, s1) ->
     move_distance ctl fuel data s =
     _move_to_pose ctl fuel
       (pose_advanced c (__safe_dict_get (data_distance data) 0)) s1 /\
     (data_distance data = None ->
      move_distance ctl fuel data s = _move_to_pose ctl fuel c s1)) /\
  (forall e s1,
     _current_pose ctl s = (Raise e, s1) ->
     move_distance ctl fuel data s = (Raise e, s1) /\
     published s1 = published s).
Proof.
  split.
  - intros c s1 H. split; [now apply move_distance_goal |].
    intros Hd. rewrite (move_distance_goal ctl fuel data s c s1 H), Hd.
    cbn [__safe_dict_get]. now rewrite pose_advanced_0.
  - intros e s1 H. split.
    + unfold move_distance. now rewrite (bind_raise _ _ _ _ _ H).
    + pose proof (current_pose_publishes_nothing ctl s) as Hp.
      now rewrite H in Hp.
Qed.

(** X10: [move_angle] drives to the pose at the robot's present place,
    turned about its own vertical axis by the requested angle in degrees,
    converted to radians and wrapped into [-pi, pi); without an ['angle']
    key the turn is zero. *)
Theorem X10_move_angle_goal
    {W} (ctl : Controller W) (fuel : nat) (data : Data) (s : St W) :
  (forall c s1,
     _current_pose ctl s = (Ok c, s1) ->
     move_angle ctl fuel data s =
     _move_to_pose ctl fuel
       (pose_rotated c
          (__pi_wrap (deg2rad (__safe_dict_get (data_angle data) 0)))) s1 /\
     (data_angle data = None ->
      move_angle ctl fuel data s =
      _move_to_pose ctl fuel (pose_rotated c 0) s1)) /\
  (forall e s1,
     _current_pose ctl s = (Raise e, s1) ->
     move_angle ctl fuel data s = (Raise e, s1) /\
     published s1 = published s).
Proof.
  split.
  - intros c s1 H. split; [now apply move_angle_goal |].
    intros Hd. rewrite (move_angle_goal ctl fuel data s c s1 H), Hd.
    cbn [__safe_dict_get]. unfold deg2rad.
    replace (0 * (PI / 180)) with 0 by ring. now rewrite pi_wrap_0.
  - intros e s1 H. split.
    + unfold move_angle. now rewrite (bind_raise _ _ _ _ _ H).
    + pose proof (current_pose_publishes_nothing ctl s) as Hp.
      now rewrite H in Hp.
Qed.

(** ** Turning in place *)

Lemma rigid_pose_rotated (c : Mat4) (theta : R) :
  rigid c -> rigid (pose_rotated c theta).
Proof.
  intros Hc. unfold rigid, pose_rotated; cbn [rot].
  apply rotation3_mul; [exact Hc | apply rotation3_rot_z].
Qed.

Lemma norm2_origin (v : Vec3) : vx v = 0 -> vy v = 0 -> norm2 v = 0.
Proof.
  intros Hx Hy. unfold norm2. rewrite Hx, Hy.
  replace (0 * 0 + 0 * 0) with 0 by ring. apply sqrt_0.
Qed.

Lemma pose_rotated_at_hand (c : Mat4) (theta : R) :
  rigid c ->
  __dist_from_a_to_b c (pose_rotated c theta) = Some 0 /\
  exists ang, __ang_to_b_wrt_a c (pose_rotated c theta) = Some ang.
Proof.
  intros Hc.
  destruct (rigid_poses_closed c (pose_rotated c theta) Hc
              (rigid_pose_rotated c theta Hc)) as (_ & r & Hr & _ & _ & Ht).
  unfold __dist_from_a_to_b, __ang_to_b_wrt_a. rewrite Hr.
  split; [| eexists; reflexivity].
  f_equal. apply norm2_origin; rewrite Ht; unfold pose_rotated; cbn [trans];
    mat3_ring.
Qed.

Lemma move_to_pose_at_hand {W} (ctl : Controller W) fuel goal s w1 c s2 :
  is_collided ctl (world s) = (false, w1) ->
  _current_pose ctl (set_world w1 s) = (Ok c, s2) ->
  __dist_from_a_to_b c goal = Some 0 ->
  (exists ang, __ang_to_b_wrt_a c goal = Some ang) ->
  _move_to_pose ctl (S fuel) goal s =
  (_move_to_angle ctl fuel goal ;;; publish ctl Twist0) s2.
Proof.
  intros Hc Hp Hd (ang & Ha). unfold _move_to_pose, bind.
  rewrite (pose_loop_near ctl fuel goal Twist0 s w1 c s2 0 ang Hc Hp Hd Ha)
    by (unfold _MOVE_TOL_DIST; lra).
  reflexivity.
Qed.

(** X11: [move_angle] turns on the spot.  For a rigid current pose that
    is read again unchanged on the first tick, the drive loop hands over
    to the orientation loop at once, so no command of the call has a
    linear velocity, whatever the angle and however the call ends. *)
Theorem X11_move_angle_turns_in_place
    {W} (ctl : Controller W) (fuel : nat) (data : Data)
    (s s1 s3 : St W) (w2 : W) (c : Mat4) :
  rigid c ->
  _current_pose ctl s = (Ok c, s1) ->
  is_collided ctl (world s1) = (false, w2) ->
  _current_pose ctl (set_world w2 s1) = (Ok c, s3) ->
  exists cmds,
    published (snd (move_angle ctl (S fuel) data s)) = published s ++ cmds /\
    Forall (fun cmd => linear cmd = zero3) cmds.
Proof.
  intros Hr Hp1 Hc Hp2.
  rewrite (move_angle_goal ctl (S fuel) data s c s1 Hp1).
  set (goal := pose_rotated c _).
  destruct (pose_rotated_at_hand c
              (__pi_wrap (deg2rad (__safe_dict_get (data_angle data) 0))) Hr)
    as (Hd & Ha). fold goal in Hd, Ha.
  rewrite (move_to_pose_at_hand ctl fuel goal s1 w2 c s3 Hc Hp2 Hd Ha).
  assert (E1 : published s1 = published s).
  { pose proof (current_pose_publishes_nothing ctl s) as H.
    now rewrite Hp1 in H. }
  assert (E3 : published s3 = published s).
  { pose proof (current_pose_publishes_nothing ctl (set_world w2 s1)) as H.
    rewrite Hp2 in H. cbn [snd set_world published] in H. congruence. }
  assert (St : stepwise (published_between
             (turn_command (Rabs (_move_speed_factor ctl) * 3 * PI)))
             (_move_to_angle ctl fuel goal ;;; publish ctl Twist0)).
  { apply shape_bind; [apply move_to_angle_turn_commands | intros _].
    apply shape_publish, turn_command_zero, speed_bound_nonneg. lra. }
  destruct (St s3) as (cmds & E & F).
  exists cmds. split; [now rewrite E, E3 |].
  eapply Forall_impl; [| exact F]. now intros cmd (Hl & _).
Qed.

(** The robot stands at the quarter turn at (1, 2, 0) and is asked to
    turn by 90 degrees. *)
Lemma X11_move_angle_turns_in_place_witness :
  exists cmds,
    published (snd (move_angle (scripted never never tf_turned cfg_ground_truth)
                               1 (mkData (Some 90) None None None None)
                               st_start))
    = published st_start ++ cmds /\
    Forall (fun cmd => linear cmd = zero3) cmds.
Proof.
  apply (X11_move_angle_turns_in_place
           (scripted never never tf_turned cfg_ground_truth) 0
           (mkData (Some 90) None None None None) st_start
           (mkSt 0%nat (mkState (Some pose_turned) None None
                                (Some "miniroom"%string)) [] [])
           (mkSt 0%nat (mkState (Some pose_turned) None None
                                (Some "miniroom"%string)) [] [])
           0%nat pose_turned).
  - apply rigid_pose_turned.
  - now apply scripted_current_pose_start.
  - reflexivity.
  - now apply (scripted_current_pose_gt never tf_turned cfg_ground_truth).
Defined.

(** ** Yaw round trips *)

Lemma tan_shift (x : R) : cos x <> 0 -> sin x / cos x = tan (x + PI).
Proof.
  intros H. unfold tan. rewrite neg_sin, neg_cos. field. exact H.
Qed.

Lemma tan_unshift (x : R) : cos x <> 0 -> sin x / cos x = tan (x - PI).
Proof.
  intros H. unfold tan.
  replace (sin x) with (sin (x - PI + PI)) by (f_equal; ring).
  replace (cos x) with (cos (x - PI + PI)) in * by (f_equal; ring).
  rewrite neg_sin, neg_cos in *. field. lra.
Qed.

Lemma arctan2_sin_cos (theta : R) :
  - PI < theta <= PI -> arctan2 (sin theta) (cos theta) = theta.
Proof.
  intros [Hlo Hhi]. pose proof PI_RGT_0 as Hpi. unfold arctan2.
  destruct (Rlt_dec 0 (cos theta)) as [Hc | Hc].
  - (* the right half plane *)
    assert (Hr : - (PI / 2) < theta < PI / 2).
    { split.
      - destruct (Rlt_dec (- (PI / 2)) theta) as [|Hn]; [assumption |].
        exfalso. destruct (Req_dec theta (- (PI / 2))) as [E | E].
        + rewrite E, cos_neg, cos_PI2 in Hc. lra.
        + assert (cos (- theta) < 0) by (apply cos_lt_0; lra).
          rewrite cos_neg in *. lra.
      - destruct (Rlt_dec theta (PI / 2)) as [|Hn]; [assumption |].
        exfalso. destruct (Req_dec theta (PI / 2)) as [E | E].
        + rewrite E, cos_PI2 in Hc. lra.
        + assert (cos theta < 0) by (apply cos_lt_0; lra). lra. }
    change (sin theta / cos theta) with (tan theta). now apply atan_tan.
  - destruct (Rlt_dec (cos theta) 0) as [Hn | Hn].
    + assert (Hout : theta < - (PI / 2) \/ PI / 2 < theta).
      { destruct (Rlt_dec theta (- (PI / 2))) as [|A]; [now left |].
        destruct (Rlt_dec (PI / 2) theta) as [|B]; [now right |].
        exfalso. destruct (Req_dec theta (- (PI / 2))) as [E | E].
        - rewrite E, cos_neg, cos_PI2 in Hn. lra.
        - destruct (Req_dec theta (PI / 2)) as [E' | E'].
          + rewrite E', cos_PI2 in Hn. lra.
          + assert (0 < cos theta) by (apply cos_gt_0; lra). lra. }
      destruct (Rle_dec 0 (sin theta)) as [Hs | Hs].
      * (* the second quadrant *)
        destruct Hout as [Hl | Hu].
        { exfalso. assert (sin theta < 0) by (apply sin_lt_0_var; lra). lra. }
        rewrite tan_unshift by lra. rewrite atan_tan by lra. ring.
      * (* the third quadrant *)
        destruct Hout as [Hl | Hu].
        { rewrite tan_shift by lra. rewrite atan_tan by lra. ring. }
        exfalso. destruct (Req_dec theta PI) as [E | E].
        { rewrite E, sin_PI in Hs. lra. }
        assert (0 < sin theta) by (apply sin_gt_0; lra). lra.
    + (* on the vertical axis *)
      assert (Hz : cos theta = 0) by lra.
      assert (Hq : theta = PI / 2 \/ theta = - (PI / 2)).
      { destruct (Rlt_dec theta (- (PI / 2))) as [A | A].
        - exfalso. assert (cos (- theta) < 0) by (apply cos_lt_0; lra).
          rewrite cos_neg in *. lra.
        - destruct (Rlt_dec (PI / 2) theta) as [B | B].
          + exfalso. assert (cos theta < 0) by (apply cos_lt_0; lra). lra.
          + destruct (Req_dec theta (- (PI / 2))) as [E | E]; [now right |].
            destruct (Req_dec theta (PI / 2)) as [E' | E']; [now left |].
            exfalso. assert (0 < cos theta) by (apply cos_gt_0; lra). lra. }
      destruct Hq as [-> | ->].
      * rewrite sin_PI2. destruct (Rlt_dec 0 1); [reflexivity | lra].
      * rewrite sin_neg, sin_PI2.
        destruct (Rlt_dec 0 (- (1))); [lra |].
        destruct (Rlt_dec (- (1)) 0); [reflexivity | lra].
Qed.

Lemma yaw_rot_z (theta : R) (t : Vec3) :
  - PI < theta <= PI -> __yaw (mkMat4 (rot_z theta) t) = theta.
Proof.
  intros H. unfold __yaw, euler_XYZ_z, rot_z. cbn [rot m00 m01].
  replace (- - sin theta) with (sin theta) by ring.
  now apply arctan2_sin_cos.
Qed.

Lemma three_lt_PI : 3 < PI.
Proof. pose proof PI2_3_2. lra. Qed.

(** X12: building a pose from a yaw angle and reading the yaw back is
    the identity away from the half turn: for an angle of at most 3
    radians in size, [__yaw] of the pose that [__transrpy_to_tf_matrix]
    makes of a translation and the angles [0, 0, theta] is [theta], and
    the translation is kept. *)
Theorem X12_yaw_round_trip (tx ty tz theta : R) :
  Rabs theta <= 3 ->
  exists m,
    __transrpy_to_tf_matrix [tx; ty; tz] [0; 0; theta] = Some m /\
    __yaw m = theta /\ trans m = mkVec3 tx ty tz.
Proof.
  intros H. eexists. split; [apply transrpy_yaw |].
  split; [| reflexivity].
  apply yaw_rot_z. pose proof three_lt_PI.
  apply Rabs_le_bounds in H. lra.
Qed.

(** A turn of one radian to the left, one unit ahead. *)
Lemma X12_yaw_round_trip_witness :
  exists m,
    __transrpy_to_tf_matrix [1; 0; 0] [0; 0; 1] = Some m /\
    __yaw m = 1 /\ trans m = mkVec3 1 0 0.
Proof.
  apply (X12_yaw_round_trip 1 0 0 1).
  rewrite Rabs_right; lra.
Defined.

(** ** The first command of a turn *)

Lemma yaw_to_pose_rotated (c : Mat4) (theta : R) :
  rigid c -> - PI < theta <= PI ->
  __yaw_b_wrt_a c (pose_rotated c theta) = Some theta.
Proof.
  intros Hc Ht.
  destruct (rigid_poses_closed c (pose_rotated c theta) Hc
              (rigid_pose_rotated c theta Hc)) as (_ & r & Hr & _ & Hrot & _).
  unfold __yaw_b_wrt_a. rewrite Hr. f_equal. rewrite Hrot.
  unfold pose_rotated; cbn [rot].
  rewrite <- mat3_mul_assoc. destruct Hc as [-> _]. rewrite mat3_mul_eye_l.
  unfold euler_XYZ_z, rot_z; cbn [m00 m01].
  replace (- - sin theta) with (sin theta) by ring.
  now apply arctan2_sin_cos.
Qed.

(** X14: what [move_angle] does first.  For a rigid pose that the
    first ticks read again unchanged, with no collision signalled, and a
    request of at most a full turn whose wrapped angle [theta] is clear
    of the yaw tolerance and of the half turn: at half the tolerance or
    less the call publishes its two [Twist()] and returns; from twice
    the tolerance up to 3 radians its first command is a pure turn at
    [speed_factor * 3 * theta], and the orientation loop goes on from
    there. *)
Theorem X14_move_angle_first_command
    {W} (ctl : Controller W) (fuel : nat) (data : Data)
    (s s1 s3 s5 : St W) (w2 w4 : W) (c : Mat4) :
  let theta := __pi_wrap (deg2rad (__safe_dict_get (data_angle data) 0)) in
  let cmd := set_angular_z
               (_move_speed_factor ctl * _MOVE_ANGLE_K * theta) Twist0 in
  rigid c ->
  Rabs (__safe_dict_get (data_angle data) 0) <= 360 ->
  Rabs theta <= _MOVE_TOL_YAW / 2 \/
  (2 * _MOVE_TOL_YAW <= Rabs theta /\ Rabs theta <= 3) ->
  _current_pose ctl s = (Ok c, s1) ->
  is_collided ctl (world s1) = (false, w2) ->
  _current_pose ctl (set_world w2 s1) = (Ok c, s3) ->
  is_collided ctl (world s3) = (false, w4) ->
  _current_pose ctl (set_world w4 s3) = (Ok c, s5) ->
  move_angle ctl (S (S fuel)) data s =
  if Rle_dec (Rabs theta) (_MOVE_TOL_YAW / 2)
  then (Ok tt, after_publish ctl Twist0 (after_publish ctl Twist0 s5))
  else ((_move_to_angle_loop ctl fuel (pose_rotated c theta) cmd ;;;
         publish ctl Twist0) ;;; publish ctl Twist0)
         (after_tick ctl cmd s5).
Proof.
  intros theta cmd Hr _ Hclear Hp0 Hc1 Hp1 Hc2 Hp2.
  pose proof tol_yaw_pos as Htol. pose proof three_lt_PI as H3.
  assert (Htol3 : _MOVE_TOL_YAW / 2 < 3).
  { unfold _MOVE_TOL_YAW, deg2rad. pose proof PI_4. lra. }
  rewrite (move_angle_goal ctl (S (S fuel)) data s c s1 Hp0). fold theta.
  destruct (pose_rotated_at_hand c theta Hr) as (Hd & Ha).
  rewrite (move_to_pose_at_hand ctl (S fuel) _ s1 w2 c s3 Hc1 Hp1 Hd Ha).
  assert (Hy : __yaw_b_wrt_a c (pose_rotated c theta) = Some theta).
  { apply yaw_to_pose_rotated; [exact Hr |].
    assert (Hb : Rabs theta <= 3) by (destruct Hclear as [H | [_ H]]; lra).
    apply Rabs_le_bounds in Hb. lra. }
  destruct (Rle_dec (Rabs theta) (_MOVE_TOL_YAW / 2)) as [Hle | Hgt].
  - unfold bind at 1.
    rewrite (move_to_angle_ok ctl (S fuel) _ s3 s5); [reflexivity |].
    apply (angle_loop_converged ctl fuel _ Twist0 s3 w4 c s5 theta
             Hc2 Hp2 Hy).
    lra.
  - assert (Hge : ~ Rabs theta < _MOVE_TOL_YAW)
      by (destruct Hclear as [H | [H _]]; lra).
    unfold bind at 1. unfold _move_to_angle at 1. unfold bind at 1.
    rewrite (angle_loop_step ctl fuel _ Twist0 s3 w4 c s5 theta
               Hc2 Hp2 Hy Hge).
    reflexivity.
Qed.

Lemma deg2rad_90 : deg2rad 90 = PI / 2.
Proof. unfold deg2rad. field. Qed.

Lemma pi_wrap_quarter : __pi_wrap (deg2rad 90) = PI / 2.
Proof.
  rewrite deg2rad_90. apply pi_wrap_fixed. pose proof PI_RGT_0. lra.
Qed.

(** The robot stands at the quarter turn at (1, 2, 0) and is asked to
    turn by 90 degrees. *)
Lemma X14_move_angle_first_command_witness :
  let ctl := scripted never never tf_turned cfg_ground_truth in
  let data := mkData (Some 90) None None None None in
  let theta := __pi_wrap (deg2rad 90) in
  let cmd := set_angular_z
               (_move_speed_factor ctl * _MOVE_ANGLE_K * theta) Twist0 in
  let s1 := mkSt 0%nat (mkState (Some pose_turned) None None
                                (Some "miniroom"%string)) [] [] in
  move_angle ctl 2 data st_start =
  if Rle_dec (Rabs theta) (_MOVE_TOL_YAW / 2)
  then (Ok tt, after_publish ctl Twist0 (after_publish ctl Twist0 s1))
  else ((_move_to_angle_loop ctl 0 (pose_rotated pose_turned theta) cmd ;;;
         publish ctl Twist0) ;;; publish ctl Twist0)
         (after_tick ctl cmd s1).
Proof.
  cbv zeta.
  apply (X14_move_angle_first_command
           (scripted never never tf_turned cfg_ground_truth) 0
           (mkData (Some 90) None None None None) st_start
           (mkSt 0%nat (mkState (Some pose_turned) None None
                                (Some "miniroom"%string)) [] [])
           (mkSt 0%nat (mkState (Some pose_turned) None None
                                (Some "miniroom"%string)) [] [])
           (mkSt 0%nat (mkState (Some pose_turned) None None
                                (Some "miniroom"%string)) [] [])
           0%nat 0%nat pose_turned).
  - apply rigid_pose_turned.
  - cbn [data_angle __safe_dict_get]. rewrite Rabs_right; lra.
  - cbn [data_angle __safe_dict_get]. rewrite pi_wrap_quarter.
    right. pose proof PI_RGT_0. pose proof PI_4.
    rewrite Rabs_right by lra. unfold _MOVE_TOL_YAW, deg2rad. lra.
  - now apply scripted_current_pose_start.
  - reflexivity.
  - now apply (scripted_current_pose_gt never tf_turned cfg_ground_truth).
  - reflexivity.
  - now apply (scripted_current_pose_gt never tf_turned cfg_ground_truth).
Defined.

(** ** Driving straight *)







(** ** The waypoint cursor over a whole session *)

Lemma same_trajectory_refl {W} (s : St W) : same_trajectory s s.
Proof. split; reflexivity. Qed.

Lemma same_trajectory_trans {W} (s1 s2 s3 : St W) :
  same_trajectory s1 s2 -> same_trajectory s2 s3 -> same_trajectory s1 s3.
Proof. intros [A B] [C D]. split; congruence. Qed.

Ltac same_trajectory_laws :=
  first
    [ exact same_trajectory_refl
    | exact same_trajectory_trans
    | exact I
    | intros; exact I
    | intros; split; reflexivity ].

Lemma cursor_steps_of_same {W} (s s' : St W) n :
  same_trajectory s s' -> cursor_steps n s s'.
Proof.
  intros [A B] k Hk. exists k. rewrite A, B. repeat split; auto; lia.
Qed.

Lemma cursor_steps_trans {W} (s1 s2 s3 : St W) n m :
  cursor_steps n s1 s2 -> cursor_steps m s2 s3 -> cursor_steps (n + m) s1 s3.
Proof.
  intros H1 H2 k Hk. destruct (H1 k Hk) as (k1 & Hk1 & Hle1 & Hp1).
  destruct (H2 k1 Hk1) as (k2 & Hk2 & Hle2 & Hp2).
  exists k2. repeat split; try congruence; lia.
Qed.

Lemma move_next_no_poses {W} (ctl : Controller W) fuel s k :
  trajectory_pose_next (state s) = Some k ->
  trajectory_poses (state s) = None ->
  move_next ctl fuel s = (Raise KeyError, s).
Proof.
  intros Hk Hl. unfold move_next.
  unfold bind at 1, get_state at 1. rewrite Hk.
  unfold bind at 1, ret at 1.
  unfold bind at 1, get_state at 1. now rewrite Hl.
Qed.

Lemma move_next_cursor_steps {W} (ctl : Controller W) fuel s :
  cursor_steps 1 s (snd (move_next ctl fuel s)).
Proof.
  intros k Hk. destruct (trajectory_poses (state s)) as [l |] eqn:Hl.
  - rewrite (move_next_initialised ctl fuel s k l (conj Hk Hl)).
    assert (Hs : exists k', trajectory_pose_next (state s) = Some k' /\
                            (k <= k' <= k + 1)%nat /\
                            trajectory_poses (state s) = Some l)
      by (exists k; repeat split; auto; lia).
    destruct (nth_error l k) as [pose |]; [| exact Hs].
    destruct (np_take pose _) as [pv |]; [| exact Hs].
    destruct (__pose_vector_to_tf_matrix pv) as [goal |]; [| exact Hs].
    pose proof (move_to_pose_same_trajectory ctl fuel goal s) as [Hk1 Hl1].
    destruct (_move_to_pose ctl fuel goal s) as [[[] | e |] s1];
      cbn [snd] in *.
    + exists (S k). unfold advanced.
      destruct (List.length l <=? S k)%nat; cbn;
        (split; [reflexivity | split; [lia | congruence]]).
    + exists k. rewrite Hk1, Hl1. repeat split; auto; lia.
    + exists k. rewrite Hk1, Hl1. repeat split; auto; lia.
  - rewrite (move_next_no_poses ctl fuel s k Hk Hl). cbn [snd].
    exists k. repeat split; auto; lia.
Qed.

Lemma state_after_same_trajectory {W} (ctl : Controller W) c s :
  (forall fuel, c <> Call_move_next fuel) ->
  same_trajectory s (state_after ctl c s).
Proof.
  intros Hc. destruct c; cbn [state_after];
    [ apply (stepwise_define_initial_pose ctl same_trajectory)
    | apply (stepwise_get_noisy_pose ctl same_trajectory)
    | apply (stepwise_current_pose ctl same_trajectory)
    | apply (stepwise_move_to_angle ctl same_trajectory)
        with (okcmd := fun _ => True)
    | apply (stepwise_move_to_pose ctl same_trajectory)
        with (okcmd := fun _ => True)
    | apply (stepwise_create_pose_list ctl same_trajectory)
    | apply (stepwise_debug_move ctl same_trajectory)
        with (okcmd := fun _ => True)
    | apply (stepwise_move_angle ctl same_trajectory)
        with (okcmd := fun _ => True)
    | apply (stepwise_move_distance ctl same_trajectory)
        with (okcmd := fun _ => True)
    | now contradiction (Hc fuel)
    | split; reflexivity ];
    same_trajectory_laws.
Qed.

Lemma state_after_cursor_steps {W} (ctl : Controller W) c s :
  cursor_steps 1 s (state_after ctl c s).
Proof.
  destruct c;
    try (apply cursor_steps_of_same, state_after_same_trajectory;
         discriminate).
  apply move_next_cursor_steps.
Qed.

(** X16: once the waypoint cursor is set, no sequence of operations of
    the module, with the world changing in between, moves it back or
    moves it further than one step for each operation, and none replaces
    the waypoint list. *)
Theorem X16_cursor_never_goes_back
    {W} (ctl : Controller W) (cs : list (call W)) (s : St W) (k : nat) :
  trajectory_pose_next (state s) = Some k ->
  exists k',
    trajectory_pose_next (state (state_after_all ctl cs s)) = Some k' /\
    (k <= k' <= k + List.length cs)%nat /\
    trajectory_poses (state (state_after_all ctl cs s)) =
    trajectory_poses (state s).
Proof.
  revert s k.
  change (forall s,
             cursor_steps (List.length cs) s (state_after_all ctl cs s)).
  induction cs as [| c cs IH]; intros s.
  - apply cursor_steps_of_same, same_trajectory_refl.
  - change (List.length (c :: cs)) with (1 + List.length cs)%nat.
    eapply cursor_steps_trans; [apply state_after_cursor_steps |].
    apply IH.
Qed.

(** A pose query, a step at the first waypoint cut short by the collision
    signal, and a turn. *)
Lemma X16_cursor_never_goes_back_witness :
  exists k',
    trajectory_pose_next
      (state (state_after_all
                (scripted always never tf_origin cfg_ground_truth)
                [Call_current_pose; Call_move_next 1;
                 Call_move_angle 1 (mkData (Some 90) None None None None)]
                (st_traj 0 [] []))) = Some k' /\
    (0 <= k' <= 0 + 3)%nat /\
    trajectory_poses
      (state (state_after_all
                (scripted always never tf_origin cfg_ground_truth)
                [Call_current_pose; Call_move_next 1;
                 Call_move_angle 1 (mkData (Some 90) None None None None)]
                (st_traj 0 [] []))) =
    trajectory_poses (state (st_traj 0 [] [])).
Proof.
  apply (X16_cursor_never_goes_back
           (scripted always never tf_origin cfg_ground_truth)
           [Call_current_pose; Call_move_next 1;
            Call_move_angle 1 (mkData (Some 90) None None None None)]
           (st_traj 0 [] []) 0%nat).
  reflexivity.
Defined.

(** ** A session whose waypoints cannot be loaded *)

(** X17: the first [move_next] sets the cursor before it looks the
    environment up.  When no environment is selected, or the selected one
    is not in the configuration, the call raises [KeyError] with the
    cursor already at 0 and no waypoint list; from then on every
    [move_next] raises [KeyError] without moving, also after an
    environment of the configuration has been selected. *)
Theorem X17_failed_environment_load
    {W} (ctl : Controller W) (fuel : nat) (s : St W) :
  trajectory_pose_next (state s) = None ->
  trajectory_poses (state s) = None ->
  (forall env, selected_environment (state s) = Some env ->
               dict_get env (environments (config ctl)) = None) ->
  let s1 := set_state (set_trajectory_pose_next 0 (state s)) s in
  move_next ctl fuel s = (Raise KeyError, s1) /\
  (forall fuel', move_next ctl fuel' s1 = (Raise KeyError, s1)) /\
  (forall env fuel',
     let s2 := set_state (select_environment env (state s1)) s1 in
     move_next ctl fuel' s2 = (Raise KeyError, s2)).
Proof.
  intros Hn Hl He s1. split; [| split].
  - unfold move_next.
    unfold bind at 1, get_state at 1. rewrite Hn.
    unfold bind at 1. unfold bind at 1, modify_state at 1.
    unfold bind at 1, get_state at 1.
    cbn [state set_state selected_environment set_trajectory_pose_next].
    destruct (selected_environment (state s)) as [env |] eqn:E;
      cbn [or_raise]; [| reflexivity].
    unfold bind at 1, ret at 1. rewrite (He env eq_refl). reflexivity.
  - intros fuel'. apply (move_next_no_poses ctl fuel' s1 0%nat);
      [reflexivity | exact Hl].
  - intros env fuel' s2. apply (move_next_no_poses ctl fuel' s2 0%nat);
      [reflexivity | exact Hl].
Qed.

Lemma X17_failed_environment_load_witness :
  let ctl := scripted never never tf_origin cfg_ground_truth in
  let s1 := set_state (set_trajectory_pose_next 0 (state st_unselected))
                      st_unselected in
  move_next ctl 1 st_unselected = (Raise KeyError, s1) /\
  (forall fuel', move_next ctl fuel' s1 = (Raise KeyError, s1)) /\
  (forall env fuel',
     let s2 := set_state (select_environment env (state s1)) s1 in
     move_next ctl fuel' s2 = (Raise KeyError, s2)).
Proof.
  cbv zeta.
  apply (X17_failed_environment_load
           (scripted never never tf_origin cfg_ground_truth) 1 st_unselected).
  - reflexivity.
  - reflexivity.
  - intros env H. discriminate H.
Defined.

(** ** Waypoints that cannot be read *)

Lemma np_take_short (pose : list R) :
  (List.length pose < 7)%nat ->
  np_take pose [1; 2; 3; 0; 4; 5; 6]%nat = None.
Proof.
  intros H. assert (Hn : nth_error pose 6 = None)
    by (apply nth_error_None; lia).
  cbn [np_take]. rewrite Hn.
  repeat match goal with
         | |- context [nth_error pose ?i] => destruct (nth_error pose i)
         end; reflexivity.
Qed.

Lemma quat_as_dcm_zero : quat_as_dcm 0 0 0 0 = None.
Proof.
  unfold quat_as_dcm. cbv zeta.
  destruct (Req_dec_T (0 * 0 + 0 * 0 + 0 * 0 + 0 * 0) 0) as [_ | H];
    [reflexivity | exfalso; apply H; ring].
Qed.

(** X18: a waypoint that cannot be read stops the trajectory for good.
    With the cursor on a waypoint of fewer than seven numbers the call
    raises [IndexError]; on one whose quaternion is zero it raises
    [ValueError]; either way nothing is published and the state is the
    one before the call, cursor included, so a repeated call does the
    same. *)
Theorem X18_unreadable_waypoint
    {W} (ctl : Controller W) (fuel : nat) (s : St W)
    (k : nat) (l : list (list R)) (pose : list R) :
  trajectory_pose_next (state s) = Some k ->
  trajectory_poses (state s) = Some l ->
  nth_error l k = Some pose ->
  ((List.length pose < 7)%nat ->
   move_next ctl fuel s = (Raise IndexError, s)) /\
  (forall tx ty tz rest,
     pose = [0; 0; 0; 0; tx; ty; tz] ++ rest ->
     move_next ctl fuel s = (Raise ValueError, s)).
Proof.
  intros Hk Hl Hn.
  rewrite (move_next_initialised ctl fuel s k l (conj Hk Hl)), Hn.
  split.
  - intros Hlen. now rewrite np_take_short.
  - intros tx ty tz rest ->. cbn [np_take nth_error app].
    unfold __pose_vector_to_tf_matrix. now rewrite quat_as_dcm_zero.
Qed.

Lemma X18_unreadable_waypoint_witness :
  ((List.length [1; 0; 0] < 7)%nat ->
   move_next (scripted never never tf_origin cfg_ground_truth) 1
             st_short_waypoint = (Raise IndexError, st_short_waypoint)) /\
  (forall tx ty tz rest,
     [1; 0; 0] = [0; 0; 0; 0; tx; ty; tz] ++ rest ->
     move_next (scripted never never tf_origin cfg_ground_truth) 1
               st_short_waypoint = (Raise ValueError, st_short_waypoint)).
Proof.
  apply (X18_unreadable_waypoint
           (scripted never never tf_origin cfg_ground_truth) 1
           st_short_waypoint 0%nat [[1; 0; 0]] [1; 0; 0]);
    reflexivity.
Defined.

(** ** A waypoint counted without a move *)

(** X19: a collision signal that is up when [move_next] starts its move
    still consumes the waypoint: the call publishes one [Twist()],
    returns, and leaves the cursor one further. *)
Theorem X19_collision_consumes_waypoint
    {W} (ctl : Controller W) (fuel : nat) (s : St W) (w1 : W)
    (k : nat) (l : list (list R)) (pose pv : list R) (goal : Mat4) :
  trajectory_pose_next (state s) = Some k ->
  trajectory_poses (state s) = Some l ->
  nth_error l k = Some pose ->
  np_take pose [1; 2; 3; 0; 4; 5; 6]%nat = Some pv ->
  __pose_vector_to_tf_matrix pv = Some goal ->
  is_collided ctl (world s) = (true, w1) ->
  exists s',
    move_next ctl (S fuel) s = (Ok tt, s') /\
    trajectory_pose_next (state s') = Some (S k) /\
    trajectory_poses (state s') = Some l /\
    published s' = published s ++ [Twist0].
Proof.
  intros Hk Hl Hn Ht Hg Hc.
  rewrite (move_next_initialised ctl (S fuel) s k l (conj Hk Hl)), Hn, Ht, Hg.
  rewrite (move_to_pose_ok ctl (S fuel) goal s (set_world w1 s))
    by now apply pose_loop_collided.
  eexists. split; [reflexivity |]. unfold advanced.
  destruct (List.length l <=? S k)%nat; cbn; auto.
Qed.

Lemma X19_collision_consumes_waypoint_witness :
  exists s',
    move_next (scripted always never tf_origin cfg_ground_truth) 1
              (st_traj 1 [] []) = (Ok tt, s') /\
    trajectory_pose_next (state s') = Some 2%nat /\
    trajectory_poses (state s') = Some waypoints3 /\
    published s' = published (st_traj 1 [] []) ++ [Twist0].
Proof.
  apply (X19_collision_consumes_waypoint
           (scripted always never tf_origin cfg_ground_truth) 0
           (st_traj 1 [] []) 0%nat 1%nat waypoints3 waypoint_origin
           [0; 0; 0; 1; 0; 0; 0] eye4);
    try reflexivity.
  apply pose_vector_origin.
Defined.

(** ** The line logged at the end of the trajectory *)

Lemma move_to_pose_logs_nothing {W} (ctl : Controller W) fuel goal s :
  logged (snd (_move_to_pose ctl fuel goal s)) = logged s.
Proof.
  apply (stepwise_move_to_pose ctl (fun s s' => logged s' = logged s))
    with (okcmd := fun _ => True);
    intros; cbn; first [exact I | congruence].
Qed.

(** X20: a [move_next] that returns logs the line about running out of
    poses exactly when the waypoint it has just completed was the last
    one, and logs nothing otherwise. *)
Theorem X20_exhaustion_logged_on_last_waypoint
    {W} (ctl : Controller W) (fuel : nat) (s s' : St W)
    (k : nat) (l : list (list R)) :
  trajectory_pose_next (state s) = Some k ->
  trajectory_poses (state s) = Some l ->
  move_next ctl fuel s = (Ok tt, s') ->
  logged s' =
  logged s ++
  (if (S k =? List.length l)%nat
   then ["You have run out of trajectory poses!"%string] else []).
Proof.
  intros Hk Hl H.
  destruct (move_next_advances ctl fuel s s' k l (conj Hk Hl) H) as [_ Hlt].
  rewrite (move_next_initialised ctl fuel s k l (conj Hk Hl)) in H.
  destruct (nth_error l k) as [pose |]; [| discriminate].
  destruct (np_take pose _) as [pv |]; [| discriminate].
  destruct (__pose_vector_to_tf_matrix pv) as [goal |]; [| discriminate].
  pose proof (move_to_pose_logs_nothing ctl fuel goal s) as Hlog.
  destruct (_move_to_pose ctl fuel goal s) as [[[] | e |] s1];
    try discriminate.
  injection H as <-. cbn [snd] in Hlog. unfold advanced.
  destruct (Nat.leb_spec (List.length l) (S k));
    destruct (Nat.eqb_spec (S k) (List.length l)); try lia;
    cbn [logged set_state]; rewrite Hlog; [reflexivity | now rewrite app_nil_r].
Qed.

(** The third of three waypoints. *)
Lemma X20_exhaustion_logged_on_last_waypoint_witness :
  logged (advanced 2 waypoints3
            (after_publish (scripted always never tf_origin cfg_ground_truth)
                           Twist0 (st_traj 2 [] []))) =
  logged (st_traj 2 [] []) ++
  (if (3 =? List.length waypoints3)%nat
   then ["You have run out of trajectory poses!"%string] else []).
Proof.
  apply (X20_exhaustion_logged_on_last_waypoint
           (scripted always never tf_origin cfg_ground_truth) 1
           (st_traj 2 [] []) _ 2%nat waypoints3).
  - reflexivity.
  - reflexivity.
  - apply move_next_blocked. lia.
Defined.

(** ** Queries *)

Lemma quiet_refl {W} (s : St W) : quiet s s.
Proof. repeat split. Qed.

Lemma quiet_trans {W} (s1 s2 s3 : St W) :
  quiet s1 s2 -> quiet s2 s3 -> quiet s1 s3.
Proof.
  intros (A & B & C & D & E) (A' & B' & C' & D' & E').
  repeat split; congruence.
Qed.

Ltac quiet_laws :=
  first
    [ exact quiet_refl
    | exact quiet_trans
    | intros; repeat split ].

(** X21: the pose queries command nothing.  [_define_initial_pose],
    [_get_noisy_pose], [_current_pose] and [create_pose_list] publish no
    velocity command and log nothing, and they leave the waypoint cursor,
    the waypoint list and the selected environment as they are, whether
    they return or raise. *)
Theorem X21_queries_command_nothing
    {W} (ctl : Controller W) (child : string) (s : St W) :
  quiet s (snd (_define_initial_pose ctl s)) /\
  quiet s (snd (_get_noisy_pose ctl child s)) /\
  quiet s (snd (_current_pose ctl s)) /\
  quiet s (snd (create_pose_list ctl s)).
Proof.
  split; [| split; [| split]].
  all: first
    [ apply (stepwise_define_initial_pose ctl quiet)
    | apply (stepwise_get_noisy_pose ctl quiet)
    | apply (stepwise_current_pose ctl quiet)
    | apply (stepwise_create_pose_list ctl quiet) ];
    quiet_laws.
Qed.

(** ** No initial pose on a dirty instance *)

Lemma define_initial_pose_dirty_run {W} (ctl : Controller W) s w1 :
  is_dirty ctl (world s) = (true, w1) ->
  _define_initial_pose ctl s = (Ok tt, set_world w1 s).
Proof.
  intros Hd. unfold _define_initial_pose, bind, instance_is_dirty, get_state.
  now rewrite Hd.
Qed.

(** The lookups of the pose list end normally or in one of two errors,
    and never touch [controller.state]. *)
Lemma pose_list_tfs_outcome {W} (ctl : Controller W) gt_mode poses :
  forall tfs s,
    state (snd (pose_list_tfs ctl gt_mode poses tfs s)) = state s /\
    ((exists out, fst (pose_list_tfs ctl gt_mode poses tfs s) = Ok out) \/
     fst (pose_list_tfs ctl gt_mode poses tfs s) = Raise KeyError \/
     fst (pose_list_tfs ctl gt_mode poses tfs s) = Raise LookupException).
Proof.
  induction poses as [| p rest IH]; intros tfs s; cbn [pose_list_tfs].
  - split; [reflexivity | left; now eexists].
  - destruct (String.eqb p "initial_pose"); [apply IH |].
    unfold bind at 1 2 3 4.
    assert (Hv : forall m : M W Mat4,
               m = tf_lookup ctl (robot_global_frame (config ctl)) p \/
               m = _get_noisy_pose ctl p ->
               state (snd (m s)) = state s /\
               ((exists v, fst (m s) = Ok v) \/ fst (m s) = Raise KeyError \/
                fst (m s) = Raise LookupException)).
    { intros m [-> | ->].
      - unfold tf_lookup.
        destruct (lookup_transform ctl _ p (world s)) as [[v |] w]; cbn;
          split; auto. left; now eexists.
      - unfold _get_noisy_pose, bind, get_state.
        destruct (initial_pose_tf_mat (state s)); cbn [or_raise ret raise];
          [| cbn; auto].
        unfold tf_lookup.
        destruct (lookup_transform ctl _ p (world s)) as [[v |] w]; cbn;
          split; auto. left; now eexists. }
    set (m := if gt_mode then _ else _).
    destruct (Hv m) as [Hs Hr]; [subst m; destruct gt_mode; auto |].
    destruct (m s) as [[v | e |] s1]; cbn [fst snd] in *.
    + destruct (IH (dict_set p v tfs) s1) as [Hs1 Hr1].
      split; [congruence | exact Hr1].
    + split; [exact Hs |].
      destruct Hr as [[v Hv'] | [Hr | Hr]]; [discriminate | |];
        injection Hr as ->; auto.
    + exfalso. destruct Hr as [[v Hv'] | [Hr | Hr]]; discriminate.
Qed.

(** X22: a dirty instance without a memoized initial pose.  The
    estimator memoizes nothing there, so dead reckoning has nothing to
    start from: [_current_pose] of a task that is not a ground-truth one
    raises [KeyError] without any transform lookup, and
    [create_pose_list] of a configuration that lists ['initial_pose']
    cannot return. *)
Theorem X22_no_initial_pose_on_dirty_instance
    {W} (ctl : Controller W) (s : St W) (w1 : W) :
  is_dirty ctl (world s) = (true, w1) ->
  initial_pose_tf_mat (state s) = None ->
  (str_contains "ground_truth" (task_name (config ctl)) = false ->
   _current_pose ctl s = (Raise KeyError, set_world w1 s)) /\
  (existsb (String.eqb "initial_pose") (robot_poses (config ctl)) = true ->
   exists e s',
     create_pose_list ctl s = (Raise e, s') /\
     (e = KeyError \/ e = LookupException) /\
     initial_pose_tf_mat (state s') = None).
Proof.
  intros Hd Hn. split.
  - intros Hm. unfold _current_pose.
    rewrite (bind_ok _ _ _ _ _ (define_initial_pose_dirty_run ctl s w1 Hd)).
    rewrite Hm. unfold _get_noisy_pose, bind, get_state.
    cbn [state set_world]. now rewrite Hn.
  - intros Hin. unfold create_pose_list.
    rewrite (bind_ok _ _ _ _ _ (define_initial_pose_dirty_run ctl s w1 Hd)).
    rewrite Hin. unfold bind at 1.
    destruct (pose_list_tfs_outcome ctl (pose_list_gt_mode ctl)
                (robot_poses (config ctl)) [] (set_world w1 s)) as [Hs Hr].
    destruct (pose_list_tfs ctl _ _ [] (set_world w1 s))
      as [[tfs | e |] s2]; cbn [fst snd state set_world] in *.
    + unfold bind, get_state. rewrite Hs, Hn. cbn [or_raise raise].
      exists KeyError, s2. rewrite Hs. auto.
    + exists e, s2. split; [reflexivity |]. rewrite Hs. split; [| exact Hn].
      destruct Hr as [[v Hv] | [Hr | Hr]]; [discriminate | |];
        injection Hr as ->; auto.
    + exfalso. destruct Hr as [[v Hv] | [Hr | Hr]]; discriminate.
Qed.

Lemma X22_no_initial_pose_on_dirty_instance_witness :
  let ctl := scripted never always tf_origin cfg_noisy_initial in
  (str_contains "ground_truth" (task_name (config ctl)) = false ->
   _current_pose ctl st_start = (Raise KeyError, set_world 0%nat st_start)) /\
  (existsb (String.eqb "initial_pose") (robot_poses (config ctl)) = true ->
   exists e s',
     create_pose_list ctl st_start = (Raise e, s') /\
     (e = KeyError \/ e = LookupException) /\
     initial_pose_tf_mat (state s') = None).
Proof.
  cbv zeta.
  apply (X22_no_initial_pose_on_dirty_instance
           (scripted never always tf_origin cfg_noisy_initial) st_start 0%nat);
    reflexivity.
Defined.

(** ** The entries of the pose list *)

Lemma dict_set_keys {A} (k : string) (v : A) (d : list (string * A)) k' :
  In k' (keys (dict_set k v d)) <-> k' = k \/ In k' (keys d).
Proof.
  induction d as [| [k0 v0] d IH]; cbn [dict_set keys map In fst].
  - intuition.
  - destruct (String.eqb_spec k k0) as [-> | Hne]; cbn [keys map In fst].
    + intuition.
    + unfold keys in IH. rewrite IH. intuition.
Qed.

Lemma dict_set_NoDup {A} (k : string) (v : A) (d : list (string * A)) :
  NoDup (keys d) -> NoDup (keys (dict_set k v d)).
Proof.
  induction d as [| [k0 v0] d IH]; cbn [dict_set keys map fst]; intros H.
  - constructor; [intros [] | constructor].
  - inversion H as [| ? ? Hnin Hnd]; subst.
    destruct (String.eqb_spec k k0) as [-> | Hne]; cbn [keys map fst].
    + now constructor.
    + constructor; [| now apply IH].
      intros Hin. apply (dict_set_keys k v d k0) in Hin.
      destruct Hin as [-> | Hin]; [now apply Hne | now apply Hnin].
Qed.

Lemma dict_set_Forall {A} (P : string * A -> Prop) k v (d : list (string * A)) :
  P (k, v) -> Forall P d -> Forall P (dict_set k v d).
Proof.
  intros Hk. induction d as [| [k0 v0] d IH]; cbn [dict_set]; intros H.
  - now constructor.
  - inversion H; subst.
    destruct (String.eqb k k0); constructor; auto.
Qed.

(** The keys gathered by the lookups come from the configured poses. *)
Lemma pose_list_tfs_keys {W} (ctl : Controller W) gt_mode poses :
  forall tfs s out s',
    pose_list_tfs ctl gt_mode poses tfs s = (Ok out, s') ->
    forall k, In k (keys out) -> In k (keys tfs) \/ In k poses.
Proof.
  induction poses as [| p rest IH]; intros tfs s out s' H k Hk;
    cbn [pose_list_tfs] in H.
  - injection H as <- _. now left.
  - destruct (String.eqb p "initial_pose").
    + destruct (IH _ _ _ _ H k Hk); [now left | right; now right].
    + unfold bind in H.
      destruct ((if gt_mode
                 then tf_lookup ctl (robot_global_frame (config ctl)) p
                 else _get_noisy_pose ctl p) s) as [[v | e |] s1];
        try discriminate.
      destruct (IH _ _ _ _ H k Hk) as [Hin | Hin]; [| right; now right].
      apply dict_set_keys in Hin. destruct Hin as [-> | Hin];
        [right; now left | now left].
Qed.

Lemma existsb_initial_pose (poses : list string) :
  existsb (String.eqb "initial_pose") poses = true ->
  In "initial_pose"%string poses.
Proof.
  intros H. apply existsb_exists in H. destruct H as (x & Hx & E).
  apply String.eqb_eq in E. now subst.
Qed.

Lemma pose_list_rename {W} (ctl : Controller W) (poses : list string)
    (tfs : list (string * Mat4)) :
  (forall k, In k (keys tfs) -> In k poses) ->
  forall acc,
    let out :=
      fold_left
        (fun out kv =>
           dict_set
             (if str_contains "left_camera" (fst kv) then "camera"%string
              else fst kv)
             (mkPoseEntry (robot_global_frame (config ctl))
                          (trans (snd kv)) (rot (snd kv)))
             out)
        tfs acc in
    let good (kv : string * PoseEntry) :=
      parent_frame (snd kv) = robot_global_frame (config ctl) /\
      str_contains "left_camera" (fst kv) = false /\
      (fst kv = "camera"%string \/ In (fst kv) poses) in
    NoDup (keys acc) -> Forall good acc ->
    NoDup (keys out) /\ Forall good out.
Proof.
  induction tfs as [| [k v] tfs IH]; intros Hsub acc out good Hnd Hgood.
  - now split.
  - subst out. cbn [fold_left fst snd].
    apply IH.
    + intros k' Hk'. apply Hsub. now right.
    + now apply dict_set_NoDup.
    + apply dict_set_Forall; [| exact Hgood].
      unfold good. cbn [fst snd parent_frame].
      split; [reflexivity |].
      destruct (str_contains "left_camera" k) eqn:E.
      * split; [reflexivity | now left].
      * split; [exact E | right; apply Hsub; now left].
Qed.

(** X23: what [create_pose_list] returns.  The keys are distinct; each
    is ['camera'] or one of the configured pose names; none contains
    ['left_camera']; and every entry names the global frame as its
    parent. *)
Theorem X23_pose_list_entries
    {W} (ctl : Controller W) (s s' : St W)
    (out : list (string * PoseEntry)) :
  create_pose_list ctl s = (Ok out, s') ->
  NoDup (map fst out) /\
  Forall (fun kv =>
            parent_frame (snd kv) = robot_global_frame (config ctl) /\
            str_contains "left_camera" (fst kv) = false /\
            (fst kv = "camera"%string \/
             In (fst kv) (robot_poses (config ctl))))
         out.
Proof.
  unfold create_pose_list. intros H. unfold bind at 1 in H.
  destruct (_define_initial_pose ctl s) as [[[] | e |] s0]; try discriminate.
  unfold bind at 1 in H.
  destruct (pose_list_tfs ctl (pose_list_gt_mode ctl)
              (robot_poses (config ctl)) [] s0) as [[tfs | e |] s1] eqn:Et;
    try discriminate.
  pose proof (pose_list_tfs_keys ctl _ _ _ _ _ _ Et) as Hk.
  assert (Hsub : forall k, In k (keys tfs) -> In k (robot_poses (config ctl))).
  { intros k Hin. destruct (Hk k Hin) as [[] | Hp]. exact Hp. }
  unfold bind at 1 in H.
  destruct (existsb (String.eqb "initial_pose") (robot_poses (config ctl)))
    eqn:Ei.
  - unfold bind at 1, get_state at 1 in H.
    destruct (initial_pose_tf_mat (state s1)) as [p |];
      cbn [or_raise] in H; [| discriminate].
    unfold bind, ret in H. injection H as <- _.
    apply (pose_list_rename ctl (robot_poses (config ctl))
             (dict_set "initial_pose" p tfs)).
    + intros k Hin. apply dict_set_keys in Hin.
      destruct Hin as [-> | Hin];
        [now apply existsb_initial_pose | now apply Hsub].
    + constructor.
    + constructor.
  - unfold ret in H. injection H as <- _.
    apply (pose_list_rename ctl (robot_poses (config ctl)) tfs Hsub);
      constructor.
Qed.

(** The camera of a session whose initial pose is the identity. *)
Lemma X23_pose_list_entries_witness :
  let ctl := scripted never never tf_drifted cfg_mixed in
  let out := [("camera"%string,
               mkPoseEntry "map" (trans (matmul eye4 pose_two_ahead))
                           (rot (matmul eye4 pose_two_ahead)))] in
  NoDup (map fst out) /\
  Forall (fun kv =>
            parent_frame (snd kv) = robot_global_frame (config ctl) /\
            str_contains "left_camera" (fst kv) = false /\
            (fst kv = "camera"%string \/
             In (fst kv) (robot_poses (config ctl))))
         out.
Proof.
  cbv zeta.
  apply (X23_pose_list_entries
           (scripted never never tf_drifted cfg_mixed) st_session st_session).
  reflexivity.
Defined.

(** ** The laser scan *)




(** ** The camera matrices *)

Lemma reshape_rows_spec (rows cols : nat) :
  forall a,
    List.length a = (rows * cols)%nat ->
    List.concat (reshape_rows rows cols a) = a /\
    List.length (reshape_rows rows cols a) = rows /\
    Forall (fun row => List.length row = cols) (reshape_rows rows cols a).
Proof.
  induction rows as [| rows IH]; intros a Ha; cbn [reshape_rows].
  - cbn in Ha. apply length_zero_iff_nil in Ha. subst.
    repeat split. constructor.
  - cbn [Nat.mul] in Ha.
    destruct (IH (skipn cols a)) as (Hc & Hl & Hf).
    { rewrite length_skipn. lia. }
    cbn [List.concat List.length]. rewrite Hc, Hl, firstn_skipn.
    repeat split. constructor; [| exact Hf].
    rewrite length_firstn. lia.
Qed.

(** X25: [encode_camera_info] returns exactly when [K] has 9 and [P]
    has 12 entries.  It then passes the frame id, the height and the
    width through, and its two matrices have 3 rows of 3 and of 4
    entries that, read row by row, are [K] and [P]. *)
Theorem X25_camera_info_matrices (data : CameraInfo.t) :
  (encode_camera_info data <> None <->
   List.length (CameraInfo.K data) = 9%nat /\
   List.length (CameraInfo.P data) = 12%nat) /\
  (forall out,
     encode_camera_info data = Some out ->
     frame_id out = CameraInfo.header_frame_id data /\
     encoded_height out = CameraInfo.height data /\
     encoded_width out = CameraInfo.width data /\
     List.concat (matrix_intrinsics out) = CameraInfo.K data /\
     List.length (matrix_intrinsics out) = 3%nat /\
     Forall (fun row => List.length row = 3%nat) (matrix_intrinsics out) /\
     List.concat (matrix_projection out) = CameraInfo.P data /\
     List.length (matrix_projection out) = 3%nat /\
     Forall (fun row => List.length row = 4%nat) (matrix_projection out)).
Proof.
  unfold encode_camera_info, np_reshape.
  change (3 * 3)%nat with 9%nat. change (3 * 4)%nat with 12%nat.
  destruct (Nat.eqb_spec (List.length (CameraInfo.K data)) 9) as [HK | HK];
    destruct (Nat.eqb_spec (List.length (CameraInfo.P data)) 12) as [HP | HP].
  - split; [split; [auto | discriminate] |].
    intros out H. injection H as <-.
    cbn [frame_id encoded_height encoded_width matrix_intrinsics
         matrix_projection].
    destruct (reshape_rows_spec 3 3 (CameraInfo.K data) HK) as (A & B & C).
    destruct (reshape_rows_spec 3 4 (CameraInfo.P data) HP) as (D & E & F).
    repeat split; assumption.
  - split; [split; [intros H; now contradiction H | intros [_ H];
                    contradiction] | discriminate].
  - split; [split; [intros H; now contradiction H | intros [H _];
                    contradiction] | discriminate].
  - split; [split; [intros H; now contradiction H | intros [H _];
                    contradiction] | discriminate].
Qed.

(** ** The payload of the debugging move *)

Lemma matmul_eye4_r (c : Mat4) : matmul c eye4 = c.
Proof.
  unfold matmul, eye4. cbn [rot trans].
  destruct c as [[c00 c01 c02 c10 c11 c12 c20 c21 c22] [tx ty tz]].
  unfold mat3_mul, mat3_vec, vec3_add, eye3, zero3.
  cbn [rot trans m00 m01 m02 m10 m11 m12 m20 m21 m22 vx vy vz].
  f_equal; f_equal; ring.
Qed.

(** X26: the payload of [_debug_move].  A payload on which the test
    ['rot_yaw' in data] cannot be made (a value that is not iterable)
    raises [TypeError] once the current pose has been read, before
    anything is published.  For a dict with ['rot_yaw'] and no
    ['trans_xyz'] the goal is the current pose turned by that angle,
    whatever ['rot_xyzw'] holds; for a dict with none of the three keys
    the goal is the current pose.  In both the move is followed by a
    second pose query, and the call raises [LinAlgError] when the first
    pose cannot be inverted for the report. *)
Theorem X26_debug_move_payload
    {W} (ctl : Controller W) (fuel : nat) (s : St W) :
  (_debug_move ctl fuel (Payload_other None) s =
   (_current_pose ctl ;;; raise TypeError) s /\
   published (snd (_debug_move ctl fuel (Payload_other None) s)) =
   published s) /\
  (forall yaw a d q,
     _debug_move ctl fuel (Payload_dict (mkData a d (Some yaw) q None)) s =
     (pose_a <- _current_pose ctl ;;
      _move_to_pose ctl fuel (pose_rotated pose_a (deg2rad yaw)) ;;;
      pose_b <- _current_pose ctl ;;
      _ <- or_raise LinAlgError (__tr_b_wrt_a pose_a pose_b) ;;
      ret tt) s) /\
  (forall a d,
     _debug_move ctl fuel (Payload_dict (mkData a d None None None)) s =
     (pose_a <- _current_pose ctl ;;
      _move_to_pose ctl fuel pose_a ;;;
      pose_b <- _current_pose ctl ;;
      _ <- or_raise LinAlgError (__tr_b_wrt_a pose_a pose_b) ;;
      ret tt) s).
Proof.
  assert (Htype : _debug_move ctl fuel (Payload_other None) s =
                  (_current_pose ctl ;;; raise TypeError) s).
  { unfold _debug_move, bind. cbn [rot_yaw_in or_raise].
    destruct (_current_pose ctl s) as [[c | e |] s1]; reflexivity. }
  split; [split; [exact Htype |] | split].
  - rewrite Htype. unfold bind, raise.
    pose proof (current_pose_publishes_nothing ctl s) as Hp.
    destruct (_current_pose ctl s) as [[c | e |] s1]; exact Hp.
  - intros yaw a d q. unfold _debug_move.
    cbn [rot_yaw_in payload_dict data_rot_yaw data_trans_xyz
         __safe_dict_get or_raise].
    destruct (_current_pose ctl s) as [[c | e |] s1] eqn:E.
    + rewrite !(bind_ok _ _ _ _ _ E).
      unfold bind at 1, ret at 1. cbv beta iota.
      rewrite (transrpy_yaw 0 0 0). cbn [or_raise].
      unfold bind at 1, ret at 1. now rewrite matmul_rotation.
    + now rewrite !(bind_raise _ _ _ _ _ E).
    + now rewrite !(bind_out_of_fuel _ _ _ _ E).
  - intros a d. unfold _debug_move.
    cbn [rot_yaw_in payload_dict data_rot_yaw data_rot_xyzw data_trans_xyz
         __safe_dict_get or_raise app].
    destruct (_current_pose ctl s) as [[c | e |] s1] eqn:E.
    + rewrite !(bind_ok _ _ _ _ _ E).
      unfold bind at 1, ret at 1. cbv beta iota.
      rewrite pose_vector_origin. cbn [or_raise].
      unfold bind at 1, ret at 1. now rewrite matmul_eye4_r.
    + now rewrite !(bind_raise _ _ _ _ _ E).
    + now rewrite !(bind_out_of_fuel _ _ _ _ E).
Qed.
